(** * Reference resolution in the FSXA content mapper

    A shallow embedding of [src/modules/CaaSMapper.ts] and of
    [src/modules/FSXARemoteApi.ts], and the properties of the mapper's
    identifier scheme, reference registry, resolution rounds and error
    policy, and of the configuration and the requests of the API object.

    Conventions of the embedding.
    - Content is JSON data: [value].  JSON numbers are modelled by integers;
      the page and the page size of a request may also be [NaN].
    - A JavaScript object is an association list in enumeration order.  The
      engine's reordering of integer-like keys is not modelled; every key the
      mapper writes into its registries contains a ['.'].
    - Strings are byte strings.  The mapper only searches for the ASCII
      characters ['.'] and ['#'], which never occur inside a multi-byte
      UTF-8 sequence, so cutting at their positions agrees with JavaScript.
    - A method of the mapper is a function from the mapper object to an
      outcome and the mutated mapper object.
    - [Promise.all] over a list of calls is evaluated left to right, which is
      one of the schedules the event loop admits.
    - Only [logger.warn] calls are recorded; debug output has no effect on the
      mapper and is left out. *)

From Stdlib Require Import String Ascii List ZArith Lia Bool Arith DecimalString.
Import ListNotations.
Local Open Scope string_scope.
Local Open Scope Z_scope.

Set Warnings "-register-all".

(** ** JavaScript values and primitives *)

Inductive value : Type :=
| VUndefined
| VNull
| VBool (b : bool)
| VNum (z : Z)
| VStr (s : string)
| VArr (elems : list value)
| VObj (fields : list (string * value)).

(** Errors thrown by the code ([throw new Error(..)]) and by the runtime. *)
Inductive exn : Type :=
| Error (message : string)
| TypeError (message : string).

(** Outcome of a call: a returned value, a thrown error (a rejected promise
    for an async method), exhaustion of the recursion budget of the model, or
    a behaviour the data model cannot express (a named property written onto
    an array, an inherited method read off a primitive). *)
Inductive outcome (A : Type) : Type :=
| Returns (a : A)
| Throws (e : exn)
| OutOfFuel
| Unmodelled.
Arguments Returns {A} a.
Arguments Throws {A} e.
Arguments OutOfFuel {A}.
Arguments Unmodelled {A}.

Module JS.

Definition string_of_nat (n : nat) : string :=
  NilZero.string_of_uint (Nat.to_uint n).

Definition string_of_Z (z : Z) : string :=
  NilZero.string_of_int (Z.to_int z).

(** A number as a caller can pass it for [page] and [pagesize]: an integer
    or [NaN], for which every comparison is false.  A fraction or an
    infinity takes, in the comparisons with [1] and in the truth test, the
    branch of an integer on its side of [1] and of [0], and is not told apart
    from it. *)
Inductive number : Type :=
| Int (z : Z)
| NaN.

(** [a < b]. *)
Definition lt (a b : number) : bool :=
  match a, b with
  | Int x, Int y => (x <? y)%Z
  | _, _ => false
  end.

(** [ToBoolean] of a number. *)
Definition truthy_number (n : number) : bool :=
  match n with
  | Int z => negb (z =? 0)%Z
  | NaN => false
  end.

Definition string_of_number (n : number) : string :=
  match n with
  | Int z => string_of_Z z
  | NaN => "NaN"
  end.

(** [ToBoolean]. *)
Definition truthy (v : value) : bool :=
  match v with
  | VUndefined | VNull => false
  | VBool b => b
  | VNum z => negb (z =? 0)
  | VStr s => negb (s =? "")%string
  | VArr _ | VObj _ => true
  end.

Definition truthy_str (s : string) : bool := negb (s =? "")%string.

(** Truthiness of an optional string ([string | undefined]). *)
Definition truthy_opt (o : option string) : bool :=
  match o with Some s => truthy_str s | None => false end.

(** [a || b] on optional strings. *)
Definition or_opt (a b : option string) : option string :=
  if truthy_opt a then a else b.

Definition of_opt (o : option string) : value :=
  match o with Some s => VStr s | None => VUndefined end.

Fixpoint lookup {A : Type} (k : string) (l : list (string * A)) : option A :=
  match l with
  | [] => None
  | (k', v) :: rest => if (k =? k')%string then Some v else lookup k rest
  end.

(** [o[k] = v]: overwrite in place, or append a new key. *)
Fixpoint assign {A : Type} (k : string) (v : A) (l : list (string * A))
  : list (string * A) :=
  match l with
  | [] => [(k, v)]
  | (k', v') :: rest =>
      if (k =? k')%string then (k, v) :: rest else (k', v') :: assign k v rest
  end.

Definition keys {A : Type} (l : list (string * A)) : list string := map fst l.
Definition values {A : Type} (l : list (string * A)) : list A := map snd l.

(** An object literal or [Object.assign]: the fields of [src] are written
    into [dst] one after the other. *)
Definition assign_all {A : Type} (dst src : list (string * A))
  : list (string * A) :=
  fold_left (fun acc kv => assign (fst kv) (snd kv) acc) src dst.

Definition object (fs : list (string * value)) : value := VObj (assign_all [] fs).

(** Position of the first occurrence of a character. *)
Fixpoint find_char (c : ascii) (s : string) : option nat :=
  match s with
  | EmptyString => None
  | String a rest =>
      if Ascii.eqb a c then Some 0%nat
      else match find_char c rest with
           | Some n => Some (S n)
           | None => None
           end
  end.

(** [s.indexOf(c)] for a one-character needle. *)
Definition indexOf (c : ascii) (s : string) : Z :=
  match find_char c s with
  | Some n => Z.of_nat n
  | None => -1
  end.

Definition clamp (len i : Z) : Z := Z.max 0 (Z.min i len).

(** [s.substring(a, b)]: both indices are clamped to the string and swapped
    when out of order. *)
Definition substring (s : string) (a b : Z) : string :=
  let len := Z.of_nat (String.length s) in
  let a' := clamp len a in
  let b' := clamp len b in
  let lo := Z.min a' b' in
  let hi := Z.max a' b' in
  String.substring (Z.to_nat lo) (Z.to_nat (hi - lo)) s.

Definition includes_char (c : ascii) (s : string) : bool :=
  match find_char c s with Some _ => true | None => false end.

Fixpoint join (sep : string) (l : list string) : string :=
  match l with
  | [] => ""
  | [x] => x
  | x :: rest => x ++ sep ++ join sep rest
  end.

(** [ToString], as used by template literals, by [Array.join] and by [+]
    with a string operand. *)
Fixpoint toString (v : value) : string :=
  match v with
  | VUndefined => "undefined"
  | VNull => "null"
  | VBool true => "true"
  | VBool false => "false"
  | VNum z => string_of_Z z
  | VStr s => s
  | VArr l =>
      join "," (map (fun e => match e with
                             | VUndefined | VNull => ""
                             | _ => toString e
                             end) l)
  | VObj _ => "[object Object]"
  end.

Definition chars (s : string) : list value :=
  map (fun c => VStr (String c EmptyString)) (list_ascii_of_string s).

Fixpoint index_fields (i : nat) (l : list value) : list (string * value) :=
  match l with
  | [] => []
  | v :: rest => (string_of_nat i, v) :: index_fields (S i) rest
  end.

(** Own enumerable properties, as seen by [Object.keys], by spread and by
    [for..in]. *)
Definition own_fields (v : value) : list (string * value) :=
  match v with
  | VObj fs => fs
  | VArr l => index_fields 0 l
  | VStr s => index_fields 0 (chars s)
  | _ => []
  end.

(** Property read [v.k] for the data properties the mapper reads.  Reading
    from [null] or [undefined] throws; a missing property is [undefined].
    Of the names the mapper reads, only [link] is inherited by a primitive
    (the method [String.prototype.link]). *)
Definition get (v : value) (k : string) : outcome value :=
  match v with
  | VUndefined =>
      Throws (TypeError ("Cannot read properties of undefined (reading '" ++ k ++ "')"))
  | VNull =>
      Throws (TypeError ("Cannot read properties of null (reading '" ++ k ++ "')"))
  | VObj fs =>
      Returns (match lookup k fs with Some x => x | None => VUndefined end)
  | VStr _ => if (k =? "link")%string then Unmodelled else Returns VUndefined
  | _ => Returns VUndefined
  end.

(** [a || b]. *)
Definition or (a b : value) : value := if truthy a then a else b.

(** An array element as rendered by [Array.join]. *)
Definition join_elem (v : value) : string :=
  match v with
  | VUndefined | VNull => ""
  | _ => toString v
  end.

(** The last segment of [s.split('/')], that is [s.split('/').pop()]. *)
Fixpoint last_segment (acc : string) (s : string) : string :=
  match s with
  | EmptyString => acc
  | String c rest =>
      if Ascii.eqb c "/" then last_segment "" rest
      else last_segment (acc ++ String c EmptyString) rest
  end.

Definition filter_Boolean (l : list value) : list value := filter truthy l.

(** Optional chaining [v?.k]. *)
Definition get_opt (v : value) (k : string) : value :=
  match v with
  | VObj fs => match lookup k fs with Some x => x | None => VUndefined end
  | _ => VUndefined
  end.

Definition is_str (v : value) (s : string) : bool :=
  match v with VStr s' => (s' =? s)%string | _ => false end.

Definition has_key (v : value) (k : string) : bool :=
  existsb (fun k' => (k' =? k)%string) (keys (own_fields v)).

End JS.

Coercion JS.Int : Z >-> JS.number.

(** ** Data of the mapper *)

(** A segment of a path: a key, an index, or [undefined] where the id of an
    item is missing. *)
Inductive PathSegment : Type :=
| Key (k : string)
| Index (i : nat)
| NoKey.

Definition NestedPath := list PathSegment.

Record RemoteProjectConfigurationEntry : Type := {
  rp_id : string;
  rp_locale : option string
}.

(** [RemoteProjectConfiguration]: a record of entries by name. *)
Definition RemoteProjectConfiguration :=
  list (string * RemoteProjectConfigurationEntry).

Definition ReferencedItemsInfo := list (string * list NestedPath).
Definition ResolvedReferencesInfo := list (string * value).

Inductive FSXAContentMode : Type := PREVIEW | RELEASE.

Inductive ComparisonQueryOperatorEnum : Type := IN | EQUALS.

Record QueryBuilderQuery : Type := {
  q_operator : ComparisonQueryOperatorEnum;
  q_value : value;
  q_field : string
}.

Record FetchByFilterParams : Type := {
  fp_filters : list QueryBuilderQuery;
  fp_locale : option string;
  fp_page : option JS.number;
  fp_pagesize : option JS.number;
  fp_additionalParams : option (list (string * value));
  fp_remoteProject : option string;
  fp_fetchOptions : value;
  fp_filterContext : value;
  fp_sort : list value;
  fp_normalized : option bool
}.

Record FetchResponse : Type := {
  fr_page : JS.number;
  fr_pagesize : JS.number;
  fr_totalPages : value;
  fr_size : value;
  fr_items : list value;
  fr_referenceMap : option ReferencedItemsInfo;
  fr_resolvedReferences : option ResolvedReferencesInfo
}.

Record MapResponse : Type := {
  mappedItems : list value;
  referenceMap : ReferencedItemsInfo;
  mr_resolvedReferences : ResolvedReferencesInfo
}.

(** One call of [logger.warn]. *)
Record LogEntry : Type := {
  log_message : string;
  log_args : list value
}.

(** A call of [registerReferencedItem]. *)
Record Registration : Type := {
  reg_identifier : string;
  reg_path : NestedPath;
  reg_remoteProjectId : option string;
  reg_imageMapResolution : option string
}.

(** The custom mapping hook.  It receives the entry and its path.  Of the
    methods of the mapper that change its state it is only handed
    [registerReferencedItem] and [mapDataEntries], so all it can do to the
    mapper is register references.  It answers with the registrations it made
    and its result ([undefined] to defer). *)
Record CustomMapperAnswer : Type := {
  cm_registrations : list Registration;
  cm_result : outcome value
}.

Definition CustomMapper := value -> NestedPath -> CustomMapperAnswer.

(** The configuration of [FSXARemoteApi] read by the mapper and by
    [fetchByFilter].  The api object is not mutated during a request. *)
Record FSXARemoteApi : Type := {
  remotes : RemoteProjectConfiguration;
  contentMode : FSXAContentMode;
  _maxReferenceDepth : option Z;
  _customMapper : option CustomMapper;
  _caasItemFilter : option (MapResponse -> value -> outcome MapResponse)
}.

(** The mapper object.  [logged] collects the [logger.warn] calls and
    [issued] the calls of [api.fetchByFilter] made by the mapper, most
    recent last. *)
Record CaaSMapper : Type := {
  api : FSXARemoteApi;
  locale : string;
  customMapper : option CustomMapper;
  referenceDepth : Z;
  maxReferenceDepth : Z;
  resolvedReferences : ResolvedReferencesInfo;
  _referencedItems : ReferencedItemsInfo;
  _remoteReferences : list (string * ReferencedItemsInfo);
  logged : list LogEntry;
  issued : list FetchByFilterParams
}.

Definition REFERENCED_ITEMS_CHUNK_SIZE : Z := 30.
Definition DEFAULT_MAX_REFERENCE_DEPTH : Z := 10.

Module CaaSMapperErrors.
Definition UNKNOWN_BODY_CONTENT : string := "Unknown BodyContent could not be mapped.".
Definition UNKNOWN_FSTYPE : string := "Unknown fsType could not be mapped".
End CaaSMapperErrors.

(** ** The monad of mapper methods *)

Definition M (A : Type) : Type := CaaSMapper -> outcome A * CaaSMapper.

Definition ret {A : Type} (a : A) : M A := fun m => (Returns a, m).

Definition bind {A B : Type} (c : M A) (k : A -> M B) : M B :=
  fun m =>
    match c m with
    | (Returns a, m') => k a m'
    | (Throws e, m') => (Throws e, m')
    | (OutOfFuel, m') => (OutOfFuel, m')
    | (Unmodelled, m') => (Unmodelled, m')
    end.

Definition throw {A : Type} (e : exn) : M A := fun m => (Throws e, m).

Definition lift {A : Type} (o : outcome A) : M A := fun m => (o, m).

Definition gets {A : Type} (f : CaaSMapper -> A) : M A := fun m => (Returns (f m), m).

Definition modify (f : CaaSMapper -> CaaSMapper) : M unit := fun m => (Returns tt, f m).

Declare Scope mapper_scope.
Delimit Scope mapper_scope with mapper.
Notation "x <- c ;; k" := (bind c (fun x => k))
  (at level 61, c at next level, right associativity) : mapper_scope.
Notation "c ;;; k" := (bind c (fun _ => k))
  (at level 61, right associativity) : mapper_scope.
Local Open Scope mapper_scope.

(** [Promise.all(xs.map((x, index) => f(x, index)))]. *)
Fixpoint mapM_from {A B : Type} (i : nat) (f : A -> nat -> M B) (xs : list A)
  : M (list B) :=
  match xs with
  | [] => ret []
  | x :: rest =>
      y <- f x i ;;
      ys <- mapM_from (S i) f rest ;;
      ret (y :: ys)
  end.

Definition mapM {A B : Type} (f : A -> nat -> M B) (xs : list A) : M (list B) :=
  mapM_from 0 f xs.

(** Field updates of the mapper object. *)
Definition set_referenceDepth (d : Z) (m : CaaSMapper) : CaaSMapper :=
  {| api := api m; locale := locale m; customMapper := customMapper m;
     referenceDepth := d; maxReferenceDepth := maxReferenceDepth m;
     resolvedReferences := resolvedReferences m;
     _referencedItems := _referencedItems m;
     _remoteReferences := _remoteReferences m;
     logged := logged m; issued := issued m |}.

Definition set_resolvedReferences (r : ResolvedReferencesInfo) (m : CaaSMapper)
  : CaaSMapper :=
  {| api := api m; locale := locale m; customMapper := customMapper m;
     referenceDepth := referenceDepth m; maxReferenceDepth := maxReferenceDepth m;
     resolvedReferences := r;
     _referencedItems := _referencedItems m;
     _remoteReferences := _remoteReferences m;
     logged := logged m; issued := issued m |}.

Definition set_referencedItems (r : ReferencedItemsInfo) (m : CaaSMapper)
  : CaaSMapper :=
  {| api := api m; locale := locale m; customMapper := customMapper m;
     referenceDepth := referenceDepth m; maxReferenceDepth := maxReferenceDepth m;
     resolvedReferences := resolvedReferences m;
     _referencedItems := r;
     _remoteReferences := _remoteReferences m;
     logged := logged m; issued := issued m |}.

Definition set_remoteReferences (r : list (string * ReferencedItemsInfo))
  (m : CaaSMapper) : CaaSMapper :=
  {| api := api m; locale := locale m; customMapper := customMapper m;
     referenceDepth := referenceDepth m; maxReferenceDepth := maxReferenceDepth m;
     resolvedReferences := resolvedReferences m;
     _referencedItems := _referencedItems m;
     _remoteReferences := r;
     logged := logged m; issued := issued m |}.

Definition add_logged (e : LogEntry) (m : CaaSMapper) : CaaSMapper :=
  {| api := api m; locale := locale m; customMapper := customMapper m;
     referenceDepth := referenceDepth m; maxReferenceDepth := maxReferenceDepth m;
     resolvedReferences := resolvedReferences m;
     _referencedItems := _referencedItems m;
     _remoteReferences := _remoteReferences m;
     logged := (logged m ++ [e])%list; issued := issued m |}.

Definition add_issued (p : FetchByFilterParams) (m : CaaSMapper) : CaaSMapper :=
  {| api := api m; locale := locale m; customMapper := customMapper m;
     referenceDepth := referenceDepth m; maxReferenceDepth := maxReferenceDepth m;
     resolvedReferences := resolvedReferences m;
     _referencedItems := _referencedItems m;
     _remoteReferences := _remoteReferences m;
     logged := logged m; issued := (issued m ++ [p])%list |}.

(** [this.logger.warn(message, ...args)]. *)
Definition warn (message : string) (args : list value) : M unit :=
  modify (add_logged {| log_message := message; log_args := args |}).

(** ** Construction, identifiers and the registry *)

(** [new CaaSMapper(api, locale, utils, logger)]: one empty registry per
    configured remote project. *)
Definition new_CaaSMapper (a : FSXARemoteApi) (loc : string)
  (utils_customMapper : option CustomMapper)
  (utils_referenceDepth utils_maxReferenceDepth : option Z) : CaaSMapper :=
  {| api := a;
     locale := loc;
     customMapper := utils_customMapper;
     referenceDepth := match utils_referenceDepth with Some d => d | None => 0 end;
     maxReferenceDepth :=
       match utils_maxReferenceDepth with
       | Some d => d
       | None => DEFAULT_MAX_REFERENCE_DEPTH
       end;
     resolvedReferences := [];
     _referencedItems := [];
     _remoteReferences :=
       fold_left (fun acc entry => JS.assign (rp_id entry) [] acc)
                 (JS.values (remotes a)) [];
     logged := [];
     issued := [] |}.

(** [getRemoteConfigForProject]. *)
Definition getRemoteConfigForProject (m : CaaSMapper) (projectId : option string)
  : option RemoteProjectConfigurationEntry :=
  match projectId with
  | Some p =>
      if JS.truthy_str p
      then find (fun entry => (rp_id entry =? p)%string) (JS.values (remotes (api m)))
      else None
  | None => None
  end.

(** [unifyId]. *)
Definition unifyId (m : CaaSMapper) (id : string)
  (remoteProjectConfiguration : option RemoteProjectConfigurationEntry) : string :=
  let indexOfSeparator := JS.indexOf "." id in
  let remoteLocale :=
    match remoteProjectConfiguration with
    | Some cfg => rp_locale cfg
    | None => None
    end in
  let idWithLocale :=
    if 0 <? indexOfSeparator then
      match remoteLocale with
      | Some l =>
          if JS.truthy_str l
          then JS.substring id 0 indexOfSeparator ++ "." ++ l
          else id
      | None => id
      end
    else
      id ++ "." ++
      match JS.or_opt remoteLocale (Some (locale m)) with
      | Some l => l
      | None => "undefined"
      end in
  match remoteProjectConfiguration with
  | Some cfg => rp_id cfg ++ "#" ++ idWithLocale
  | None => idWithLocale
  end.

Definition placeholder (remote : bool) (imageMapResolution : option string)
  (unifiedId : string) : string :=
  match imageMapResolution with
  | Some r =>
      if JS.truthy_str r then "IMAGEMAP___" ++ r ++ "___" ++ unifiedId
      else if remote then "[REFERENCED-REMOTE-ITEM-" ++ unifiedId ++ "]"
           else "[REFERENCED-ITEM-" ++ unifiedId ++ "]"
  | None =>
      if remote then "[REFERENCED-REMOTE-ITEM-" ++ unifiedId ++ "]"
      else "[REFERENCED-ITEM-" ++ unifiedId ++ "]"
  end.

(** [[...(registry[unifiedId] || []), path]] written back under
    [unifiedId]. *)
Definition append_path (unifiedId : string) (path : NestedPath)
  (registry : ReferencedItemsInfo) : ReferencedItemsInfo :=
  JS.assign unifiedId
    (match JS.lookup unifiedId registry with
     | Some paths => paths
     | None => []
     end ++ [path])%list
    registry.

(** The warning of [registerReferencedItem] for a remote project that is
    not configured; [shown] is the identifier as the template literal
    renders it. *)
Definition remoteData_for (shown : string) (remoteProjectId : option string)
  : M (option RemoteProjectConfigurationEntry) :=
  remoteData <- gets (fun m => getRemoteConfigForProject m remoteProjectId) ;;
  let remoteProjectKey := option_map rp_id remoteData in
  (if JS.truthy_opt remoteProjectId && negb (JS.truthy_opt remoteProjectKey)
   then warn ("Item with identifier '" ++ shown
              ++ "' was tried to register from remoteProject '"
              ++ match remoteProjectId with Some p => p | None => "undefined" end
              ++ "' but no remote key was found in the config.") []
   else ret tt) ;;;
  ret remoteData.

(** [registerReferencedItem]. *)
Definition registerReferencedItem (identifier : string) (path : NestedPath)
  (remoteProjectId imageMapResolution : option string) : M string :=
  remoteData <- remoteData_for identifier remoteProjectId ;;
  let remoteProjectKey := option_map rp_id remoteData in
  unifiedId <- gets (fun m => unifyId m identifier remoteData) ;;
  if JS.truthy_opt remoteProjectKey then
    buckets <- gets _remoteReferences ;;
    match JS.lookup (match remoteProjectKey with Some k => k | None => "" end)
                    buckets with
    | Some bucket =>
        modify (set_remoteReferences
                  (JS.assign (match remoteProjectKey with Some k => k | None => "" end)
                             (append_path unifiedId path bucket) buckets)) ;;;
        ret (placeholder true imageMapResolution unifiedId)
    | None =>
        throw (TypeError "Cannot read properties of undefined")
    end
  else
    modify (fun m => set_referencedItems
                       (append_path unifiedId path (_referencedItems m)) m) ;;;
    ret (placeholder false imageMapResolution unifiedId).

(** [registerReferencedItem] as called with an identifier read from raw
    content.  A value that is not a string makes [id.indexOf] fail inside
    [unifyId], after the warning for an unknown remote project. *)
Definition registerReferencedItem_dyn (identifier : value) (path : NestedPath)
  (remoteProjectId imageMapResolution : option string) : M value :=
  match identifier with
  | VStr s =>
      token <- registerReferencedItem s path remoteProjectId imageMapResolution ;;
      ret (VStr token)
  | VArr _ => lift Unmodelled
  | _ =>
      remoteData_for (JS.toString identifier) remoteProjectId ;;;
      throw (TypeError "id.indexOf is not a function")
  end.

(** A raw [remoteProject] field used as the [remoteProjectId] argument, as in
    [entry.value.remoteProject || remoteProjectId]. *)
Definition remoteProject_arg (v : value) (fallback : option string)
  : outcome (option string) :=
  if JS.truthy v then
    match v with
    | VStr s => Returns (Some s)
    | _ => Unmodelled
    end
  else Returns fallback.

(** An optional string argument given by a raw value, as rendered by a
    template literal when it is truthy. *)
Definition string_arg (v : value) : option string :=
  if JS.truthy v then Some (JS.toString v) else None.

(** [buildPreviewId]. *)
Definition buildPreviewId (identifier : value) (remoteProjectLocale : option string)
  : M value :=
  gets (fun m =>
          VStr (JS.join "." [JS.join_elem identifier;
                             match JS.or_opt remoteProjectLocale (Some (locale m)) with
                             | Some l => l
                             | None => ""
                             end])).

(** [buildMediaUrl]. *)
Definition buildMediaUrl (url rev : value) : M value :=
  mode <- gets (fun m => contentMode (api m)) ;;
  match JS.truthy rev, mode with
  | true, PREVIEW =>
      match url with
      | VStr u =>
          ret (VStr (u ++ (if JS.includes_char "?" u then "&" else "?")
                       ++ "rev=" ++ JS.toString rev))
      | VArr l =>
          ret (VStr (JS.toString url
                       ++ (if existsb (fun e => JS.is_str e "?") l then "&" else "?")
                       ++ "rev=" ++ JS.toString rev))
      | VUndefined | VNull =>
          throw (TypeError "Cannot read properties of undefined (reading 'includes')")
      | _ => throw (TypeError "url.includes is not a function")
      end
  | _, _ => ret url
  end.

(** ** The content tree mapper *)

Record HttpResponse : Type := {
  ok : bool;
  status : Z;
  json : outcome value
}.

Record CaaSUrlParams : Type := {
  u_filters : list QueryBuilderQuery;
  u_additionalParams : list (string * value);
  u_remoteProject : option string;
  u_locale : option string;
  u_page : JS.number;
  u_pagesize : JS.number;
  u_sort : list value
}.

(** What the two modules import from files and libraries outside [src]:
    [date-fns], the XML parser, [MappingUtils], the enums, the URL builder's
    query encoding and the network. *)
Record Externals : Type := {
  parseISO : value -> value;
  xml_parse : value -> outcome (list value);
  getItemId : value -> option string -> option string;
  denormalizeResolvedReferences :
    list value -> ReferencedItemsInfo -> ResolvedReferencesInfo -> list value;
  RECT : string;
  CIRCLE : string;
  POLY : string;
  NOT_AUTHORIZED : string;
  UNKNOWN_ERROR : string;
  UNKNOWN_REMOTE : string;
  buildCaaSUrl : FSXARemoteApi -> CaaSUrlParams -> outcome string;
  fetch : string -> value -> HttpResponse
}.

Definition DataEntryMapper : Type :=
  value -> NestedPath -> option string -> option string -> M value.

Definition RichTextMapper : Type :=
  list value -> NestedPath -> option string -> option string -> M (list value).

(** The case labels of the [switch] in [mapDataEntry]. *)
Module Kind.
Inductive t : Type :=
| CMS_INPUT_COMBOBOX | CMS_INPUT_DOM | CMS_INPUT_DOMTABLE | CMS_INPUT_NUMBER
| CMS_INPUT_TEXT | CMS_INPUT_TEXTAREA | CMS_INPUT_RADIOBUTTON | CMS_INPUT_DATE
| CMS_INPUT_LINK | CMS_INPUT_LIST | CMS_INPUT_CHECKBOX | CMS_INPUT_IMAGEMAP
| FS_DATASET | CMS_INPUT_TOGGLE | FS_CATALOG | FS_REFERENCE | FS_INDEX
| Option | CMS_INPUT_PERMISSION
| Default.

Definition labels : list (string * t) :=
  [ ("CMS_INPUT_COMBOBOX", CMS_INPUT_COMBOBOX); ("CMS_INPUT_DOM", CMS_INPUT_DOM);
    ("CMS_INPUT_DOMTABLE", CMS_INPUT_DOMTABLE); ("CMS_INPUT_NUMBER", CMS_INPUT_NUMBER);
    ("CMS_INPUT_TEXT", CMS_INPUT_TEXT); ("CMS_INPUT_TEXTAREA", CMS_INPUT_TEXTAREA);
    ("CMS_INPUT_RADIOBUTTON", CMS_INPUT_RADIOBUTTON);
    ("CMS_INPUT_DATE", CMS_INPUT_DATE); ("CMS_INPUT_LINK", CMS_INPUT_LINK);
    ("CMS_INPUT_LIST", CMS_INPUT_LIST); ("CMS_INPUT_CHECKBOX", CMS_INPUT_CHECKBOX);
    ("CMS_INPUT_IMAGEMAP", CMS_INPUT_IMAGEMAP); ("FS_DATASET", FS_DATASET);
    ("CMS_INPUT_TOGGLE", CMS_INPUT_TOGGLE); ("FS_CATALOG", FS_CATALOG);
    ("FS_REFERENCE", FS_REFERENCE); ("FS_INDEX", FS_INDEX); ("Option", Option);
    ("CMS_INPUT_PERMISSION", CMS_INPUT_PERMISSION) ].

(** The branch selected by [switch (entry.fsType)]: strict equality with
    the label strings. *)
Definition of_fsType (fsType : value) : t :=
  match fsType with
  | VStr s => match JS.lookup s labels with Some k => k | None => Default end
  | _ => Default
  end.
End Kind.

Definition getM (v : value) (k : string) : M value := lift (JS.get v k).

Definition set_field (v : value) (k : string) (x : value) : value :=
  match v with
  | VObj fs => VObj (JS.assign k x fs)
  | _ => v
  end.

(** [v.map(f)] for a callback with effects: only an array has [map]. *)
Definition array_mapM (v : value) (f : value -> nat -> M value) : M (list value) :=
  match v with
  | VArr l => mapM f l
  | VUndefined | VNull =>
      throw (TypeError "Cannot read properties of undefined (reading 'map')")
  | _ => throw (TypeError "map is not a function")
  end.

Section Mapping.

Variable ext : Externals.

(** The methods below call [mapDataEntry] and [mapLinksInRichTextElements]
    recursively; both are tied together by [mapper_knot]. *)
Variable mapDataEntry_rec : DataEntryMapper.
Variable mapLinks_rec : RichTextMapper.

(** [mapDataEntries]. *)
Definition mapDataEntries (entries : value) (path : NestedPath)
  (remoteProjectLocale remoteProjectId : option string) : M value :=
  let obj := JS.or entries (VObj []) in
  let keys := JS.keys (JS.own_fields obj) in
  mappedEntries <-
    mapM (fun key (_ : nat) =>
            mapDataEntry_rec
              (match JS.lookup key (JS.own_fields obj) with
               | Some e => e
               | None => VUndefined
               end)
              (path ++ [Key key])%list remoteProjectLocale remoteProjectId)
         keys ;;
  ret (JS.object (combine keys mappedEntries)).

(** [_mapPermissionGroup]. *)
Definition _mapPermissionGroup (group : value) : M value :=
  groupPath <- getM group "groupPath" ;;
  groupId <-
    match groupPath with
    | VStr s => ret (VStr (JS.last_segment "" s))
    | VUndefined | VNull =>
        throw (TypeError "Cannot read properties of undefined (reading 'split')")
    | _ => throw (TypeError "group.groupPath.split is not a function")
    end ;;
  groupName <- getM group "groupName" ;;
  ret (JS.object [("groupId", groupId); ("groupName", groupName);
                  ("groupPath", groupPath)]).

(** [mapSection]. *)
Definition mapSection (section : value) (path : NestedPath)
  (remoteProjectLocale remoteProjectId : option string) : M value :=
  id <- getM section "identifier" ;;
  template <- getM section "template" ;;
  sectionType <- getM template "uid" ;;
  previewId <- buildPreviewId id remoteProjectLocale ;;
  formData <- getM section "formData" ;;
  data <- mapDataEntries formData (path ++ [Key "data"])%list
                         remoteProjectLocale remoteProjectId ;;
  displayed <- getM section "displayed" ;;
  ret (JS.object [("id", id); ("type", VStr "Section"); ("sectionType", sectionType);
                  ("previewId", previewId); ("data", data);
                  ("displayed", displayed); ("children", VArr [])]).

(** [mapImageMapArea]. *)
Definition mapImageMapArea (area : value) (path : NestedPath)
  (remoteProjectLocale remoteProjectId : option string) : M value :=
  areaType <- getM area "areaType" ;;
  areaLink <- getM area "link" ;;
  link <-
    (if JS.truthy areaLink then
       template <- getM areaLink "template" ;;
       uid <- getM template "uid" ;;
       formData <- getM areaLink "formData" ;;
       data <- mapDataEntries formData (path ++ [Key "link"; Key "data"])%list
                              remoteProjectLocale remoteProjectId ;;
       ret (JS.object [("template", uid); ("data", data)])
     else ret areaLink) ;;
  let base := [("areaType", areaType); ("link", link)] in
  if JS.is_str areaType (RECT ext) then
    leftTop <- getM area "leftTop" ;;
    rightBottom <- getM area "rightBottom" ;;
    ret (JS.object (base ++ [("leftTop", leftTop); ("rightBottom", rightBottom)]))
  else if JS.is_str areaType (CIRCLE ext) then
    center <- getM area "center" ;;
    radius <- getM area "radius" ;;
    ret (JS.object (base ++ [("center", center); ("radius", radius)]))
  else if JS.is_str areaType (POLY ext) then
    points <- getM area "points" ;;
    ret (JS.object (base ++ [("points", points)]))
  else ret VNull.

(** [mapImageMap]. *)
Definition mapImageMap (imageMap : value) (path : NestedPath)
  (remoteProjectLocale remoteProjectId : option string) : M value :=
  v <- getM imageMap "value" ;;
  if negb (JS.truthy v) then throw (Error "ImageMap value is null")
  else
    media <- getM v "media" ;;
    areas <- getM v "areas" ;;
    resolution <- getM v "resolution" ;;
    mappedAreas <-
      array_mapM areas
        (fun area index =>
           mapImageMapArea area (path ++ [Key "areas"; Index index])%list
                           remoteProjectLocale remoteProjectId) ;;
    image <-
      (if JS.truthy media then
         identifier <- getM media "identifier" ;;
         remoteProject <- getM media "remoteProject" ;;
         uid <- getM resolution "uid" ;;
         rp <- lift (remoteProject_arg remoteProject None) ;;
         registerReferencedItem_dyn identifier (path ++ [Key "media"])%list
                                    rp (string_arg uid)
       else ret VNull) ;;
    ret (JS.object [("type", VStr "ImageMap");
                    ("areas", VArr (JS.filter_Boolean mappedAreas));
                    ("media", image)]).

(** One element of [mapLinksInRichTextElements]: the link data and the
    nested content are replaced on the element. *)
Definition mapLinksInRichTextElement (path : NestedPath)
  (remoteProjectLocale remoteProjectId : option string)
  (richTextElement : value) (index : nat) : M value :=
  type <- getM richTextElement "type" ;;
  element <-
    (if JS.is_str type "link" then
       d <- getM richTextElement "data" ;;
       template <- getM d "type" ;;
       dd <- getM d "data" ;;
       data <- mapDataEntries dd
                 (path ++ [Index index; Key "data"; Key "data"])%list
                 remoteProjectLocale remoteProjectId ;;
       ret (set_field richTextElement "data"
              (JS.object [("type", VStr "Link"); ("template", template);
                          ("data", data); ("meta", VObj [])]))
     else ret richTextElement) ;;
  content <- getM element "content" ;;
  match content with
  | VArr l =>
      mapped <- mapLinks_rec l (path ++ [Index index; Key "content"])%list
                             remoteProjectLocale remoteProjectId ;;
      ret (set_field element "content" (VArr mapped))
  | _ => ret element
  end.

(** [mapLinksInRichTextElements]. *)
Definition mapLinksInRichTextElements_body : RichTextMapper :=
  fun richTextElements path remoteProjectLocale remoteProjectId =>
    mapM (mapLinksInRichTextElement path remoteProjectLocale remoteProjectId)
         richTextElements.

(** The custom mapper is asked first; [None] means that the built-in
    dispatch runs. *)
Definition ask_customMapper (entry : value) (path : NestedPath)
  : M (option value) :=
  hook <- gets customMapper ;;
  match hook with
  | Some h =>
      let answer := h entry path in
      mapM (fun r (_ : nat) =>
              fun m =>
                (Returns tt,
                 snd (registerReferencedItem (reg_identifier r) (reg_path r)
                        (reg_remoteProjectId r) (reg_imageMapResolution r) m)))
           (cm_registrations answer) ;;;
      result <- lift (cm_result answer) ;;
      match result with
      | VUndefined => ret None
      | _ => ret (Some result)
      end
  | None => ret None
  end.

Definition option_of (v : value) : M value :=
  if JS.truthy v then
    key <- getM v "identifier" ;;
    label <- getM v "label" ;;
    ret (JS.object [("type", VStr "Option"); ("key", key); ("value", label)])
  else ret VNull.

Definition mapChildren (v : value) (path : NestedPath)
  (remoteProjectLocale remoteProjectId : option string) : M value :=
  children <-
    array_mapM v (fun childEntry index =>
                    mapDataEntry_rec childEntry (path ++ [Index index])%list
                                     remoteProjectLocale remoteProjectId) ;;
  ret (VArr children).

(** One card of an [FS_CATALOG] entry. *)
Definition mapCard (path : NestedPath)
  (remoteProjectLocale remoteProjectId : option string)
  (card : value) (index : nat) : M value :=
  template <- getM card "template" ;;
  fsType <- getM template "fsType" ;;
  if JS.is_str fsType "SectionTemplate" || JS.is_str fsType "LinkTemplate" then
    name <- getM template "name" ;;
    displayName <- getM template "displayName" ;;
    mapSection
      (VObj (JS.assign_all (JS.own_fields card)
               [("fsType", VStr "Section"); ("name", name);
                ("displayName", displayName)]))
      (path ++ [Index index])%list remoteProjectLocale remoteProjectId
  else if JS.is_str fsType "PageTemplate" then
    id <- getM card "identifier" ;;
    previewId <- buildPreviewId id remoteProjectLocale ;;
    uid <- getM template "uid" ;;
    formData <- getM card "formData" ;;
    data <- mapDataEntries formData (path ++ [Index index; Key "data"])%list
                           remoteProjectLocale remoteProjectId ;;
    ret (JS.object [("id", id); ("previewId", previewId); ("template", uid);
                    ("data", data)])
  else ret card.

(** [mapDataEntry]. *)
Definition mapDataEntry_body : DataEntryMapper :=
  fun entry path remoteProjectLocale remoteProjectId =>
    custom <- ask_customMapper entry path ;;
    match custom with
    | Some result => ret result
    | None =>
        fsType <- getM entry "fsType" ;;
        match Kind.of_fsType fsType with
        | Kind.CMS_INPUT_COMBOBOX =>
            v <- getM entry "value" ;;
            option_of v
        | Kind.CMS_INPUT_DOM | Kind.CMS_INPUT_DOMTABLE =>
            v <- getM entry "value" ;;
            richTextElements <-
              (if JS.truthy v then lift (xml_parse ext v) else ret []) ;;
            mapped <- mapLinks_rec richTextElements path
                                   remoteProjectLocale remoteProjectId ;;
            ret (VArr mapped)
        | Kind.CMS_INPUT_NUMBER | Kind.CMS_INPUT_TEXT | Kind.CMS_INPUT_TEXTAREA =>
            getM entry "value"
        | Kind.CMS_INPUT_RADIOBUTTON =>
            v <- getM entry "value" ;;
            if JS.truthy v then
              key <- getM v "identifier" ;;
              label <- getM v "label" ;;
              ret (JS.object ([("type", VStr "Option"); ("key", key);
                               ("value", label)] ++ JS.own_fields v))
            else ret VNull
        | Kind.CMS_INPUT_DATE =>
            v <- getM entry "value" ;;
            if JS.truthy v then ret (parseISO ext v) else ret VNull
        | Kind.CMS_INPUT_LINK =>
            v <- getM entry "value" ;;
            if JS.truthy v then
              template <- getM v "template" ;;
              uid <- getM template "uid" ;;
              formData <- getM v "formData" ;;
              data <- mapDataEntries formData (path ++ [Key "data"])%list
                                     remoteProjectLocale remoteProjectId ;;
              metaFormData <- getM v "metaFormData" ;;
              meta <- mapDataEntries metaFormData (path ++ [Key "meta"])%list
                                     remoteProjectLocale remoteProjectId ;;
              ret (JS.object [("type", VStr "Link"); ("template", uid);
                              ("data", data); ("meta", meta)])
            else ret VNull
        | Kind.CMS_INPUT_LIST | Kind.CMS_INPUT_CHECKBOX =>
            v <- getM entry "value" ;;
            if negb (JS.truthy v) then ret (VArr [])
            else mapChildren v path remoteProjectLocale remoteProjectId
        | Kind.CMS_INPUT_IMAGEMAP =>
            v <- getM entry "value" ;;
            if negb (JS.truthy entry) || negb (JS.truthy v) then ret VNull
            else mapImageMap entry path remoteProjectLocale remoteProjectId
        | Kind.FS_DATASET =>
            v <- getM entry "value" ;;
            if negb (JS.truthy v) then ret VNull
            else
              match v with
              | VArr _ => mapChildren v path remoteProjectLocale remoteProjectId
              | _ =>
                  vType <- getM v "fsType" ;;
                  if JS.is_str vType "DatasetReference" then
                    target <- getM v "target" ;;
                    identifier <- getM target "identifier" ;;
                    registerReferencedItem_dyn identifier path remoteProjectId None
                  else ret VNull
              end
        | Kind.CMS_INPUT_TOGGLE =>
            v <- getM entry "value" ;;
            ret (JS.or v (VBool false))
        | Kind.FS_CATALOG =>
            v <- getM entry "value" ;;
            cards <- array_mapM (JS.or v (VArr []))
                       (mapCard path remoteProjectLocale remoteProjectId) ;;
            ret (VArr cards)
        | Kind.FS_REFERENCE =>
            v <- getM entry "value" ;;
            if negb (JS.truthy v) then ret VNull
            else
              vType <- getM v "fsType" ;;
              if JS.is_str vType "Media" then
                identifier <- getM v "identifier" ;;
                remoteProject <- getM v "remoteProject" ;;
                rp <- lift (remoteProject_arg remoteProject remoteProjectId) ;;
                registerReferencedItem_dyn identifier path rp None
              else if JS.is_str vType "PageRef" || JS.is_str vType "GCAPage" then
                identifier <- getM v "identifier" ;;
                remoteProject <- getM v "remoteProject" ;;
                let reference :=
                  [("type", VStr "Reference"); ("referenceId", identifier);
                   ("referenceRemoteProject",
                    JS.or remoteProject (JS.of_opt remoteProjectId));
                   ("referenceType", vType)] in
                if JS.has_key v "section" then
                  section <- getM v "section" ;;
                  ret (JS.object (reference ++ [("section", section)]))
                else ret (JS.object reference)
              else ret entry
        | Kind.FS_INDEX =>
            dapType <- getM entry "dapType" ;;
            if JS.is_str dapType "DatasetDataAccessPlugin" then
              v <- getM entry "value" ;;
              records <-
                array_mapM v
                  (fun record index =>
                     let identifier :=
                       JS.get_opt (JS.get_opt (JS.get_opt record "value") "target")
                                  "identifier" in
                     if negb (JS.truthy identifier) then ret VNull
                     else registerReferencedItem_dyn identifier
                            (path ++ [Index index])%list remoteProjectId None) ;;
              ret (VArr (JS.filter_Boolean records))
            else ret entry
        | Kind.Option =>
            key <- getM entry "identifier" ;;
            label <- getM entry "label" ;;
            ret (JS.object [("type", VStr "Option"); ("key", key); ("value", label)])
        | Kind.CMS_INPUT_PERMISSION =>
            name <- getM entry "name" ;;
            v <- getM entry "value" ;;
            activities <-
              array_mapM v
                (fun activity (_ : nat) =>
                   allowedGroups <- getM activity "allowed" ;;
                   allowed <- array_mapM allowedGroups
                                (fun group (_ : nat) => _mapPermissionGroup group) ;;
                   forbiddenGroups <- getM activity "forbidden" ;;
                   forbidden <- array_mapM forbiddenGroups
                                  (fun group (_ : nat) => _mapPermissionGroup group) ;;
                   ret (JS.object [("allowed", VArr allowed);
                                   ("forbidden", VArr forbidden)])) ;;
            ret (JS.object [("type", VStr "Permission"); ("fsType", fsType);
                            ("name", name); ("value", VArr activities)])
        | Kind.Default => ret entry
        end
    end.

End Mapping.

(** [mapDataEntry] and [mapLinksInRichTextElements] call each other, also
    on the trees the XML parser returns; [fuel] bounds the nesting of these
    calls. *)
Fixpoint mapper_knot (ext : Externals) (fuel : nat)
  : DataEntryMapper * RichTextMapper :=
  match fuel with
  | O => (fun _ _ _ _ => lift OutOfFuel, fun _ _ _ _ => lift OutOfFuel)
  | S n =>
      let rec := mapper_knot ext n in
      (mapDataEntry_body ext (fst rec) (snd rec),
       mapLinksInRichTextElements_body (fst rec) (snd rec))
  end.

Definition mapDataEntry (ext : Externals) (fuel : nat) : DataEntryMapper :=
  fst (mapper_knot ext fuel).

Definition mapLinksInRichTextElements (ext : Externals) (fuel : nat)
  : RichTextMapper :=
  snd (mapper_knot ext fuel).

(** lodash [chunk(array, size)]: [ceil(length / size)] slices of [size]
    elements, the last one holding the remainder; no slice for a size below
    one. *)
Definition chunk {A : Type} (array : list A) (size : nat) : list (list A) :=
  if (size =? 0)%nat then []
  else map (fun i => firstn size (skipn (i * size) array))
           (seq 0 ((length array + size - 1) / size)).

(** Modelled from the spec: [MappingUtils.findResolvedReferencesByIds] is not
    among the sources.  The response assembler "looks up, by original-item
    id, the final cached version of every top-level item", and a cache
    lookup yields "entity | absent": an id without an entry contributes no
    item. *)
Definition findResolvedReferencesByIds (ids : list (option string))
  (cache : ResolvedReferencesInfo) : list value :=
  flat_map (fun id =>
              match id with
              | Some k => match JS.lookup k cache with Some v => [v] | None => [] end
              | None => []
              end) ids.

(** An async call seen from its caller: the call runs up to its first
    [await] and leaves the rest as a pending computation.  An error thrown
    before the first [await] rejects the promise; it is not thrown at the
    caller. *)
Definition async {A : Type} (c : M (M A)) : M (M A) :=
  fun m =>
    match c m with
    | (Throws e, m') => (Returns (throw e), m')
    | other => other
    end.

(** [await Promise.all(pending)]. *)
Fixpoint await_all {A : Type} (pending : list (M A)) : M (list A) :=
  match pending with
  | [] => ret []
  | p :: rest =>
      x <- p ;;
      xs <- await_all rest ;;
      ret (x :: xs)
  end.

Section Items.

Variable ext : Externals.
Variable fuel : nat.

(** [this.api.fetchByFilter(params, this)], from the first [await] of
    [fetchByFilter] on. *)
Variable api_fetchByFilter : FetchByFilterParams -> M FetchResponse.

Local Abbreviation mapEntries := (mapDataEntries (mapDataEntry ext fuel)).

(** [addToResolvedReferences]. *)
Definition addToResolvedReferences (item : value) (remoteProjectId : option string)
  : M unit :=
  let id := getItemId ext item remoteProjectId in
  match id with
  | Some k =>
      if JS.truthy_str k
      then modify (fun m => set_resolvedReferences
                              (JS.assign k item (resolvedReferences m)) m)
      else warn "No id for item" [item]
  | None => warn "No id for item" [item]
  end.

(** [mapContent2Section]. *)
Definition mapContent2Section (content2Section : value)
  (remoteProjectLocale : option string) : M value :=
  id <- getM content2Section "identifier" ;;
  previewId <- buildPreviewId id remoteProjectLocale ;;
  entityType <- getM content2Section "entityType" ;;
  filterParams <- getM content2Section "filterParams" ;;
  maxPageCount <- getM content2Section "maxPageCount" ;;
  ordering <- getM content2Section "ordering" ;;
  query <- getM content2Section "query" ;;
  recordCountPerPage <- getM content2Section "recordCountPerPage" ;;
  schema <- getM content2Section "schema" ;;
  template <- getM content2Section "template" ;;
  sectionType <- getM template "uid" ;;
  ret (JS.object
         [("id", id); ("previewId", previewId); ("type", VStr "Section");
          ("data", JS.object
                     [("entityType", entityType); ("filterParams", filterParams);
                      ("maxPageCount", maxPageCount); ("ordering", ordering);
                      ("query", query); ("recordCountPerPage", recordCountPerPage);
                      ("schema", schema)]);
          ("sectionType", sectionType); ("children", VArr [])]).

(** [mapBodyContent]. *)
Definition mapBodyContent (content : value) (path : NestedPath)
  (remoteProjectLocale remoteProjectId : option string) : M value :=
  fsType <- getM content "fsType" ;;
  if JS.is_str fsType "Content2Section" then
    mapContent2Section content remoteProjectLocale
  else if JS.is_str fsType "Section" || JS.is_str fsType "SectionReference"
          || JS.is_str fsType "GCASection" then
    mapSection (mapDataEntry ext fuel) content path
               remoteProjectLocale remoteProjectId
  else
    throw (Error (CaaSMapperErrors.UNKNOWN_BODY_CONTENT
                    ++ " fsType=[" ++ JS.toString (JS.get_opt content "fsType")
                    ++ "]")).

(** [mapPageBody]. *)
Definition mapPageBody (body : value) (path : NestedPath)
  (remoteProjectLocale remoteProjectId : option string) : M value :=
  name <- getM body "name" ;;
  id <- getM body "identifier" ;;
  previewId <- buildPreviewId id remoteProjectLocale ;;
  bodyChildren <- getM body "children" ;;
  children <-
    array_mapM bodyChildren
      (fun child index =>
         mapBodyContent child (path ++ [Key "children"; Index index])%list
                        remoteProjectLocale remoteProjectId) ;;
  ret (JS.object [("type", VStr "PageBody"); ("name", name);
                  ("previewId", previewId); ("children", VArr children)]).

Definition mapPageBodies (children : value) (path : NestedPath)
  (remoteProjectLocale remoteProjectId : option string) : M value :=
  bodies <-
    array_mapM children
      (fun child index =>
         mapPageBody child (path ++ [Key "children"; Index index])%list
                     remoteProjectLocale remoteProjectId) ;;
  ret (VArr bodies).

(** [mapPageRef]. *)
Definition mapPageRef (pageRef : value) (path : NestedPath)
  (remoteProjectLocale remoteProjectId : option string) : M value :=
  page <- getM pageRef "page" ;;
  id <- getM page "identifier" ;;
  refId <- getM pageRef "identifier" ;;
  previewId <- buildPreviewId refId remoteProjectLocale ;;
  name <- getM page "name" ;;
  template <- getM page "template" ;;
  layout <- getM template "uid" ;;
  pageChildren <- getM page "children" ;;
  children <- mapPageBodies pageChildren path remoteProjectLocale remoteProjectId ;;
  formData <- getM page "formData" ;;
  data <- mapEntries formData (path ++ [Key "data"])%list
                     remoteProjectLocale remoteProjectId ;;
  metaFormData <- getM page "metaFormData" ;;
  meta <- mapEntries metaFormData (path ++ [Key "meta"])%list
                     remoteProjectLocale remoteProjectId ;;
  refMeta <- getM pageRef "metaFormData" ;;
  metaPageRef <-
    (if JS.truthy refMeta then
       mapped <- mapEntries refMeta (path ++ [Key "metaPageRef"])%list
                            remoteProjectLocale remoteProjectId ;;
       ret [("metaPageRef", mapped)]
     else ret []) ;;
  ret (JS.object
         ([("type", VStr "Page"); ("id", id); ("refId", refId);
           ("previewId", previewId); ("name", name); ("layout", layout);
           ("children", children); ("data", data); ("meta", meta)]
            ++ metaPageRef
            ++ [("remoteProjectId", JS.of_opt remoteProjectId)])).

(** [mapProjectProperties]. *)
Definition mapProjectProperties (properties : value) (path : NestedPath)
  (remoteProjectLocale remoteProjectId : option string) : M value :=
  formData <- getM properties "formData" ;;
  data <- mapEntries formData (path ++ [Key "data"])%list
                     remoteProjectLocale remoteProjectId ;;
  template <- getM properties "template" ;;
  layout <- getM template "uid" ;;
  metaFormData <- getM properties "metaFormData" ;;
  meta <- mapEntries metaFormData (path ++ [Key "meta"])%list
                     remoteProjectLocale remoteProjectId ;;
  name <- getM properties "name" ;;
  id <- getM properties "identifier" ;;
  previewId <- buildPreviewId id remoteProjectLocale ;;
  ret (JS.object
         [("type", VStr "ProjectProperties"); ("data", data); ("layout", layout);
          ("meta", meta); ("name", name); ("previewId", previewId); ("id", id);
          ("remoteProjectId", JS.of_opt remoteProjectId)]).

(** [mapGCAPage]. *)
Definition mapGCAPage (gcaPage : value) (path : NestedPath)
  (remoteProjectLocale remoteProjectId : option string) : M value :=
  id <- getM gcaPage "identifier" ;;
  previewId <- buildPreviewId id remoteProjectLocale ;;
  name <- getM gcaPage "name" ;;
  template <- getM gcaPage "template" ;;
  layout <- getM template "uid" ;;
  pageChildren <- getM gcaPage "children" ;;
  children <- mapPageBodies pageChildren path remoteProjectLocale remoteProjectId ;;
  formData <- getM gcaPage "formData" ;;
  data <- mapEntries formData (path ++ [Key "data"])%list
                     remoteProjectLocale remoteProjectId ;;
  metaFormData <- getM gcaPage "metaFormData" ;;
  meta <- mapEntries metaFormData (path ++ [Key "meta"])%list
                     remoteProjectLocale remoteProjectId ;;
  ret (JS.object
         [("type", VStr "GCAPage"); ("id", id); ("previewId", previewId);
          ("name", name); ("layout", layout); ("children", children);
          ("data", data); ("meta", meta);
          ("remoteProjectId", JS.of_opt remoteProjectId)]).

(** [mapDataset]. *)
Definition mapDataset (dataset : value) (path : NestedPath)
  (remoteProjectLocale remoteProjectId : option string) : M value :=
  id <- getM dataset "identifier" ;;
  previewId <- buildPreviewId id remoteProjectLocale ;;
  schema <- getM dataset "schema" ;;
  entityType <- getM dataset "entityType" ;;
  formData <- getM dataset "formData" ;;
  data <- mapEntries formData (path ++ [Key "data"])%list
                     remoteProjectLocale remoteProjectId ;;
  route <- getM dataset "route" ;;
  routes <- getM dataset "routes" ;;
  template <- getM dataset "template" ;;
  datasetLocale <- getM dataset "locale" ;;
  language <- getM datasetLocale "language" ;;
  country <- getM datasetLocale "country" ;;
  ret (JS.object
         [("type", VStr "Dataset"); ("id", id); ("previewId", previewId);
          ("schema", schema); ("entityType", entityType); ("data", data);
          ("route", route); ("routes", routes);
          ("template", JS.get_opt template "uid"); ("children", VArr []);
          ("remoteProjectId", JS.of_opt remoteProjectId);
          ("locale", VStr (JS.toString language ++ "_" ++ JS.toString country))]).

(** The assignment [resolutions[resolution].url = ..] of
    [mapMediaPictureResolutionUrls]. *)
Definition mapResolutionUrl (rev : value) (entry : value) (_ : nat) : M value :=
  url <- getM entry "url" ;;
  built <- buildMediaUrl url rev ;;
  match entry with
  | VObj _ => ret (set_field entry "url" built)
  | VArr _ => lift Unmodelled
  | _ => throw (TypeError "Cannot create property 'url'")
  end.

(** [mapMediaPictureResolutionUrls]: [for..in] over the resolutions. *)
Definition mapMediaPictureResolutionUrls (resolutions rev : value) : M value :=
  match resolutions with
  | VObj fs =>
      urls <- mapM (mapResolutionUrl rev) (JS.values fs) ;;
      ret (VObj (combine (JS.keys fs) urls))
  | VArr l =>
      urls <- mapM (mapResolutionUrl rev) l ;;
      ret (VArr urls)
  | VStr s =>
      mapM (mapResolutionUrl rev) (JS.chars s) ;;;
      ret resolutions
  | _ => ret resolutions
  end.

(** [mapMediaPicture]. *)
Definition mapMediaPicture (item : value) (path : NestedPath)
  (remoteProjectLocale remoteProjectId : option string) : M value :=
  id <- getM item "identifier" ;;
  previewId <- buildPreviewId id remoteProjectLocale ;;
  metaFormData <- getM item "metaFormData" ;;
  meta <- mapEntries metaFormData (path ++ [Key "meta"])%list
                     remoteProjectLocale remoteProjectId ;;
  description <- getM item "description" ;;
  resolutionsMetaData <- getM item "resolutionsMetaData" ;;
  changeInfo <- getM item "changeInfo" ;;
  resolutions <- mapMediaPictureResolutionUrls resolutionsMetaData
                   (JS.get_opt changeInfo "revision") ;;
  ret (JS.object
         [("type", VStr "Image"); ("id", id); ("previewId", previewId);
          ("meta", meta); ("description", description);
          ("resolutions", resolutions);
          ("remoteProjectId", JS.of_opt remoteProjectId)]).

(** [mapMediaFile]. *)
Definition mapMediaFile (item : value) (path : NestedPath)
  (remoteProjectLocale remoteProjectId : option string) : M value :=
  id <- getM item "identifier" ;;
  previewId <- buildPreviewId id remoteProjectLocale ;;
  metaFormData <- getM item "metaFormData" ;;
  meta <- mapEntries metaFormData (path ++ [Key "meta"])%list
                     remoteProjectLocale remoteProjectId ;;
  fileName <- getM item "fileName" ;;
  fileMetaData <- getM item "fileMetaData" ;;
  url <- getM item "url" ;;
  ret (JS.object
         [("type", VStr "File"); ("id", id); ("previewId", previewId);
          ("meta", meta); ("fileName", fileName); ("fileMetaData", fileMetaData);
          ("url", url); ("remoteProjectId", JS.of_opt remoteProjectId)]).

(** [mapMedia]. *)
Definition mapMedia (item : value) (path : NestedPath)
  (remoteProjectLocale remoteProjectId : option string) : M value :=
  match item with
  | VNull => ret VNull
  | _ =>
      mediaType <- getM item "mediaType" ;;
      if JS.is_str mediaType "PICTURE" then
        mapMediaPicture item path remoteProjectLocale remoteProjectId
      else if JS.is_str mediaType "FILE" then
        mapMediaFile item path remoteProjectLocale remoteProjectId
      else ret item
  end.

(** ** The resolution scheduler *)

(** [id.substring(id.indexOf('#') + 1, id.indexOf('.'))]: the id the
    content store knows. *)
Definition store_id (id : string) : string :=
  JS.substring id (JS.indexOf "#" id + 1) (JS.indexOf "." id).

Definition idsToFetchFromCaaS (referencedItems : ReferencedItemsInfo)
  (resolved : ResolvedReferencesInfo) : list string :=
  let referencedIds := JS.keys referencedItems in
  let resolvedIds := JS.keys resolved in
  map store_id
      (filter (fun id => negb (existsb (String.eqb id) resolvedIds)) referencedIds).

(** The argument of one [fetchByFilter] call of a round. *)
Definition chunk_request (ids : list string) (requestLocale : option string)
  (remoteProjectId : option string) (filterContext : value)
  : FetchByFilterParams :=
  {| fp_filters := [ {| q_operator := IN;
                        q_value := VArr (map VStr ids);
                        q_field := "identifier" |} ];
     fp_locale := requestLocale;
     fp_page := None;
     fp_pagesize := Some (JS.Int REFERENCED_ITEMS_CHUNK_SIZE);
     fp_additionalParams := None;
     fp_remoteProject := remoteProjectId;
     fp_fetchOptions := VUndefined;
     fp_filterContext := filterContext;
     fp_sort := [];
     fp_normalized := Some true |}.

(** [remoteProjectId ? this._remoteReferences[remoteProjectId]
    : this._referencedItems]; [Object.keys] of a registry that does not exist
    throws. *)
Definition referencedItems_of (remoteProjectId : option string)
  : M ReferencedItemsInfo :=
  this <- gets (fun m => m) ;;
  if JS.truthy_opt remoteProjectId then
    match JS.lookup (match remoteProjectId with Some p => p | None => "" end)
                    (_remoteReferences this) with
    | Some bucket => ret bucket
    | None => throw (TypeError "Cannot convert undefined or null to object")
    end
  else ret (_referencedItems this).

(** [resolveReferencesPerProject]: up to the [await], the ids are computed
    and every batch is handed to [fetchByFilter]; the pending rest awaits
    the batches. *)
Definition resolveReferencesPerProject (remoteProjectId : option string)
  (filterContext : value) : M (M unit) :=
  referencedItems <- referencedItems_of remoteProjectId ;;
  this <- gets (fun m => m) ;;
  let remoteProjectData := getRemoteConfigForProject this remoteProjectId in
  let remoteProjectLocale :=
    match remoteProjectData with Some cfg => rp_locale cfg | None => None end in
  let requestLocale := JS.or_opt remoteProjectLocale (Some (locale this)) in
  let ids := idsToFetchFromCaaS referencedItems (resolvedReferences this) in
  let idChunks := chunk ids (Z.to_nat REFERENCED_ITEMS_CHUNK_SIZE) in
  if (0 <? length ids)%nat then
    let requests :=
      map (fun batch =>
             chunk_request batch (JS.or_opt remoteProjectLocale requestLocale)
                           remoteProjectId filterContext)
          idChunks in
    mapM (fun request (_ : nat) => modify (add_issued request)) requests ;;;
    ret (await_all (map api_fetchByFilter requests) ;;; ret tt)
  else ret (ret tt).

(** [resolveAllReferences]. *)
Definition resolveAllReferences (filterContext : value) : M unit :=
  this <- gets (fun m => m) ;;
  if maxReferenceDepth this <=? referenceDepth this then
    warn ("Maximum reference depth of " ++ JS.string_of_Z (maxReferenceDepth this)
          ++ " has been exceeded.") []
  else
    modify (set_referenceDepth (referenceDepth this + 1)) ;;;
    remoteIds <- gets (fun m => JS.keys (_remoteReferences m)) ;;
    pending <-
      mapM (fun project (_ : nat) =>
              async (resolveReferencesPerProject project filterContext))
           (None :: map Some remoteIds) ;;
    await_all pending ;;;
    ret tt.

(** ** The response assembler *)

(** The dispatch on the kind of a top-level item. *)
Definition mapItem (remoteProjectLocale remoteProjectId : option string)
  (unmappedItem : value) (index : nat) : M value :=
  fsType <- getM unmappedItem "fsType" ;;
  let path :=
    [match getItemId ext unmappedItem remoteProjectId with
     | Some id => Key id
     | None => NoKey
     end] in
  if JS.is_str fsType "Dataset" then
    mapDataset unmappedItem path remoteProjectLocale remoteProjectId
  else if JS.is_str fsType "PageRef" then
    mapPageRef unmappedItem path remoteProjectLocale remoteProjectId
  else if JS.is_str fsType "Media" then
    mapMedia unmappedItem path remoteProjectLocale remoteProjectId
  else if JS.is_str fsType "GCAPage" then
    mapGCAPage unmappedItem path remoteProjectLocale remoteProjectId
  else if JS.is_str fsType "ProjectProperties" then
    mapProjectProperties unmappedItem path remoteProjectLocale remoteProjectId
  else
    warn ("Item at index [" ++ JS.string_of_nat index ++ "] with type ["
          ++ JS.toString fsType ++ "] could not be mapped!") [] ;;;
    ret unmappedItem.

(** [remoteReferencesValues.reduce((result, current) =>
    Object.assign(result, current))]: without an initial value the first
    registry is the accumulator and receives the entries of the others. *)
Definition merge_remoteReferences (buckets : list (string * ReferencedItemsInfo))
  : ReferencedItemsInfo * list (string * ReferencedItemsInfo) :=
  match buckets with
  | [] => ([], [])
  | (key, first) :: rest =>
      let merged := fold_left (fun result current => JS.assign_all result current)
                              (JS.values rest) first in
      (merged, (key, merged) :: rest)
  end.

(** [mapFilterResponse]. *)
Definition mapFilterResponse (unmappedItems : list value)
  (additionalParams : option (list (string * value))) (filterContext : value)
  (remoteProjectLocale remoteProjectId : option string) : M MapResponse :=
  let keys :=
    match additionalParams with
    | Some params =>
        match JS.lookup "keys" params with Some k => k | None => VUndefined end
    | None => VUndefined
    end in
  items <-
    (if JS.truthy keys then ret unmappedItems
     else
       mapped <- mapM (mapItem remoteProjectLocale remoteProjectId) unmappedItems ;;
       ret (JS.filter_Boolean mapped)) ;;
  mapM (fun item (_ : nat) =>
          if JS.truthy item then addToResolvedReferences item remoteProjectId
          else ret tt)
       items ;;;
  (if (0 <? length items)%nat then resolveAllReferences filterContext else ret tt) ;;;
  cache <- gets resolvedReferences ;;
  let mapped :=
    findResolvedReferencesByIds (map (fun item => getItemId ext item None) items)
                                cache in
  buckets <- gets _remoteReferences ;;
  let (remoteReferencesMerged, aliased) := merge_remoteReferences buckets in
  modify (set_remoteReferences aliased) ;;;
  this <- gets (fun m => m) ;;
  ret {| mappedItems := mapped;
         referenceMap :=
           JS.assign_all (JS.assign_all [] (_referencedItems this))
                         remoteReferencesMerged;
         mr_resolvedReferences := resolvedReferences this |}.

End Items.

(** ** [FSXARemoteApi.fetchByFilter] *)

Definition ApiCall : Type :=
  FetchByFilterParams -> option CaaSMapper -> outcome FetchResponse * option CaaSMapper.

(** [getRemoteConfigById]. *)
Definition getRemoteConfigById (ext : Externals) (this : FSXARemoteApi)
  (remoteProjectId : string) : outcome RemoteProjectConfigurationEntry :=
  match find (fun config => (rp_id config =? remoteProjectId)%string)
             (JS.values (remotes this)) with
  | Some foundRemoteProject => Returns foundRemoteProject
  | None => Throws (Error (UNKNOWN_REMOTE ext))
  end.

(** The response of the early return. *)
Definition empty_response : FetchResponse :=
  {| fr_page := 1; fr_pagesize := 30; fr_size := VUndefined;
     fr_totalPages := VUndefined; fr_items := [];
     fr_referenceMap := None; fr_resolvedReferences := None |}.

(** A step of [fetchByFilter] that does not involve the mapper. *)
Definition api_step {A : Type} (o : outcome A) (mapper : option CaaSMapper)
  (k : A -> outcome FetchResponse * option CaaSMapper)
  : outcome FetchResponse * option CaaSMapper :=
  match o with
  | Returns a => k a
  | Throws e => (Throws e, mapper)
  | OutOfFuel => (OutOfFuel, mapper)
  | Unmodelled => (Unmodelled, mapper)
  end.

Definition and_then {A B : Type} (o : outcome A) (k : A -> outcome B) : outcome B :=
  match o with
  | Returns a => k a
  | Throws e => Throws e
  | OutOfFuel => OutOfFuel
  | Unmodelled => Unmodelled
  end.

(** [data._embedded['rh:doc']], or no documents when it is missing. *)
Definition documents_of (data : value) : outcome value :=
  and_then (JS.get data "_embedded") (fun embedded =>
  if negb (JS.truthy embedded) then Returns (VArr [])
  else and_then (JS.get embedded "rh:doc") (fun docs =>
       if negb (JS.truthy docs) then Returns (VArr []) else Returns docs)).

(** The argument of [buildCaaSUrl] in [fetchByFilter]. *)
Definition caas_request (params : FetchByFilterParams) (page pagesize : JS.number)
  : CaaSUrlParams :=
  {| u_filters := fp_filters params;
     u_additionalParams :=
       JS.assign_all
         (JS.assign_all [] (match fp_additionalParams params with
                            | Some a => a
                            | None => []
                            end))
         [("rep", VStr "hal")];
     u_remoteProject := fp_remoteProject params;
     u_locale := fp_locale params;
     u_page := page;
     u_pagesize := pagesize;
     u_sort := fp_sort params |}.

(** The page and page size of a request after the defaults and the
    fallbacks for values below one. *)
Definition effective_pagesize (params : FetchByFilterParams) : JS.number :=
  let pagesize :=
    match fp_pagesize params with Some n => n | None => JS.Int 30 end in
  if JS.lt pagesize 1 then JS.Int 30 else pagesize.

Definition effective_page (params : FetchByFilterParams) : JS.number :=
  let page := match fp_page params with Some n => n | None => JS.Int 1 end in
  if JS.lt page 1 then JS.Int 1 else page.

Section Api.

Variable ext : Externals.
Variable fuel : nat.

(** The calls of [fetchByFilter] made by the mapper during resolution. *)
Variable fetchByFilter_rec : FSXARemoteApi -> ApiCall.

Definition mapper_call (params : FetchByFilterParams) : M FetchResponse :=
  fun m =>
    match fetchByFilter_rec (api m) params (Some m) with
    | (result, Some m') => (result, m')
    | (result, None) => (result, m)
    end.

(** The locale of a mapper that is constructed when no locale was
    requested: that of the first document. *)
Definition locale_of_first (unmappedItems : list value) : outcome string :=
  and_then (JS.get (nth 0 unmappedItems VUndefined) "locale") (fun itemLocale =>
  and_then (JS.get itemLocale "language") (fun language =>
  and_then (JS.get itemLocale "country") (fun country =>
  Returns (JS.toString language ++ "_" ++ JS.toString country)))).

(** From the documents on: the mapper, the mapping and the response. *)
Definition fetchByFilter_map (this : FSXARemoteApi) (params : FetchByFilterParams)
  (page pagesize : JS.number) (data : value) (unmappedItems : list value)
  (mapper : option CaaSMapper) : outcome FetchResponse * option CaaSMapper :=
  let remoteProjectId := fp_remoteProject params in
  api_step
    (match remoteProjectId with
     | Some p =>
         if JS.truthy_str p
         then and_then (getRemoteConfigById ext this p)
                       (fun cfg => Returns (rp_locale cfg))
         else Returns None
     | None => Returns None
     end) mapper (fun remoteProjectLocale =>
  api_step
    (match fp_locale params with
     | Some l => if JS.truthy_str l then Returns l else locale_of_first unmappedItems
     | None => locale_of_first unmappedItems
     end) mapper (fun mapperLocale =>
  let theMapper :=
    match mapper with
    | Some m => m
    | None => new_CaaSMapper this mapperLocale (_customMapper this)
                             None (_maxReferenceDepth this)
    end in
  let (mapping, m') :=
    mapFilterResponse ext fuel mapper_call unmappedItems
      (Some (match fp_additionalParams params with Some a => a | None => [] end))
      (fp_filterContext params) remoteProjectLocale remoteProjectId theMapper in
  api_step mapping (Some m') (fun response =>
  api_step
    (match _caasItemFilter this with
     | Some caasItemFilter => caasItemFilter response (fp_filterContext params)
     | None => Returns response
     end) (Some m') (fun filtered =>
  let normalized := match fp_normalized params with Some b => b | None => false end in
  (Returns
     {| fr_page := page;
        fr_pagesize := pagesize;
        fr_totalPages := JS.get_opt data "_total_pages";
        fr_size := JS.get_opt data "_size";
        fr_items :=
          if normalized then mappedItems filtered
          else denormalizeResolvedReferences ext
                 (mappedItems filtered) (referenceMap filtered)
                 (mr_resolvedReferences filtered);
        fr_referenceMap :=
          if normalized then Some (referenceMap filtered) else None;
        fr_resolvedReferences :=
          if normalized then Some (mr_resolvedReferences filtered) else None |},
   Some m'))))).

(** [fetchByFilter].  The second component is the mapper in use when the
    call ends: the one passed in, the one constructed, or none. *)
Definition fetchByFilter_body (this : FSXARemoteApi) : ApiCall :=
  fun params mapper =>
    let pagesize := effective_pagesize params in
    let page := effective_page params in
    api_step (buildCaaSUrl ext this (caas_request params page pagesize))
             mapper (fun url =>
    let caasApiResponse := fetch ext url (fp_fetchOptions params) in
    if negb (ok caasApiResponse) then
      if status caasApiResponse =? 401
      then (Throws (Error (NOT_AUTHORIZED ext)), mapper)
      else (Throws (Error (UNKNOWN_ERROR ext)), mapper)
    else
      api_step (json caasApiResponse) mapper (fun data =>
      api_step (documents_of data) mapper (fun unmappedItems =>
      match unmappedItems with
      | VArr [] => (Returns empty_response, mapper)
      | VArr items =>
          fetchByFilter_map this params page pagesize data items mapper
      | _ => (Unmodelled, mapper)
      end))).

End Api.

(** A request resolves references in rounds, each of which calls
    [fetchByFilter] again; [rounds] bounds the nesting of these calls. *)
Fixpoint fetchByFilter (ext : Externals) (fuel rounds : nat) (this : FSXARemoteApi)
  : ApiCall :=
  match rounds with
  | O => fun _ mapper => (OutOfFuel, mapper)
  | S r => fetchByFilter_body ext fuel (fetchByFilter ext fuel r) this
  end.

(** ** Sample configuration and content *)

Module Sample.

Definition ext : Externals :=
  {| parseISO := fun v => VObj [("date", v)];
     xml_parse := fun _ => Returns [];
     getItemId := fun item _ =>
                    match JS.get_opt item "identifier" with
                    | VStr s => Some s
                    | _ => None
                    end;
     denormalizeResolvedReferences := fun items _ _ => items;
     RECT := "rect"; CIRCLE := "circle"; POLY := "poly";
     NOT_AUTHORIZED := "Your passed ApiKey has no access to the requested resource";
     UNKNOWN_ERROR := "An unknown error occured. Please check the logs for more information";
     UNKNOWN_REMOTE := "The specified remote project was not found in the configuration";
     buildCaaSUrl := fun _ _ => Returns "https://caas.test/tenant/project.preview.content";
     fetch := fun _ _ => {| ok := true; status := 200; json := Returns (VObj []) |} |}.

Definition media_project : RemoteProjectConfigurationEntry :=
  {| rp_id := "media"; rp_locale := Some "en_GB" |}.

Definition remoteApi : FSXARemoteApi :=
  {| remotes := [("media", media_project)];
     contentMode := PREVIEW;
     _maxReferenceDepth := None;
     _customMapper := None;
     _caasItemFilter := None |}.

Definition mapper : CaaSMapper := new_CaaSMapper remoteApi "en_GB" None None None.

(** A mapper that resolves nothing: [maxReferenceDepth = 0]. *)
Definition flat_mapper : CaaSMapper :=
  new_CaaSMapper remoteApi "en_GB" None None (Some 0).

(** A mapper in the middle of a request: two local references, one of them
    resolved already. *)
Definition round_mapper : CaaSMapper :=
  set_resolvedReferences [("m2.en_GB", VObj [("type", VStr "Image")])]
    (set_referencedItems
       [("m1.en_GB", [[Key "page1.en_GB"; Key "data"; Key "st_image"]]);
        ("m2.en_GB", [[Key "page1.en_GB"; Key "data"; Key "st_logo"]])]
       mapper).

(** A mapper that resolves nothing, with a reference waiting to be
    resolved. *)
Definition flat_pending : CaaSMapper :=
  set_referencedItems
    [("m1.en_GB", [[Key "page1.en_GB"; Key "data"; Key "st_image"]])] flat_mapper.

Definition intercepting : CustomMapper :=
  fun _ _ => {| cm_registrations := []; cm_result := Returns (VStr "intercepted") |}.

Definition hooked_mapper : CaaSMapper :=
  new_CaaSMapper remoteApi "en_GB" (Some intercepting) None None.

Definition unknown_entry : value :=
  VObj [("fsType", VStr "CMS_INPUT_FUTURE"); ("value", VNum 3)].

Definition imagemap_without_value : value :=
  VObj [("fsType", VStr "CMS_INPUT_IMAGEMAP"); ("name", VStr "st_map");
        ("value", VNull)].

Definition unknown_content : value :=
  VObj [("fsType", VStr "Teaser"); ("identifier", VStr "t1")].

Definition unknown_item : value :=
  VObj [("fsType", VStr "Fragment"); ("identifier", VStr "f1")].

Definition no_fetch : FetchByFilterParams -> M FetchResponse :=
  fun _ => throw (Error "offline").

Definition page_request : FetchByFilterParams :=
  {| fp_filters := []; fp_locale := Some "en_GB"; fp_page := Some (JS.Int 7);
     fp_pagesize := Some (JS.Int 5); fp_additionalParams := None;
     fp_remoteProject := None; fp_fetchOptions := VUndefined;
     fp_filterContext := VUndefined; fp_sort := []; fp_normalized := None |}.

End Sample.

(** ** Vocabulary of the statements *)

(** The locale a remote configuration brings of its own. *)
Definition own_locale (cfg : option RemoteProjectConfigurationEntry) : option string :=
  match cfg with
  | Some c =>
      match rp_locale c with
      | Some l => if (l =? "")%string then None else Some l
      | None => None
      end
  | None => None
  end.

Definition project_prefix (cfg : option RemoteProjectConfigurationEntry) : string :=
  match cfg with
  | Some c => rp_id c ++ "#"
  | None => ""
  end.

(** Every configured remote project has its registry: the constructor
    creates them and no method removes one. *)
Definition registries_ready (m : CaaSMapper) : Prop :=
  forall entry,
    In entry (JS.values (remotes (api m))) ->
    JS.lookup (rp_id entry) (_remoteReferences m) <> None.

(** The paths registered for an id in the registry of a project: the local
    one for [None], that of a remote project for its key. *)
Definition registered (m : CaaSMapper) (project : option string) (id : string)
  : option (list NestedPath) :=
  match project with
  | None => JS.lookup id (_referencedItems m)
  | Some key =>
      match JS.lookup key (_remoteReferences m) with
      | Some bucket => JS.lookup id bucket
      | None => None
      end
  end.

Definition paths_of (o : option (list NestedPath)) : list NestedPath :=
  match o with Some paths => paths | None => [] end.

(** An image-map resolution that is supplied: present and not empty. *)
Definition supplied (o : option string) : option string :=
  match o with
  | Some r => if (r =? "")%string then None else Some r
  | None => None
  end.

Definition unknown_remote_warning (identifier p : string) : LogEntry :=
  {| log_message := "Item with identifier '" ++ identifier
                    ++ "' was tried to register from remoteProject '" ++ p
                    ++ "' but no remote key was found in the config.";
     log_args := [] |}.

(** The labels of the [switch] in [mapDataEntry]. *)
Definition recognized_fsTypes : list string :=
  [ "CMS_INPUT_COMBOBOX"; "CMS_INPUT_DOM"; "CMS_INPUT_DOMTABLE"; "CMS_INPUT_NUMBER";
    "CMS_INPUT_TEXT"; "CMS_INPUT_TEXTAREA"; "CMS_INPUT_RADIOBUTTON"; "CMS_INPUT_DATE";
    "CMS_INPUT_LINK"; "CMS_INPUT_LIST"; "CMS_INPUT_CHECKBOX"; "CMS_INPUT_IMAGEMAP";
    "FS_DATASET"; "CMS_INPUT_TOGGLE"; "FS_CATALOG"; "FS_REFERENCE"; "FS_INDEX";
    "Option"; "CMS_INPUT_PERMISSION" ].

(** [data._embedded] or [data._embedded['rh:doc']] is missing or empty. *)
Definition without_documents (data : value) : Prop :=
  exists embedded,
    JS.get data "_embedded" = Returns embedded
    /\ (JS.truthy embedded = false
        \/ exists docs,
             JS.get embedded "rh:doc" = Returns docs
             /\ (JS.truthy docs = false \/ docs = VArr [])).

(** Every batch but the last is full, and the last one is not empty. *)
Fixpoint full_but_last {A : Type} (size : nat) (batches : list (list A)) : Prop :=
  match batches with
  | [] => True
  | [batch] => (1 <= length batch <= size)%nat
  | batch :: rest => length batch = size /\ full_but_last size rest
  end.

Definition issue_all (requests : list FetchByFilterParams) (m : CaaSMapper)
  : CaaSMapper :=
  fold_left (fun acc request => add_issued request acc) requests m.

(** The registry a round of [remoteProjectId] reads. *)
Definition registry_for (m : CaaSMapper) (remoteProjectId : option string)
  : option ReferencedItemsInfo :=
  match remoteProjectId with
  | Some p =>
      if JS.truthy_str p then JS.lookup p (_remoteReferences m)
      else Some (_referencedItems m)
  | None => Some (_referencedItems m)
  end.

(** The locale of the requests of a round. *)
Definition round_locale (m : CaaSMapper) (remoteProjectId : option string)
  : option string :=
  let remoteProjectLocale :=
    match getRemoteConfigForProject m remoteProjectId with
    | Some cfg => rp_locale cfg
    | None => None
    end in
  JS.or_opt remoteProjectLocale (JS.or_opt remoteProjectLocale (Some (locale m))).

Definition round_requests (m : CaaSMapper) (remoteProjectId : option string)
  (filterContext : value) (registry : ReferencedItemsInfo)
  : list FetchByFilterParams :=
  map (fun batch =>
         chunk_request batch (round_locale m remoteProjectId)
                       remoteProjectId filterContext)
      (chunk (idsToFetchFromCaaS registry (resolvedReferences m)) 30).

(** A call is within a relation [R] between the mapper before and after
    it. *)
Definition keeps (R : CaaSMapper -> CaaSMapper -> Prop) {A : Type} (c : M A) : Prop :=
  forall m, R m (snd (c m)).

(** [c2] does what [c1] does, wherever [c1] has enough fuel. *)
Definition refines {A : Type} (c1 c2 : M A) : Prop :=
  forall m, fst (c1 m) <> OutOfFuel -> c1 m = c2 m.

(** What a call returns satisfies [P]. *)
Definition yields {A : Type} (P : A -> Prop) (c : M A) : Prop :=
  forall m a, fst (c m) = Returns a -> P a.

(** The mapper a call of [fetchByFilter] leaves behind, for a call that was
    given the mapper [m]. *)
Definition after (r : outcome FetchResponse * option CaaSMapper) (m : CaaSMapper)
  : CaaSMapper :=
  match snd r with
  | Some m' => m'
  | None => m
  end.

(** Once the depth counter has reached the maximum, a call leaves the
    counter, the maximum and the issued requests as they are. *)
Definition stays_exhausted (m m' : CaaSMapper) : Prop :=
  maxReferenceDepth m <= referenceDepth m ->
  referenceDepth m' = referenceDepth m
  /\ maxReferenceDepth m' = maxReferenceDepth m
  /\ issued m' = issued m.

Definition depth_warning (m : CaaSMapper) : LogEntry :=
  {| log_message := "Maximum reference depth of "
                    ++ JS.string_of_Z (maxReferenceDepth m)
                    ++ " has been exceeded.";
     log_args := [] |}.

(** The log only grows. *)
Definition log_extends (m m' : CaaSMapper) : Prop :=
  exists more, logged m' = (logged m ++ more)%list.

Definition unmapped_warning (index : nat) (fsType : value) : LogEntry :=
  {| log_message := "Item at index [" ++ JS.string_of_nat index ++ "] with type ["
                    ++ JS.toString fsType ++ "] could not be mapped!";
     log_args := [] |}.

(** [additionalParams?.keys] is set. *)
Definition keys_requested (additionalParams : option (list (string * value))) : bool :=
  JS.truthy match additionalParams with
            | Some params => JS.get_opt (VObj params) "keys"
            | None => VUndefined
            end.

(** The cache after the items of a batch have been stored in it, one after
    the other, each under its own id; an item without an id is not
    stored. *)
Definition cache_batch (ext : Externals) (remoteProjectId : option string)
  (items : list value) (cache : ResolvedReferencesInfo) : ResolvedReferencesInfo :=
  fold_left (fun acc item =>
               if JS.truthy item then
                 match supplied (getItemId ext item remoteProjectId) with
                 | Some id => JS.assign id item acc
                 | None => acc
                 end
               else acc)
            items cache.

(** A call that leaves the cache, the depth counter, the maximum depth and
    the issued requests as they are. *)
Definition unresolving (m m' : CaaSMapper) : Prop :=
  resolvedReferences m' = resolvedReferences m
  /\ referenceDepth m' = referenceDepth m
  /\ maxReferenceDepth m' = maxReferenceDepth m
  /\ issued m' = issued m.

(** The entry of the cache under [id] is still [item]. *)
Definition holds_entry (id : string) (item : value) (m m' : CaaSMapper) : Prop :=
  JS.lookup id (resolvedReferences m) = Some item ->
  JS.lookup id (resolvedReferences m') = Some item.

(** ** The API object: configuration, URLs and the other requests *)

(** The constructor and the setters, the URL builders, [fetchNavigation],
    [fetchSecureToken] and [fetchElement].  The logger of the API object is
    left out, as it has no effect on what the methods return or throw;
    [fetchProjectProperties] and [fetchProjectPropertiesNormalized] are not
    part of the embedding. *)

(** A navigation item filter: the routes and the filter context go in, the
    routes that stay come out. *)
Definition NavigationItemFilter : Type := list value -> value -> outcome (list value).

(** What [FSXARemoteApi.ts] imports besides what the mapper needs: the other
    messages of [FSXAApiErrors], the URL encoders of the runtime, the query
    builder with [JSON.stringify], [qs.stringify] with the options of
    [buildStringifiedQueryParams], and the navigation helpers of
    ['../utils']. *)
Record ApiExternals : Type := {
  MISSING_API_KEY : string;
  MISSING_CAAS_URL : string;
  MISSING_NAVIGATION_SERVICE_URL : string;
  MISSING_TENANT_ID : string;
  MISSING_PROJECT_ID : string;
  MISSING_REMOTE_ID : string;
  MISSING_REMOTE_LOCALE : string;
  UNKNOWN_CONTENT_MODE : string;
  NOT_FOUND : string;
  encodeURI : string -> string;
  encodeURIComponent : string -> string;
  JSON_stringify : value -> value;
  buildAll : list QueryBuilderQuery -> list value;
  qs_stringify : list (string * value) -> string;
  removeFromSeoRouteMap : value -> list value -> outcome value;
  removeFromStructure : value -> list value -> outcome value;
  removeFromIdMap : value -> list value -> outcome value
}.

(** The configuration object handed to the constructor.  A setting that is
    left out is [None]. *)
Record FSXARemoteApiConfig : Type := {
  cfg_apikey : option string;
  cfg_caasURL : option string;
  cfg_navigationServiceURL : option string;
  cfg_tenantID : option string;
  cfg_projectID : option string;
  cfg_remotes : option RemoteProjectConfiguration;
  cfg_contentMode : option string;
  cfg_maxReferenceDepth : option Z;
  cfg_customMapper : option CustomMapper;
  cfg_navigationItemFilter : option NavigationItemFilter;
  cfg_caasItemFilter : option (MapResponse -> value -> outcome MapResponse)
}.

(** The whole API object: the connection settings, and in [mapping] the
    settings the mapper and [fetchByFilter] read. *)
Record ApiObject : Type := {
  _apikey : string;
  _caasURL : string;
  _navigationServiceURL : string;
  _tenantID : string;
  _projectID : string;
  mapping : FSXARemoteApi;
  _navigationItemFilter : option NavigationItemFilter;
  _enableEventStream : bool
}.

(** The check of the setters of the five connection settings: [!value]. *)
Definition required (message : string) (value : option string) : outcome string :=
  match value with
  | Some s => if JS.truthy_str s then Returns s else Throws (Error message)
  | None => Throws (Error message)
  end.

(** The check of the setter of [remotes]: every entry needs an id and a
    locale; the first entry that lacks one decides the error. *)
Fixpoint check_remotes (x : ApiExternals) (entries : list RemoteProjectConfigurationEntry)
  : outcome unit :=
  match entries with
  | [] => Returns tt
  | entry :: rest =>
      if negb (JS.truthy_str (rp_id entry))
      then Throws (Error (MISSING_REMOTE_ID x))
      else if negb (JS.truthy_opt (rp_locale entry))
           then Throws (Error (MISSING_REMOTE_LOCALE x))
           else check_remotes x rest
  end.

(** The check of the setter of [contentMode]; [FSXAContentMode] has the
    values ['preview'] and ['release']. *)
Definition check_contentMode (x : ApiExternals) (value : option string)
  : outcome FSXAContentMode :=
  match value with
  | Some s =>
      if (s =? "preview")%string then Returns PREVIEW
      else if (s =? "release")%string then Returns RELEASE
           else Throws (Error (UNKNOWN_CONTENT_MODE x))
  | None => Throws (Error (UNKNOWN_CONTENT_MODE x))
  end.

Definition contentMode_string (mode : FSXAContentMode) : string :=
  match mode with PREVIEW => "preview" | RELEASE => "release" end.

(** The setters.  A setter that throws leaves the object as it is. *)
Inductive Setting : Type :=
| Set_apikey (value : option string)
| Set_caasURL (value : option string)
| Set_navigationServiceURL (value : option string)
| Set_tenantID (value : option string)
| Set_projectID (value : option string)
| Set_remotes (value : RemoteProjectConfiguration)
| Set_contentMode (value : option string).

Definition with_mapping (f : FSXARemoteApi -> FSXARemoteApi) (this : ApiObject)
  : ApiObject :=
  {| _apikey := _apikey this; _caasURL := _caasURL this;
     _navigationServiceURL := _navigationServiceURL this;
     _tenantID := _tenantID this; _projectID := _projectID this;
     mapping := f (mapping this);
     _navigationItemFilter := _navigationItemFilter this;
     _enableEventStream := _enableEventStream this |}.

Definition assign_setting (x : ApiExternals) (s : Setting) (this : ApiObject)
  : outcome ApiObject :=
  match s with
  | Set_apikey value =>
      and_then (required (MISSING_API_KEY x) value) (fun v =>
      Returns {| _apikey := v; _caasURL := _caasURL this;
                 _navigationServiceURL := _navigationServiceURL this;
                 _tenantID := _tenantID this; _projectID := _projectID this;
                 mapping := mapping this;
                 _navigationItemFilter := _navigationItemFilter this;
                 _enableEventStream := _enableEventStream this |})
  | Set_caasURL value =>
      and_then (required (MISSING_CAAS_URL x) value) (fun v =>
      Returns {| _apikey := _apikey this; _caasURL := v;
                 _navigationServiceURL := _navigationServiceURL this;
                 _tenantID := _tenantID this; _projectID := _projectID this;
                 mapping := mapping this;
                 _navigationItemFilter := _navigationItemFilter this;
                 _enableEventStream := _enableEventStream this |})
  | Set_navigationServiceURL value =>
      and_then (required (MISSING_NAVIGATION_SERVICE_URL x) value) (fun v =>
      Returns {| _apikey := _apikey this; _caasURL := _caasURL this;
                 _navigationServiceURL := v;
                 _tenantID := _tenantID this; _projectID := _projectID this;
                 mapping := mapping this;
                 _navigationItemFilter := _navigationItemFilter this;
                 _enableEventStream := _enableEventStream this |})
  | Set_tenantID value =>
      and_then (required (MISSING_TENANT_ID x) value) (fun v =>
      Returns {| _apikey := _apikey this; _caasURL := _caasURL this;
                 _navigationServiceURL := _navigationServiceURL this;
                 _tenantID := v; _projectID := _projectID this;
                 mapping := mapping this;
                 _navigationItemFilter := _navigationItemFilter this;
                 _enableEventStream := _enableEventStream this |})
  | Set_projectID value =>
      and_then (required (MISSING_PROJECT_ID x) value) (fun v =>
      Returns {| _apikey := _apikey this; _caasURL := _caasURL this;
                 _navigationServiceURL := _navigationServiceURL this;
                 _tenantID := _tenantID this; _projectID := v;
                 mapping := mapping this;
                 _navigationItemFilter := _navigationItemFilter this;
                 _enableEventStream := _enableEventStream this |})
  | Set_remotes value =>
      and_then (check_remotes x (JS.values value)) (fun _ =>
      Returns (with_mapping
                 (fun a => {| remotes := value; contentMode := contentMode a;
                              _maxReferenceDepth := _maxReferenceDepth a;
                              _customMapper := _customMapper a;
                              _caasItemFilter := _caasItemFilter a |}) this))
  | Set_contentMode value =>
      and_then (check_contentMode x value) (fun mode =>
      Returns (with_mapping
                 (fun a => {| remotes := remotes a; contentMode := mode;
                              _maxReferenceDepth := _maxReferenceDepth a;
                              _customMapper := _customMapper a;
                              _caasItemFilter := _caasItemFilter a |}) this))
  end.

(** The constructor: the setters run in the order of the source, so the
    first setting that is missing decides the error; the other settings are
    stored unchecked. *)
Definition new_FSXARemoteApi (x : ApiExternals) (config : FSXARemoteApiConfig)
  : outcome ApiObject :=
  and_then (required (MISSING_API_KEY x) (cfg_apikey config)) (fun apikey =>
  and_then (required (MISSING_CAAS_URL x) (cfg_caasURL config)) (fun caasURL =>
  and_then (required (MISSING_NAVIGATION_SERVICE_URL x)
                     (cfg_navigationServiceURL config)) (fun navigationServiceURL =>
  and_then (required (MISSING_TENANT_ID x) (cfg_tenantID config)) (fun tenantID =>
  and_then (required (MISSING_PROJECT_ID x) (cfg_projectID config)) (fun projectID =>
  let remotes := match cfg_remotes config with Some r => r | None => [] end in
  and_then (check_remotes x (JS.values remotes)) (fun _ =>
  and_then (check_contentMode x (cfg_contentMode config)) (fun mode =>
  Returns {| _apikey := apikey; _caasURL := caasURL;
             _navigationServiceURL := navigationServiceURL;
             _tenantID := tenantID; _projectID := projectID;
             mapping := {| remotes := remotes; contentMode := mode;
                           _maxReferenceDepth := cfg_maxReferenceDepth config;
                           _customMapper := cfg_customMapper config;
                           _caasItemFilter := cfg_caasItemFilter config |};
             _navigationItemFilter := cfg_navigationItemFilter config;
             _enableEventStream := false |}))))))).

(** [authorizationHeader]. *)
Definition authorizationHeader (this : ApiObject) : value :=
  VObj [("authorization", VStr ("Bearer " ++ _apikey this))].

(** [enableEventStream(enable?)]: sets the flag when an argument is given,
    and returns the flag. *)
Definition enableEventStream (enable : option bool) (this : ApiObject)
  : bool * ApiObject :=
  match enable with
  | Some b =>
      (b, {| _apikey := _apikey this; _caasURL := _caasURL this;
             _navigationServiceURL := _navigationServiceURL this;
             _tenantID := _tenantID this; _projectID := _projectID this;
             mapping := mapping this;
             _navigationItemFilter := _navigationItemFilter this;
             _enableEventStream := b |})
  | None => (_enableEventStream this, this)
  end.

(** [verifyRemoteProjectExists]. *)
Definition verifyRemoteProjectExists (ext : Externals) (this : FSXARemoteApi)
  (remoteProjectId : string) : outcome unit :=
  match find (fun config => (rp_id config =? remoteProjectId)%string)
             (JS.values (remotes this)) with
  | Some _ => Returns tt
  | None => Throws (Error (UNKNOWN_REMOTE ext))
  end.

(** [buildNavigationServiceUrl]. *)
Definition buildNavigationServiceUrl (x : ApiExternals) (this : ApiObject)
  (locale initialPath : option string) (all : option bool) : string :=
  let useInitialPath :=
    match initialPath with
    | Some p => JS.truthy_str p && negb (p =? "/")%string
    | None => false
    end in
  let baseNavigationServiceUrl :=
    _navigationServiceURL this ++ "/" ++ contentMode_string (contentMode (mapping this))
      ++ "." ++ _projectID this in
  if useInitialPath then
    let queryParams :=
      JS.join "" ["depth=99"; "&format=caas";
                  match all with Some true => "&all" | _ => "" end] in
    baseNavigationServiceUrl ++ "/by-seo-route/"
      ++ match initialPath with Some p => p | None => "undefined" end
      ++ "?" ++ queryParams
  else if JS.truthy_opt locale then
    baseNavigationServiceUrl ++ "?depth=99&format=caas&language="
      ++ encodeURIComponent x (match locale with Some l => l | None => "" end)
  else baseNavigationServiceUrl.

(** [getFilteredNavigation]. *)
Definition getFilteredNavigation (x : ApiExternals) (this : ApiObject)
  (response : HttpResponse) (filterContext : value) : outcome value :=
  match _navigationItemFilter this with
  | None => json response
  | Some navigationItemFilter =>
      and_then (json response) (fun navigation =>
      and_then (JS.get navigation "idMap") (fun idMap =>
      and_then (match idMap with
                | VUndefined | VNull =>
                    Throws (TypeError "Cannot convert undefined or null to object")
                | _ => Returns (JS.values (JS.own_fields idMap))
                end) (fun routes =>
      and_then (navigationItemFilter routes filterContext) (fun filteredRoutes =>
      and_then (fold_right (fun item acc =>
                              and_then (JS.get item "id") (fun id =>
                              and_then acc (fun ids => Returns (id :: ids))))
                           (Returns []) filteredRoutes) (fun allowedRouteIds =>
      and_then (JS.get navigation "seoRouteMap") (fun seoRouteMap =>
      and_then (removeFromSeoRouteMap x seoRouteMap allowedRouteIds) (fun seo =>
      and_then (JS.get navigation "structure") (fun structure0 =>
      and_then (removeFromStructure x structure0 allowedRouteIds) (fun structure =>
      and_then (removeFromIdMap x idMap allowedRouteIds) (fun filteredIdMap =>
      Returns (VObj (JS.assign_all (JS.assign_all [] (JS.own_fields navigation))
                       [("idMap", filteredIdMap); ("seoRouteMap", seo);
                        ("structure", structure)]))))))))))))
  end.

Record FetchNavigationParams : Type := {
  np_locale : option string;
  np_initialPath : option string;
  np_fetchOptions : value;
  np_filterContext : value
}.

(** [fetchNavigation]. *)
Definition fetchNavigation (x : ApiExternals) (ext : Externals) (this : ApiObject)
  (params : FetchNavigationParams) : outcome value :=
  and_then
    (match np_initialPath params with
     | Some initialPath =>
         if JS.truthy_str initialPath then
           if existsb (fun char => JS.includes_char char initialPath)
                      ["?"; "#"]%char
           then Throws (Error (UNKNOWN_ERROR ext))
           else Returns (Some (encodeURI x initialPath))
         else Returns None
     | None => Returns None
     end) (fun encodedInitialPath =>
  let url := buildNavigationServiceUrl x this (np_locale params) encodedInitialPath
                                       (Some true) in
  let response :=
    fetch ext url
      (VObj (JS.assign_all [("headers", VObj [("Accept-Language", VStr "*")])]
                           (JS.own_fields (np_fetchOptions params)))) in
  if negb (ok response) then
    if status response =? 404 then Throws (Error (NOT_FOUND x))
    else Throws (Error (UNKNOWN_ERROR ext))
  else getFilteredNavigation x this response (np_filterContext params)).

(** [fetchSecureToken]. *)
Definition fetchSecureToken (x : ApiExternals) (ext : Externals) (this : ApiObject)
  : outcome value :=
  let url := _caasURL this ++ "/_logic/securetoken?tenant=" ++ _tenantID this in
  let response := fetch ext url (VObj [("headers", authorizationHeader this)]) in
  if negb (ok response) then
    if status response =? 404 then Throws (Error (NOT_FOUND x))
    else if status response =? 401 then Throws (Error (NOT_AUTHORIZED ext))
         else Throws (Error (UNKNOWN_ERROR ext))
  else
    and_then (json response) (fun data =>
    and_then (JS.get data "securetoken") (fun securetoken =>
    Returns (match securetoken with VUndefined => VNull | _ => securetoken end))).

(** [s.split(c)] for a one-character separator. *)
Fixpoint split_char (c : ascii) (acc : string) (s : string) : list string :=
  match s with
  | EmptyString => [acc]
  | String a rest =>
      if Ascii.eqb a c then acc :: split_char c "" rest
      else split_char c (acc ++ String a EmptyString) rest
  end.

(** [buildStringifiedQueryParams]: the elements of a list and an object are
    rendered by [JSON.stringify] before [qs.stringify] encodes the
    parameters. *)
Definition buildStringifiedQueryParams (x : ApiExternals)
  (params : list (string * value)) : string :=
  qs_stringify x
    (JS.assign_all []
       (map (fun kv =>
               (fst kv,
                match snd kv with
                | VArr l => VArr (map (JSON_stringify x) l)
                | VObj _ | VNull => JSON_stringify x (snd kv)
                | v => v
                end))
            params)).

(** The argument of [buildCaaSUrl]. *)
Record buildCaaSUrlParams : Type := {
  b_filters : option (list QueryBuilderQuery);
  b_locale : option string;
  b_page : option JS.number;
  b_pagesize : option JS.number;
  b_sort : option (list value);
  b_additionalParams : option (list (string * value));
  b_remoteProject : option string;
  b_id : option string
}.

Module Api.

(** The filters of a locale: its language and its country. *)
Definition localeFilter (locale : option string) : list QueryBuilderQuery :=
  match locale with
  | Some l =>
      if JS.truthy_str l then
        [ {| q_operator := EQUALS;
             q_value := VStr (nth 0 (split_char "_" "" l) "");
             q_field := "locale.language" |};
          {| q_operator := EQUALS;
             q_value := match nth_error (split_char "_" "" l) 1 with
                        | Some country => VStr country
                        | None => VUndefined
                        end;
             q_field := "locale.country" |} ]
      else []
  | None => []
  end.

(** One [sort=] parameter. *)
Definition sortParam (x : ApiExternals) (entry : value) : outcome string :=
  and_then (JS.get entry "name") (fun name =>
  and_then (JS.get entry "order") (fun order =>
  Returns ("sort=" ++ (if JS.is_str order "desc" then "-" else "")
             ++ encodeURIComponent x (JS.toString name)))).

Fixpoint sortParams (x : ApiExternals) (sort : list value) : outcome (list string) :=
  match sort with
  | [] => Returns []
  | entry :: rest =>
      and_then (sortParam x entry) (fun p =>
      and_then (sortParams x rest) (fun ps => Returns (p :: ps)))
  end.

(** The query parameters of [buildCaaSUrl], in the order they are pushed. *)
Definition queryParams (x : ApiExternals) (p : buildCaaSUrlParams)
  : outcome (list string) :=
  let additional :=
    match b_additionalParams p with
    | Some (_ :: _ as a) => [buildStringifiedQueryParams x a]
    | _ => []
    end in
  let filter :=
    match b_filters p with
    | Some filters =>
        let allFilters := (filters ++ localeFilter (b_locale p))%list in
        let query :=
          map (fun v => encodeURIComponent x (JS.toString (JSON_stringify x v)))
              (buildAll x allFilters) in
        ["filter=" ++ JS.join "&filter=" query]
    | None => []
    end in
  let page :=
    match b_page p with
    | Some n =>
        if JS.truthy_number n
        then ["page=" ++ encodeURIComponent x (JS.string_of_number n)]
        else []
    | None => []
    end in
  let pagesize :=
    match b_pagesize p with
    | Some n =>
        if JS.truthy_number n
        then ["pagesize=" ++ encodeURIComponent x (JS.string_of_number n)]
        else []
    | None => []
    end in
  and_then (match b_sort p with
            | Some sort => sortParams x sort
            | None => Returns []
            end) (fun sort =>
  Returns (additional ++ filter ++ page ++ pagesize ++ sort)%list).

(** [buildCaaSUrl]. *)
Definition buildCaaSUrl (x : ApiExternals) (ext : Externals) (this : ApiObject)
  (p : buildCaaSUrlParams) : outcome string :=
  and_then
    (match b_remoteProject p with
     | Some remoteProjectId =>
         if JS.truthy_str remoteProjectId then
           and_then (verifyRemoteProjectExists ext (mapping this) remoteProjectId)
                    (fun _ => Returns remoteProjectId)
         else Returns (_projectID this)
     | None => Returns (_projectID this)
     end) (fun projectId =>
  let baseURL :=
    _caasURL this ++ "/" ++ _tenantID this ++ "/" ++ projectId ++ "."
      ++ contentMode_string (contentMode (mapping this)) ++ ".content" in
  let encodedBaseURL :=
    encodeURI x baseURL
      ++ match b_id p with
         | Some id =>
             if JS.truthy_str id then
               "/" ++ encodeURIComponent x id
                 ++ match b_locale p with
                    | Some l =>
                        if JS.truthy_str l then "." ++ encodeURIComponent x l else ""
                    | None => ""
                    end
             else ""
         | None => ""
         end in
  and_then (queryParams x p) (fun params =>
  Returns (encodedBaseURL
             ++ match params with
                | [] => ""
                | _ => "?" ++ JS.join "&" params
                end))).

End Api.

(** The argument [fetchByFilter] hands to [buildCaaSUrl]. *)
Definition of_caas_request (p : CaaSUrlParams) : buildCaaSUrlParams :=
  {| b_filters := Some (u_filters p);
     b_locale := u_locale p;
     b_page := Some (u_page p);
     b_pagesize := Some (u_pagesize p);
     b_sort := Some (u_sort p);
     b_additionalParams := Some (u_additionalParams p);
     b_remoteProject := u_remoteProject p;
     b_id := None |}.

(** The imports of the mapper with the URL builder of the API object
    [this] in place. *)
Definition with_buildCaaSUrl (x : ApiExternals) (this : ApiObject) (ext : Externals)
  : Externals :=
  {| parseISO := parseISO ext;
     xml_parse := xml_parse ext;
     getItemId := getItemId ext;
     denormalizeResolvedReferences := denormalizeResolvedReferences ext;
     RECT := RECT ext; CIRCLE := CIRCLE ext; POLY := POLY ext;
     NOT_AUTHORIZED := NOT_AUTHORIZED ext;
     UNKNOWN_ERROR := UNKNOWN_ERROR ext;
     UNKNOWN_REMOTE := UNKNOWN_REMOTE ext;
     buildCaaSUrl := fun _ p => Api.buildCaaSUrl x ext this (of_caas_request p);
     fetch := fetch ext |}.

Record FetchElementParams : Type := {
  ep_id : string;
  ep_locale : option string;
  ep_additionalParams : option (list (string * value));
  ep_remoteProject : option string;
  ep_fetchOptions : value;
  ep_filterContext : value;
  ep_normalized : option bool
}.

(** What [fetchElement] returns: the normalized response, or the first of
    the denormalized items. *)
Inductive FetchElementResult : Type :=
| NormalizedElement (mappedItems : list value) (referenceMap : ReferencedItemsInfo)
                    (resolvedReferences : ResolvedReferencesInfo)
| Element (item : value).

(** The request of [fetchElement]. *)
Definition element_request (params : FetchElementParams) (locale : option string)
  : FetchByFilterParams :=
  {| fp_filters := [ {| q_operator := EQUALS;
                        q_value := VStr (ep_id params);
                        q_field := "identifier" |} ];
     fp_locale := locale;
     fp_page := None;
     fp_pagesize := None;
     fp_additionalParams :=
       Some match ep_additionalParams params with Some a => a | None => [] end;
     fp_remoteProject := ep_remoteProject params;
     fp_fetchOptions := ep_fetchOptions params;
     fp_filterContext := ep_filterContext params;
     fp_sort := [];
     fp_normalized := Some true |}.

(** The names every ordinary object inherits from [Object.prototype]. *)
Definition Object_prototype : list string :=
  [ "constructor"; "__defineGetter__"; "__defineSetter__"; "hasOwnProperty";
    "__lookupGetter__"; "__lookupSetter__"; "isPrototypeOf";
    "propertyIsEnumerable"; "toString"; "valueOf"; "__proto__";
    "toLocaleString" ].

Definition inherited (name : string) : bool :=
  existsb (String.eqb name) Object_prototype.

(** [this.remotes[remoteProject].locale], for [remotes] an ordinary object:
    the locale of the entry under that name; [undefined] for a name that is
    no key of [remotes] but inherited, where the property read finds a
    member of [Object.prototype], which has no [locale]; and a [TypeError]
    for any other name. *)
Definition locale_of_remote (this : FSXARemoteApi) (remoteProject : string)
  : outcome (option string) :=
  match JS.lookup remoteProject (remotes this) with
  | Some entry => Returns (rp_locale entry)
  | None =>
      if inherited remoteProject then Returns None
      else Throws (TypeError
                     "Cannot read properties of undefined (reading 'locale')")
  end.

(** [fetchElement].  The locale of a remote project is read from [remotes]
    under the name [remoteProject]. *)
Definition fetchElement (x : ApiExternals) (ext : Externals) (fuel rounds : nat)
  (this : FSXARemoteApi) (params : FetchElementParams) : outcome FetchElementResult :=
  and_then
    (match ep_remoteProject params with
     | Some remoteProject =>
         if JS.truthy_str remoteProject then locale_of_remote this remoteProject
         else Returns (ep_locale params)
     | None => Returns (ep_locale params)
     end) (fun locale =>
  and_then (fst (fetchByFilter ext fuel rounds this (element_request params locale)
                               None)) (fun response =>
  let items := fr_items response in
  let referenceMap :=
    match fr_referenceMap response with Some r => r | None => [] end in
  let resolvedReferences :=
    match fr_resolvedReferences response with Some r => r | None => [] end in
  match items with
  | [] => Throws (Error (NOT_FOUND x))
  | _ =>
      Returns
        (if match ep_normalized params with Some b => b | None => false end
         then NormalizedElement items referenceMap resolvedReferences
         else Element (nth 0 (denormalizeResolvedReferences ext items referenceMap
                                                            resolvedReferences)
                           VUndefined))
  end)).

(** ** How the mapper changes *)

(** The updates the methods make to the mapper object. *)
Inductive mapper_step (m : CaaSMapper) : CaaSMapper -> Prop :=
| step_logged (e : LogEntry) : mapper_step m (add_logged e m)
| step_register_local (id : string) (path : NestedPath) :
    mapper_step m
      (set_referencedItems (append_path id path (_referencedItems m)) m)
| step_register_remote (key : string) (bucket : ReferencedItemsInfo)
    (id : string) (path : NestedPath) :
    JS.lookup key (_remoteReferences m) = Some bucket ->
    mapper_step m
      (set_remoteReferences
         (JS.assign key (append_path id path bucket) (_remoteReferences m)) m)
| step_cached (k : string) (item : value) :
    mapper_step m
      (set_resolvedReferences (JS.assign k item (resolvedReferences m)) m)
| step_merged :
    mapper_step m
      (set_remoteReferences (snd (merge_remoteReferences (_remoteReferences m))) m)
| step_issued (p : FetchByFilterParams) : mapper_step m (add_issued p m)
| step_descend :
    referenceDepth m < maxReferenceDepth m ->
    mapper_step m (set_referenceDepth (referenceDepth m + 1) m).

(** [m'] is reached from [m] by a sequence of such updates. *)
Inductive evolves (m : CaaSMapper) : CaaSMapper -> Prop :=
| evolves_refl : evolves m m
| evolves_next (m1 m2 : CaaSMapper) :
    evolves m m1 -> mapper_step m1 m2 -> evolves m m2.

(** The mapper in use when a call of [fetchByFilter] ends was handed to the
    call or constructed by it, and then changed by the updates above. *)
Definition mapper_of_call (this : FSXARemoteApi) (mapper : option CaaSMapper)
  (m0 : CaaSMapper) : Prop :=
  match mapper with
  | Some m => m0 = m
  | None =>
      exists mapperLocale,
        m0 = new_CaaSMapper this mapperLocale (_customMapper this) None
                            (_maxReferenceDepth this)
  end.

(** No update removes a key of the cache or of a registry, and the paths of
    a local reference are only added to. *)
Definition retains (m m' : CaaSMapper) : Prop :=
  (forall k, JS.lookup k (resolvedReferences m) <> None ->
             JS.lookup k (resolvedReferences m') <> None)
  /\ (forall project id, registered m project id <> None ->
                         registered m' project id <> None)
  /\ (forall id paths, JS.lookup id (_referencedItems m) = Some paths ->
        exists more, JS.lookup id (_referencedItems m') = Some (paths ++ more)%list).

(** The relation of a call that neither caches nor fetches. *)
Definition offline (m m' : CaaSMapper) : Prop :=
  resolvedReferences m' = resolvedReferences m
  /\ referenceDepth m' = referenceDepth m
  /\ issued m' = issued m.

(** Every registered id has its item in the cache. *)
Definition fully_resolved (m : CaaSMapper) : Prop :=
  forall registry,
    In registry (_referencedItems m :: JS.values (_remoteReferences m)) ->
    forall id, In id (JS.keys registry) -> In id (JS.keys (resolvedReferences m)).

(** The kinds of page content [mapBodyContent] maps. *)
Definition known_body_content (content : value) : Prop :=
  exists kind,
    JS.get content "fsType" = Returns (VStr kind)
    /\ In kind ["Content2Section"; "Section"; "SectionReference"; "GCASection"].

(** A page body all of whose children are of these kinds. *)
Definition mappable_body (body : value) : Prop :=
  exists children,
    JS.get body "children" = Returns (VArr children)
    /\ Forall known_body_content children.

(** The registry of the first remote project, if there is one. *)
Definition first_registry (m : CaaSMapper) : ReferencedItemsInfo :=
  match _remoteReferences m with
  | [] => []
  | (_, first) :: _ => first
  end.

(** ** Vocabulary of the API object *)

(** A setting that is present and not empty. *)
Definition given (value : option string) : Prop :=
  exists s, value = Some s /\ s <> "".

(** A remote project with an id and a locale. *)
Definition complete_remote (entry : RemoteProjectConfigurationEntry) : Prop :=
  rp_id entry <> "" /\ given (rp_locale entry).

(** A configuration the constructor accepts. *)
Definition complete_config (config : FSXARemoteApiConfig) : Prop :=
  given (cfg_apikey config) /\ given (cfg_caasURL config)
  /\ given (cfg_navigationServiceURL config) /\ given (cfg_tenantID config)
  /\ given (cfg_projectID config)
  /\ Forall complete_remote
            (JS.values match cfg_remotes config with Some r => r | None => [] end)
  /\ (cfg_contentMode config = Some "preview"
      \/ cfg_contentMode config = Some "release").

(** An API object with all its connection settings and complete remote
    projects. *)
Definition well_configured (this : ApiObject) : Prop :=
  _apikey this <> "" /\ _caasURL this <> "" /\ _navigationServiceURL this <> ""
  /\ _tenantID this <> "" /\ _projectID this <> ""
  /\ Forall complete_remote (JS.values (remotes (mapping this))).

(** The setters applied one after the other, by a caller that goes on after
    a setter has thrown. *)
Fixpoint assign_settings (x : ApiExternals) (settings : list Setting)
  (this : ApiObject) : ApiObject :=
  match settings with
  | [] => this
  | s :: rest =>
      assign_settings x rest
        match assign_setting x s this with
        | Returns this' => this'
        | _ => this
        end
  end.

(** The initial path has one of the characters [fetchNavigation] refuses. *)
Definition forbidden_path (params : FetchNavigationParams) : bool :=
  match np_initialPath params with
  | Some path => JS.includes_char "?" path || JS.includes_char "#" path
  | None => false
  end.

(** The ids of the routes a filter kept, as [filteredRoutes.map(item =>
    item.id)] reads them. *)
Definition ids_of (routes : list value) : list value :=
  map (fun route => JS.get_opt route "id") routes.

(** ** Further samples *)

Module SampleSite.

(** A mapper whose only reference is resolved already. *)
Definition settled_mapper : CaaSMapper :=
  set_resolvedReferences [("m1.en_GB", VObj [("type", VStr "Image")])]
    (set_referencedItems
       [("m1.en_GB", [[Key "page1.en_GB"; Key "data"; Key "st_image"]])]
       Sample.mapper).

Definition form_data : list (string * value) :=
  [("st_title", VObj [("fsType", VStr "CMS_INPUT_TEXT"); ("value", VStr "Hello")]);
   ("st_count", VObj [("fsType", VStr "CMS_INPUT_NUMBER"); ("value", VNum 3)])].

Definition toggle_unset : value :=
  VObj [("fsType", VStr "CMS_INPUT_TOGGLE"); ("name", VStr "st_flag");
        ("value", VNull)].

Definition permission_without_value : value :=
  VObj [("fsType", VStr "CMS_INPUT_PERMISSION"); ("name", VStr "st_access")].

(** The imports with an id function that reads the preview id of a mapped
    item and the identifier of a raw one. *)
Definition ext : Externals :=
  {| parseISO := parseISO Sample.ext;
     xml_parse := xml_parse Sample.ext;
     getItemId := fun item _ =>
                    match JS.get_opt item "previewId", JS.get_opt item "identifier" with
                    | VStr s, _ => Some s
                    | _, VStr s => Some s
                    | _, _ => None
                    end;
     denormalizeResolvedReferences := denormalizeResolvedReferences Sample.ext;
     RECT := RECT Sample.ext; CIRCLE := CIRCLE Sample.ext; POLY := POLY Sample.ext;
     NOT_AUTHORIZED := NOT_AUTHORIZED Sample.ext;
     UNKNOWN_ERROR := UNKNOWN_ERROR Sample.ext;
     UNKNOWN_REMOTE := UNKNOWN_REMOTE Sample.ext;
     buildCaaSUrl := buildCaaSUrl Sample.ext;
     fetch := fetch Sample.ext |}.

(** A dataset with a reference to a medium. *)
Definition product : value :=
  VObj [("fsType", VStr "Dataset"); ("identifier", VStr "d1");
        ("schema", VStr "products"); ("entityType", VStr "product");
        ("formData",
         VObj [("st_image",
                VObj [("fsType", VStr "FS_REFERENCE"); ("name", VStr "st_image");
                      ("value", VObj [("fsType", VStr "Media");
                                      ("identifier", VStr "m1")])])]);
        ("route", VStr "/products/d1"); ("routes", VArr []);
        ("template", VObj [("uid", VStr "product")]);
        ("locale", VObj [("language", VStr "en"); ("country", VStr "GB")])].
(** Two items of unknown kind that differ in their label only. *)
Definition first_fragment : value :=
  VObj [("fsType", VStr "Fragment"); ("identifier", VStr "f1");
        ("label", VStr "first")].

Definition second_fragment : value :=
  VObj [("fsType", VStr "Fragment"); ("identifier", VStr "f1");
        ("label", VStr "second")].

(** A remote project whose id has a dot in it. *)
Definition dotted_project : RemoteProjectConfigurationEntry :=
  {| rp_id := "my.proj"; rp_locale := Some "en_GB" |}.

Definition dotted_api : FSXARemoteApi :=
  {| remotes := [("shop", dotted_project)];
     contentMode := PREVIEW;
     _maxReferenceDepth := None;
     _customMapper := None;
     _caasItemFilter := None |}.

Definition dotted_mapper : CaaSMapper :=
  new_CaaSMapper dotted_api "en_GB" None None None.

(** That mapper after the element ["abc"] of the remote project has been
    registered. *)
Definition dotted_pending : CaaSMapper :=
  snd (registerReferencedItem "abc" [Key "page1.en_GB"; Key "data"; Key "st_image"]
                              (Some "my.proj") None dotted_mapper).

(** A reference to a medium of the remote project ["media"]. *)
Definition media_reference : value :=
  VObj [("fsType", VStr "FS_REFERENCE"); ("name", VStr "st_image");
        ("value", VObj [("fsType", VStr "Media"); ("identifier", VStr "m7");
                        ("remoteProject", VStr "media")])].

End SampleSite.

Module SampleApi.

(** A CaaS that answers every request with one document of a kind the
    mapper does not know. *)
Definition ext : Externals :=
  {| parseISO := parseISO Sample.ext;
     xml_parse := xml_parse Sample.ext;
     getItemId := getItemId Sample.ext;
     denormalizeResolvedReferences := denormalizeResolvedReferences Sample.ext;
     RECT := RECT Sample.ext; CIRCLE := CIRCLE Sample.ext; POLY := POLY Sample.ext;
     NOT_AUTHORIZED := NOT_AUTHORIZED Sample.ext;
     UNKNOWN_ERROR := UNKNOWN_ERROR Sample.ext;
     UNKNOWN_REMOTE := UNKNOWN_REMOTE Sample.ext;
     buildCaaSUrl := buildCaaSUrl Sample.ext;
     fetch := fun _ _ =>
                {| ok := true; status := 200;
                   json := Returns
                             (VObj [("_embedded",
                                     VObj [("rh:doc", VArr [Sample.unknown_item])]);
                                    ("_size", VNum 1)]) |} |}.

(** A server that refuses every request with [404]. *)
Definition refusing : Externals :=
  {| parseISO := parseISO Sample.ext;
     xml_parse := xml_parse Sample.ext;
     getItemId := getItemId Sample.ext;
     denormalizeResolvedReferences := denormalizeResolvedReferences Sample.ext;
     RECT := RECT Sample.ext; CIRCLE := CIRCLE Sample.ext; POLY := POLY Sample.ext;
     NOT_AUTHORIZED := NOT_AUTHORIZED Sample.ext;
     UNKNOWN_ERROR := UNKNOWN_ERROR Sample.ext;
     UNKNOWN_REMOTE := UNKNOWN_REMOTE Sample.ext;
     buildCaaSUrl := buildCaaSUrl Sample.ext;
     fetch := fun _ _ => {| ok := false; status := 404; json := Returns VNull |} |}.

(** The ids of the routes, as [item.id] reads them. *)
Definition allowed (ids : list value) (route : value) : bool :=
  existsb (fun id => match id, JS.get_opt route "id" with
                     | VStr a, VStr b => (a =? b)%string
                     | _, _ => false
                     end) ids.

(** Encoders that leave every string as it is, a query builder that renders
    one object per filter, and navigation helpers that keep the entries
    of the allowed routes. *)
Definition x : ApiExternals :=
  {| MISSING_API_KEY := "MISSING_API_KEY";
     MISSING_CAAS_URL := "MISSING_CAAS_URL";
     MISSING_NAVIGATION_SERVICE_URL := "MISSING_NAVIGATION_SERVICE_URL";
     MISSING_TENANT_ID := "MISSING_TENANT_ID";
     MISSING_PROJECT_ID := "MISSING_PROJECT_ID";
     MISSING_REMOTE_ID := "MISSING_REMOTE_ID";
     MISSING_REMOTE_LOCALE := "MISSING_REMOTE_LOCALE";
     UNKNOWN_CONTENT_MODE := "UNKNOWN_CONTENT_MODE";
     NOT_FOUND := "NOT_FOUND";
     encodeURI := fun s => s;
     encodeURIComponent := fun s => s;
     JSON_stringify := fun v => v;
     buildAll := map (fun q => VObj [(q_field q, q_value q)]);
     qs_stringify := fun params => JS.join "&" (JS.keys params);
     removeFromSeoRouteMap := fun seoRouteMap _ => Returns seoRouteMap;
     removeFromStructure := fun structure _ => Returns structure;
     removeFromIdMap :=
       fun idMap ids =>
         Returns (VObj (filter (fun entry => allowed ids (snd entry))
                               (JS.own_fields idMap))) |}.

Definition config : FSXARemoteApiConfig :=
  {| cfg_apikey := Some "key";
     cfg_caasURL := Some "https://caas.test";
     cfg_navigationServiceURL := Some "https://navigation.test/navigation";
     cfg_tenantID := Some "tenant";
     cfg_projectID := Some "project";
     cfg_remotes := Some [("media", Sample.media_project)];
     cfg_contentMode := Some "preview";
     cfg_maxReferenceDepth := None;
     cfg_customMapper := None;
     cfg_navigationItemFilter := None;
     cfg_caasItemFilter := None |}.

(** The object the constructor makes of [config]. *)
Definition this : ApiObject :=
  {| _apikey := "key";
     _caasURL := "https://caas.test";
     _navigationServiceURL := "https://navigation.test/navigation";
     _tenantID := "tenant";
     _projectID := "project";
     mapping := Sample.remoteApi;
     _navigationItemFilter := None;
     _enableEventStream := false |}.

(** A remote project configured under a name that is not its id. *)
Definition renamed : ApiObject :=
  with_mapping
    (fun api => {| remotes := [("assets", Sample.media_project)];
                   contentMode := contentMode api;
                   _maxReferenceDepth := _maxReferenceDepth api;
                   _customMapper := _customMapper api;
                   _caasItemFilter := _caasItemFilter api |}) this.

(** A navigation filter that keeps the routes marked visible. *)
Definition visible_only : NavigationItemFilter :=
  fun routes _ =>
    Returns (filter (fun route => JS.truthy (JS.get_opt route "visible")) routes).

Definition filtering : ApiObject :=
  {| _apikey := _apikey this; _caasURL := _caasURL this;
     _navigationServiceURL := _navigationServiceURL this;
     _tenantID := _tenantID this; _projectID := _projectID this;
     mapping := mapping this;
     _navigationItemFilter := Some visible_only;
     _enableEventStream := false |}.

Definition navigation : value :=
  VObj [("idMap",
         VObj [("home", VObj [("id", VStr "home"); ("visible", VBool true)]);
               ("draft", VObj [("id", VStr "draft"); ("visible", VBool false)])]);
        ("seoRouteMap", VObj [("/", VStr "home"); ("/draft/", VStr "draft")]);
        ("structure", VArr [VObj [("id", VStr "home")]]);
        ("meta", VObj [("identifier", VStr "project")])].

Definition navigation_response : HttpResponse :=
  {| ok := true; status := 200; json := Returns navigation |}.

(** A request whose page was computed from missing data, and whose page
    size is below one. *)
Definition undefined_page : FetchByFilterParams :=
  {| fp_filters := []; fp_locale := Some "en_GB"; fp_page := Some JS.NaN;
     fp_pagesize := Some (JS.Int 0); fp_additionalParams := None;
     fp_remoteProject := None; fp_fetchOptions := VUndefined;
     fp_filterContext := VUndefined; fp_sort := []; fp_normalized := None |}.

Definition navigation_params : FetchNavigationParams :=
  {| np_locale := Some "en_GB"; np_initialPath := Some "/products/";
     np_fetchOptions := VUndefined; np_filterContext := VUndefined |}.

Definition element_params : FetchElementParams :=
  {| ep_id := "f1"; ep_locale := Some "en_GB"; ep_additionalParams := None;
     ep_remoteProject := None; ep_fetchOptions := VUndefined;
     ep_filterContext := VUndefined; ep_normalized := None |}.

Definition remote_element_params : FetchElementParams :=
  {| ep_id := "f1"; ep_locale := Some "de_DE"; ep_additionalParams := None;
     ep_remoteProject := Some "assets"; ep_fetchOptions := VUndefined;
     ep_filterContext := VUndefined; ep_normalized := Some true |}.

(** A request that names a member of [Object.prototype] as the remote
    project. *)
Definition inherited_element_params : FetchElementParams :=
  {| ep_id := "f1"; ep_locale := Some "de_DE"; ep_additionalParams := None;
     ep_remoteProject := Some "constructor"; ep_fetchOptions := VUndefined;
     ep_filterContext := VUndefined; ep_normalized := Some true |}.

End SampleApi.

(** ** Strings *)

Lemma find_char_append_absent (c : ascii) (a b : string) :
  JS.find_char c a = None ->
  JS.find_char c (a ++ String c b) = Some (String.length a).
Proof.
  induction a as [|x a IH]; simpl; intros H.
  - rewrite Ascii.eqb_refl. reflexivity.
  - destruct (Ascii.eqb x c); [discriminate|].
    destruct (JS.find_char c a); [discriminate|].
    rewrite IH; reflexivity.
Qed.

Lemma find_char_append_none (c : ascii) (a b : string) :
  JS.find_char c a = None ->
  JS.find_char c (a ++ b) =
  match JS.find_char c b with
  | Some n => Some (String.length a + n)%nat
  | None => None
  end.
Proof.
  induction a as [|x a IH]; simpl; intros H.
  - destruct (JS.find_char c b); reflexivity.
  - destruct (Ascii.eqb x c); [discriminate|].
    destruct (JS.find_char c a); [discriminate|].
    rewrite IH by reflexivity.
    destruct (JS.find_char c b); reflexivity.
Qed.

Lemma substring_prefix (a b : string) :
  String.substring 0 (String.length a) (a ++ b) = a.
Proof.
  induction a as [|x a IH]; simpl.
  - destruct b; reflexivity.
  - rewrite IH. reflexivity.
Qed.

Lemma substring_skip (a b : string) (n : nat) :
  String.substring (String.length a) n (a ++ b) = String.substring 0 n b.
Proof.
  induction a as [|x a IH]; simpl; [reflexivity | exact IH].
Qed.

Lemma string_length_append (a b : string) :
  String.length (a ++ b) = (String.length a + String.length b)%nat.
Proof.
  induction a as [|x a IH]; simpl; [reflexivity | now rewrite IH].
Qed.

Lemma string_append_assoc (a b c : string) : (a ++ b) ++ c = a ++ b ++ c.
Proof.
  induction a as [|x a IH]; simpl; [reflexivity | now rewrite IH].
Qed.

Lemma truthy_str_nonempty (s : string) : s <> "" -> JS.truthy_str s = true.
Proof.
  intros H. unfold JS.truthy_str.
  destruct (String.eqb_spec s ""); [contradiction | reflexivity].
Qed.

(** [s.substring(0, i)] at the position [i] of a separator is the part in
    front of it. *)
Lemma js_substring_prefix (a b : string) :
  JS.substring (a ++ b) 0 (Z.of_nat (String.length a)) = a.
Proof.
  unfold JS.substring, JS.clamp.
  rewrite string_length_append.
  replace (Z.max 0 (Z.min 0 _)) with 0 by lia.
  replace (Z.max 0 (Z.min (Z.of_nat (String.length a)) _))
    with (Z.of_nat (String.length a)) by lia.
  rewrite Z.min_l, Z.max_r by lia.
  rewrite Z.sub_0_r, Nat2Z.id. simpl.
  apply substring_prefix.
Qed.

(** ** The identifier unifier *)

Lemma unifyId_with_separator (m : CaaSMapper) (uuid loc : string)
  (cfg : option RemoteProjectConfigurationEntry) :
  uuid <> "" ->
  JS.find_char "." uuid = None ->
  unifyId m (uuid ++ "." ++ loc) cfg =
  project_prefix cfg ++ uuid ++ "." ++
  match own_locale cfg with Some l => l | None => loc end.
Proof.
  intros Hne Hdot. unfold unifyId, JS.indexOf.
  change (uuid ++ "." ++ loc) with (uuid ++ String "." loc).
  rewrite (find_char_append_absent _ _ _ Hdot).
  assert (Hpos : (0 <? Z.of_nat (String.length uuid)) = true).
  { apply Z.ltb_lt. destruct uuid; [contradiction | simpl; lia]. }
  rewrite Hpos, js_substring_prefix.
  destruct cfg as [c|]; simpl; [rewrite string_append_assoc|reflexivity].
  destruct (rp_locale c) as [l|]; [|reflexivity].
  unfold JS.truthy_str. destruct (l =? "")%string; reflexivity.
Qed.

Lemma unifyId_without_separator (m : CaaSMapper) (id : string)
  (cfg : option RemoteProjectConfigurationEntry) :
  JS.find_char "." id = None ->
  unifyId m id cfg =
  project_prefix cfg ++ id ++ "." ++
  match own_locale cfg with Some l => l | None => locale m end.
Proof.
  intros Hdot. unfold unifyId, JS.indexOf. rewrite Hdot. simpl.
  destruct cfg as [c|]; simpl; [rewrite string_append_assoc|reflexivity].
  unfold JS.or_opt, JS.truthy_opt, JS.truthy_str.
  destruct (rp_locale c) as [l|]; [|reflexivity].
  destruct (l =? "")%string; reflexivity.
Qed.

(** C3.  [unifyId] depends on the raw id, the remote configuration and the
    active locale only.  A raw id [uuid.loc], whose separator lies after
    position 0, keeps [uuid] and takes the locale of the remote configuration
    when that brings one, else keeps [loc]; a raw id without separator gets
    ["."] and the remote locale, else the active locale, appended; with a
    remote configuration the result is prefixed by its id and ["#"].  The two
    examples of the specification evaluate as stated. *)
Theorem unifyId_canonical (m : CaaSMapper) (uuid loc id : string)
  (cfg : option RemoteProjectConfigurationEntry)
  (Huuid : uuid <> "")
  (Hsep : JS.find_char "." uuid = None)
  (Hid : JS.find_char "." id = None) :
  unifyId m (uuid ++ "." ++ loc) cfg
  = project_prefix cfg ++ uuid ++ "." ++
    match own_locale cfg with Some l => l | None => loc end
  /\ unifyId m id cfg
     = project_prefix cfg ++ id ++ "." ++
       match own_locale cfg with Some l => l | None => locale m end
  /\ (forall m' raw, locale m' = locale m -> unifyId m' raw cfg = unifyId m raw cfg)
  /\ (locale m = "en_GB" -> unifyId m "abc123" None = "abc123.en_GB")
  /\ unifyId m "abc123.de_DE" (Some {| rp_id := "media"; rp_locale := Some "en_GB" |})
     = "media#abc123.en_GB".
Proof.
  split; [now apply unifyId_with_separator|].
  split; [now apply unifyId_without_separator|].
  split; [intros m' raw Hloc; unfold unifyId; rewrite Hloc; reflexivity|].
  split; [intros Hloc; unfold unifyId; simpl; rewrite Hloc; reflexivity|].
  reflexivity.
Qed.

Lemma unifyId_canonical_witness :
  unifyId Sample.mapper "abc123.de_DE" (Some Sample.media_project) = "media#abc123.en_GB"
  /\ unifyId Sample.mapper "abc123" None = "abc123.en_GB".
Proof.
  destruct (unifyId_canonical Sample.mapper "abc123" "de_DE" "abc123" None)
    as (_ & _ & _ & H & _);
    [discriminate | reflexivity | reflexivity |].
  destruct (unifyId_canonical Sample.mapper "abc123" "de_DE" "abc123"
              (Some Sample.media_project))
    as (H1 & _);
    [discriminate | reflexivity | reflexivity |].
  split; [exact H1 | exact (H eq_refl)].
Defined.

(** ** Objects as association lists *)

Lemma lookup_In_values {A : Type} (k : string) (v : A) (l : list (string * A)) :
  JS.lookup k l = Some v -> In v (JS.values l).
Proof.
  induction l as [|[k' v'] l IH]; simpl; [discriminate|].
  destruct (k =? k')%string; [intros [= ->]; now left | auto].
Qed.

Lemma lookup_assign_eq {A : Type} (k : string) (v : A) (l : list (string * A)) :
  JS.lookup k (JS.assign k v l) = Some v.
Proof.
  induction l as [|[k' v'] l IH]; simpl.
  - rewrite String.eqb_refl. reflexivity.
  - destruct (k =? k')%string eqn:E; simpl; rewrite ?String.eqb_refl, ?E; auto.
Qed.

Lemma lookup_assign_ne {A : Type} (k k' : string) (v : A) (l : list (string * A)) :
  k' <> k -> JS.lookup k' (JS.assign k v l) = JS.lookup k' l.
Proof.
  intros Hne. induction l as [|[k0 v0] l IH]; simpl.
  - destruct (String.eqb_spec k' k); [contradiction | reflexivity].
  - destruct (String.eqb_spec k k0) as [->|Hk]; simpl.
    + destruct (String.eqb_spec k' k0); [contradiction | reflexivity].
    + destruct (k' =? k0)%string; [reflexivity | exact IH].
Qed.

Lemma lookup_assign_some {A : Type} (k k' : string) (v : A) (l : list (string * A)) :
  JS.lookup k' l <> None -> JS.lookup k' (JS.assign k v l) <> None.
Proof.
  intros H. destruct (String.eqb_spec k' k) as [->|Hne].
  - rewrite lookup_assign_eq. discriminate.
  - rewrite lookup_assign_ne by assumption. exact H.
Qed.

(** ** The reference registry *)

Lemma fold_assign_ready (entries : list RemoteProjectConfigurationEntry)
  (acc : list (string * ReferencedItemsInfo)) (k : string) :
  (JS.lookup k acc <> None \/ exists e, In e entries /\ rp_id e = k) ->
  JS.lookup k (fold_left (fun acc entry => JS.assign (rp_id entry) [] acc) entries acc)
  <> None.
Proof.
  revert acc. induction entries as [|e entries IH]; intros acc H; simpl.
  - destruct H as [H|(e & [] & _)]. exact H.
  - apply IH. destruct H as [H|(e' & [<-|Hin] & <-)].
    + left. now apply lookup_assign_some.
    + left. rewrite lookup_assign_eq. discriminate.
    + right. eauto.
Qed.

Lemma new_CaaSMapper_ready (a : FSXARemoteApi) (loc : string)
  (hook : option CustomMapper) (depth maxDepth : option Z) :
  registries_ready (new_CaaSMapper a loc hook depth maxDepth).
Proof.
  intros entry Hin. simpl. apply fold_assign_ready. right. eauto.
Qed.

Lemma getRemoteConfigForProject_some (m : CaaSMapper) (rp : option string)
  (c : RemoteProjectConfigurationEntry) :
  getRemoteConfigForProject m rp = Some c ->
  rp = Some (rp_id c) /\ JS.truthy_str (rp_id c) = true
  /\ In c (JS.values (remotes (api m))).
Proof.
  unfold getRemoteConfigForProject. destruct rp as [p|]; [|discriminate].
  destruct (JS.truthy_str p) eqn:Ht; [|discriminate].
  intros H. apply find_some in H. destruct H as [Hin Heq].
  apply String.eqb_eq in Heq. subst p. auto.
Qed.

Lemma getRemoteConfigForProject_none (m : CaaSMapper) (p : string) :
  (forall entry, In entry (JS.values (remotes (api m))) -> rp_id entry <> p) ->
  getRemoteConfigForProject m (Some p) = None.
Proof.
  intros H. unfold getRemoteConfigForProject.
  destruct (JS.truthy_str p); [|reflexivity].
  destruct (find _ _) as [c|] eqn:E; [|reflexivity].
  apply find_some in E. destruct E as [Hin Heq].
  apply String.eqb_eq in Heq. now apply H in Hin.
Qed.

(** Evaluation of the monadic plumbing. *)
Ltac run_mapper :=
  cbv beta iota zeta
      delta [bind gets modify ret warn lift throw getM option_map
             JS.truthy_opt negb andb orb].

(** Registration in the local registry: no remote configuration matches. *)
Lemma registerReferencedItem_local (m : CaaSMapper) (identifier : string)
  (path : NestedPath) (rp res : option string) :
  getRemoteConfigForProject m rp = None ->
  registerReferencedItem identifier path rp res m =
  (Returns (placeholder false res (unifyId m identifier None)),
   set_referencedItems
     (append_path (unifyId m identifier None) path (_referencedItems m))
     (if JS.truthy_opt rp
      then add_logged (unknown_remote_warning identifier
                         (match rp with Some p => p | None => "undefined" end)) m
      else m)).
Proof.
  intros Hcfg.
  unfold registerReferencedItem, remoteData_for. run_mapper.
  rewrite Hcfg. destruct rp as [p|]; [destruct (JS.truthy_str p)|]; reflexivity.
Qed.

(** Registration in the registry of a configured remote project. *)
Lemma registerReferencedItem_remote (m : CaaSMapper) (identifier : string)
  (path : NestedPath) (rp res : option string)
  (c : RemoteProjectConfigurationEntry) (bucket : ReferencedItemsInfo) :
  getRemoteConfigForProject m rp = Some c ->
  JS.lookup (rp_id c) (_remoteReferences m) = Some bucket ->
  registerReferencedItem identifier path rp res m =
  (Returns (placeholder true res (unifyId m identifier (Some c))),
   set_remoteReferences
     (JS.assign (rp_id c)
        (append_path (unifyId m identifier (Some c)) path bucket)
        (_remoteReferences m)) m).
Proof.
  intros Hcfg Hbucket.
  destruct (getRemoteConfigForProject_some _ _ _ Hcfg) as (-> & Ht & _).
  unfold registerReferencedItem, remoteData_for. run_mapper.
  rewrite Hcfg, Ht. run_mapper. rewrite Ht, Hbucket. reflexivity.
Qed.

Lemma placeholder_formats (remote : bool) (res : option string) (id : string) :
  placeholder remote res id =
  match supplied res with
  | Some r => "IMAGEMAP___" ++ r ++ "___" ++ id
  | None => if remote then "[REFERENCED-REMOTE-ITEM-" ++ id ++ "]"
            else "[REFERENCED-ITEM-" ++ id ++ "]"
  end.
Proof.
  unfold placeholder, supplied, JS.truthy_str.
  destruct res as [r|]; [|reflexivity].
  destruct (r =? "")%string; reflexivity.
Qed.

Lemma registered_append (registry : ReferencedItemsInfo) (id : string)
  (path : NestedPath) :
  JS.lookup id (append_path id path registry)
  = Some (paths_of (JS.lookup id registry) ++ [path])%list.
Proof.
  unfold append_path. rewrite lookup_assign_eq. 
  destruct (JS.lookup id registry); reflexivity.
Qed.

(** C4.  On a mapper whose registries are in place, [registerReferencedItem]
    returns and appends the path to the entry of the canonical id in the
    registry of the project: that of the configured remote project named by
    [remoteProjectId], else the local one; every other entry is untouched.
    The token returned is [IMAGEMAP___{resolution}___{canonicalId}] when a
    resolution is supplied, else [[REFERENCED-REMOTE-ITEM-{canonicalId}]] for
    a remote and [[REFERENCED-ITEM-{canonicalId}]] for a local reference,
    where [canonicalId] is the unified identifier. *)
Theorem registerReferencedItem_registers (m : CaaSMapper) (identifier : string)
  (path : NestedPath) (remoteProjectId imageMapResolution : option string)
  (Hready : registries_ready m) :
  let cfg := getRemoteConfigForProject m remoteProjectId in
  let project := option_map rp_id cfg in
  let canonicalId := unifyId m identifier cfg in
  exists m',
    registerReferencedItem identifier path remoteProjectId imageMapResolution m
    = (Returns
         match supplied imageMapResolution with
         | Some r => "IMAGEMAP___" ++ r ++ "___" ++ canonicalId
         | None =>
             match cfg with
             | Some _ => "[REFERENCED-REMOTE-ITEM-" ++ canonicalId ++ "]"
             | None => "[REFERENCED-ITEM-" ++ canonicalId ++ "]"
             end
         end, m')
    /\ registered m' project canonicalId
       = Some (paths_of (registered m project canonicalId) ++ [path])%list
    /\ (forall project' id',
          (project', id') <> (project, canonicalId) ->
          registered m' project' id' = registered m project' id')
    /\ resolvedReferences m' = resolvedReferences m
    /\ registries_ready m'.
Proof.
  intros cfg project canonicalId. subst project canonicalId.
  unfold registries_ready, ReferencedItemsInfo in *.
  destruct cfg as [c|] eqn:Hcfg; subst cfg.
  - destruct (getRemoteConfigForProject_some _ _ _ Hcfg) as (_ & _ & Hin).
    destruct (JS.lookup (rp_id c) (_remoteReferences m)) as [bucket|] eqn:Hb;
      [|now apply Hready in Hin].
    eexists. split.
    { rewrite (registerReferencedItem_remote _ _ _ _ _ _ _ Hcfg Hb).
      rewrite placeholder_formats. reflexivity. }
    cbn [option_map registered set_remoteReferences _remoteReferences
         _referencedItems resolvedReferences api].
    split; [|split; [|split]].
    + rewrite lookup_assign_eq, Hb. apply registered_append.
    + intros [key'|] id' Hne; [|reflexivity].
      cbn [registered set_remoteReferences _remoteReferences].
      destruct (String.eqb_spec key' (rp_id c)) as [->|Hk].
      * rewrite lookup_assign_eq, Hb. unfold append_path.
        apply lookup_assign_ne. congruence.
      * rewrite lookup_assign_ne by assumption. reflexivity.
    + reflexivity.
    + intros entry Hentry. apply lookup_assign_some. now apply Hready.
  - eexists. split.
    { rewrite (registerReferencedItem_local _ _ _ _ _ Hcfg).
      rewrite placeholder_formats. reflexivity. }
    cbn [option_map registered].
    destruct (JS.truthy_opt remoteProjectId);
      cbn [set_referencedItems add_logged _remoteReferences _referencedItems
           resolvedReferences api].
    all: split; [apply registered_append|].
    all: split; [intros [key'|] id' Hne; [reflexivity|];
                 cbn [registered set_referencedItems add_logged _referencedItems];
                 unfold append_path; apply lookup_assign_ne; congruence|].
    all: split; [reflexivity | exact Hready].
Qed.

Lemma registerReferencedItem_registers_witness :
  exists m',
    registerReferencedItem "m1" [Key "page1.en_GB"; Key "data"; Key "st_image"]
                           (Some "media") None Sample.mapper
    = (Returns "[REFERENCED-REMOTE-ITEM-media#m1.en_GB]", m')
    /\ registered m' (Some "media") "media#m1.en_GB"
       = Some [[Key "page1.en_GB"; Key "data"; Key "st_image"]].
Proof.
  destruct (registerReferencedItem_registers Sample.mapper "m1"
              [Key "page1.en_GB"; Key "data"; Key "st_image"] (Some "media") None)
    as (m' & Hrun & Hreg & _).
  - intros entry [<-|[]]. simpl. discriminate.
  - exists m'. split; [exact Hrun | exact Hreg].
Defined.

(** C5.  A [remoteProjectId] that names no configured remote project makes
    [registerReferencedItem] log a warning and then do exactly what the
    registration of a local reference does: the path is appended in the local
    registry under the id unified with the active locale and without a
    project prefix, the token of the local registration is returned, which is
    [[REFERENCED-ITEM-{id}]] unless an image-map resolution is supplied, the
    remote registries are untouched and nothing is thrown. *)
Theorem unknown_remote_registers_locally (m : CaaSMapper) (identifier p : string)
  (path : NestedPath) (imageMapResolution : option string)
  (Hgiven : p <> "")
  (Hmissing : forall entry,
      In entry (JS.values (remotes (api m))) -> rp_id entry <> p) :
  let canonicalId := unifyId m identifier None in
  exists token m_local,
    registerReferencedItem identifier path None imageMapResolution m
    = (Returns token, m_local)
    /\ registerReferencedItem identifier path (Some p) imageMapResolution m
       = (Returns token, add_logged (unknown_remote_warning identifier p) m_local)
    /\ (supplied imageMapResolution = None ->
        token = "[REFERENCED-ITEM-" ++ canonicalId ++ "]")
    /\ JS.lookup canonicalId
         (_referencedItems (add_logged (unknown_remote_warning identifier p) m_local))
       = Some (paths_of (JS.lookup canonicalId (_referencedItems m)) ++ [path])%list
    /\ _remoteReferences (add_logged (unknown_remote_warning identifier p) m_local)
       = _remoteReferences m
    /\ logged (add_logged (unknown_remote_warning identifier p) m_local)
       = (logged m ++ [unknown_remote_warning identifier p])%list.
Proof.
  intros canonicalId. subst canonicalId.
  pose proof (getRemoteConfigForProject_none m p Hmissing) as Hcfg.
  do 2 eexists. split; [apply registerReferencedItem_local; reflexivity|].
  split.
  { rewrite (registerReferencedItem_local _ _ _ _ _ Hcfg).
    cbn [JS.truthy_opt]. rewrite (truthy_str_nonempty _ Hgiven). reflexivity. }
  cbn [JS.truthy_opt set_referencedItems add_logged _referencedItems
       _remoteReferences logged].
  split; [intros Hres; rewrite placeholder_formats, Hres; reflexivity|].
  split; [apply registered_append|].
  split; reflexivity.
Qed.

Lemma unknown_remote_registers_locally_witness :
  exists m',
    registerReferencedItem "m1" [Key "data"] (Some "archive") None Sample.mapper
    = (Returns "[REFERENCED-ITEM-m1.en_GB]", m')
    /\ JS.lookup "m1.en_GB" (_referencedItems m') = Some [[Key "data"]]
    /\ logged m' = [unknown_remote_warning "m1" "archive"].
Proof.
  destruct (unknown_remote_registers_locally Sample.mapper "m1" "archive"
              [Key "data"] None)
    as (token & m_local & _ & Hrun & Htoken & Hpaths & _ & Hlog).
  - discriminate.
  - intros entry [<-|[]]. simpl. discriminate.
  - eexists. rewrite (Htoken eq_refl) in Hrun.
    split; [exact Hrun | split; [exact Hpaths | exact Hlog]].
Defined.

(** ** The dispatch on node kinds *)

Lemma get_opt_of_get (v x : value) (k : string) :
  JS.get v k = Returns x -> JS.get_opt v k = x.
Proof.
  destruct v; simpl; try congruence.
  destruct (k =? "link")%string; congruence.
Qed.

Lemma get_object (v x : value) :
  JS.get v "fsType" = Returns x -> x <> VUndefined -> exists fs, v = VObj fs.
Proof.
  destruct v; simpl; try congruence; eauto.
Qed.

Lemma is_str_false (v : value) (k : string) :
  v <> VStr k -> JS.is_str v k = false.
Proof.
  intros H. destruct v; try reflexivity. simpl.
  destruct (String.eqb_spec s k); [subst; contradiction | reflexivity].
Qed.

Lemma lookup_absent {A : Type} (k : string) (l : list (string * A)) :
  ~ In k (JS.keys l) -> JS.lookup k l = None.
Proof.
  induction l as [|[k' v] l IH]; simpl; intros H; [reflexivity|].
  destruct (String.eqb_spec k k') as [->|Hne]; [tauto|].
  apply IH. tauto.
Qed.

Lemma recognized_fsTypes_labels : recognized_fsTypes = JS.keys Kind.labels.
Proof. reflexivity. Qed.

Lemma of_fsType_default (fsType : value) :
  (forall k, In k recognized_fsTypes -> fsType <> VStr k) ->
  Kind.of_fsType fsType = Kind.Default.
Proof.
  intros H. destruct fsType; try reflexivity. unfold Kind.of_fsType.
  rewrite lookup_absent; [reflexivity|].
  rewrite <- recognized_fsTypes_labels. intros Hin. now apply (H s).
Qed.

(** The registrations a custom mapper made never fail its caller. *)
Lemma replay_registrations_returns (regs : list Registration) (i : nat)
  (m : CaaSMapper) :
  exists m',
    mapM_from i
      (fun r (_ : nat) =>
         fun m0 : CaaSMapper =>
           (Returns tt,
            snd (registerReferencedItem (reg_identifier r) (reg_path r)
                   (reg_remoteProjectId r) (reg_imageMapResolution r) m0)))
      regs m
    = (Returns (map (fun _ => tt) regs), m').
Proof.
  revert i m. induction regs as [|r regs IH]; intros i m; cbn [mapM_from map].
  - eexists. reflexivity.
  - unfold bind. cbv beta iota.
    destruct (IH (S i) (snd (registerReferencedItem (reg_identifier r) (reg_path r)
                               (reg_remoteProjectId r) (reg_imageMapResolution r) m)))
      as (m' & Hrest).
    rewrite Hrest. eexists. reflexivity.
Qed.

Lemma ask_customMapper_none (entry : value) (path : NestedPath) (m : CaaSMapper) :
  customMapper m = None -> ask_customMapper entry path m = (Returns None, m).
Proof.
  intros H. unfold ask_customMapper. run_mapper. rewrite H. reflexivity.
Qed.

Lemma ask_customMapper_defers (entry : value) (path : NestedPath) (m : CaaSMapper)
  (h : CustomMapper) :
  customMapper m = Some h ->
  cm_result (h entry path) = Returns VUndefined ->
  exists m', ask_customMapper entry path m = (Returns None, m').
Proof.
  intros H Hres. unfold ask_customMapper, mapM. run_mapper. rewrite H.
  destruct (replay_registrations_returns (cm_registrations (h entry path)) 0 m)
    as (m' & ->).
  rewrite Hres. eexists. reflexivity.
Qed.

Lemma mapDataEntry_step (ext : Externals) (fuel : nat) :
  mapDataEntry ext (S fuel)
  = mapDataEntry_body ext (mapDataEntry ext fuel)
                      (mapLinksInRichTextElements ext fuel).
Proof. reflexivity. Qed.

(** The built-in dispatch on an entry of unknown kind. *)
Lemma mapDataEntry_default (ext : Externals) (fuel : nat) (m m' : CaaSMapper)
  (entry fsType : value) (path : NestedPath) (rl rp : option string) :
  ask_customMapper entry path m = (Returns None, m') ->
  JS.get entry "fsType" = Returns fsType ->
  Kind.of_fsType fsType = Kind.Default ->
  mapDataEntry ext (S fuel) entry path rl rp m = (Returns entry, m').
Proof.
  intros Hask Hget Hkind. rewrite mapDataEntry_step.
  unfold mapDataEntry_body, bind at 1. rewrite Hask.
  run_mapper. rewrite Hget, Hkind. reflexivity.
Qed.

(** C8, as amended.  A data entry whose [fsType] is none of the labels of the
    dispatch is returned as it is, without an error, whenever the custom
    mapper, if there is one, defers to the built-in dispatch; without a
    custom mapper the mapper object is left as it was. *)
Theorem unknown_kind_passes_through (ext : Externals) (fuel : nat) (m : CaaSMapper)
  (entry fsType : value) (path : NestedPath)
  (remoteProjectLocale remoteProjectId : option string)
  (Hnode : JS.get entry "fsType" = Returns fsType)
  (Hunknown : forall k,
      In k [ "CMS_INPUT_COMBOBOX"; "CMS_INPUT_DOM"; "CMS_INPUT_DOMTABLE";
             "CMS_INPUT_NUMBER"; "CMS_INPUT_TEXT"; "CMS_INPUT_TEXTAREA";
             "CMS_INPUT_RADIOBUTTON"; "CMS_INPUT_DATE"; "CMS_INPUT_LINK";
             "CMS_INPUT_LIST"; "CMS_INPUT_CHECKBOX"; "CMS_INPUT_IMAGEMAP";
             "FS_DATASET"; "CMS_INPUT_TOGGLE"; "FS_CATALOG"; "FS_REFERENCE";
             "FS_INDEX"; "Option"; "CMS_INPUT_PERMISSION" ] ->
      fsType <> VStr k)
  (Hdefers : match customMapper m with
             | Some hook => cm_result (hook entry path) = Returns VUndefined
             | None => True
             end) :
  fst (mapDataEntry ext (S fuel) entry path remoteProjectLocale remoteProjectId m)
  = Returns entry
  /\ (customMapper m = None ->
      mapDataEntry ext (S fuel) entry path remoteProjectLocale remoteProjectId m
      = (Returns entry, m)).
Proof.
  pose proof (of_fsType_default fsType Hunknown) as Hkind.
  split.
  - destruct (customMapper m) as [hook|] eqn:Hhook.
    + destruct (ask_customMapper_defers entry path m hook Hhook Hdefers) as (m' & Hask).
      now rewrite (mapDataEntry_default ext fuel m m' entry fsType path _ _ Hask Hnode Hkind).
    + now rewrite (mapDataEntry_default ext fuel m m entry fsType path _ _
                     (ask_customMapper_none entry path m Hhook) Hnode Hkind).
  - intros Hhook.
    exact (mapDataEntry_default ext fuel m m entry fsType path _ _
             (ask_customMapper_none entry path m Hhook) Hnode Hkind).
Qed.

Lemma unknown_kind_passes_through_witness :
  mapDataEntry Sample.ext 1 Sample.unknown_entry [Key "data"; Key "st_new"] None None
               Sample.mapper
  = (Returns Sample.unknown_entry, Sample.mapper).
Proof.
  apply (unknown_kind_passes_through Sample.ext 0 Sample.mapper Sample.unknown_entry
           (VStr "CMS_INPUT_FUTURE")).
  - reflexivity.
  - intros k Hin. simpl in Hin.
    repeat (destruct Hin as [<-|Hin]; [discriminate|]). destruct Hin.
  - exact I.
  - reflexivity.
Defined.

(** C8 as stated fails when a custom mapper intercepts the entry: its answer
    is returned in place of the entry. *)
Lemma unknown_kind_intercepted :
  JS.get Sample.unknown_entry "fsType" = Returns (VStr "CMS_INPUT_FUTURE")
  /\ ~ In "CMS_INPUT_FUTURE" recognized_fsTypes
  /\ mapDataEntry Sample.ext 1 Sample.unknown_entry [Key "data"; Key "st_new"]
                  None None Sample.hooked_mapper
     = (Returns (VStr "intercepted"), Sample.hooked_mapper)
  /\ VStr "intercepted" <> Sample.unknown_entry.
Proof.
  split; [reflexivity|]. split.
  - intros Hin. simpl in Hin.
    repeat (destruct Hin as [Hin|Hin]; [discriminate|]). destruct Hin.
  - split; [reflexivity | discriminate].
Qed.

(** C6, as amended.  Through [mapDataEntry], an image-map entry without a
    value is mapped to [null]: nothing is thrown and the mapper is left as it
    was (no custom mapper configured).  The error ['ImageMap value is null']
    is raised by [mapImageMap] itself, when it is called on such an entry. *)
Theorem imagemap_without_value_is_null (ext : Externals) (fuel : nat)
  (m : CaaSMapper) (entry : value) (path : NestedPath)
  (remoteProjectLocale remoteProjectId : option string)
  (Hkind : JS.get entry "fsType" = Returns (VStr "CMS_INPUT_IMAGEMAP"))
  (Hmissing : JS.truthy (JS.get_opt entry "value") = false)
  (Hhook : customMapper m = None) :
  mapDataEntry ext (S fuel) entry path remoteProjectLocale remoteProjectId m
  = (Returns VNull, m)
  /\ mapImageMap ext (mapDataEntry ext fuel) entry path
                 remoteProjectLocale remoteProjectId m
     = (Throws (Error "ImageMap value is null"), m).
Proof.
  destruct (get_object entry _ Hkind) as (fs & ->); [discriminate|].
  simpl in Hmissing. split.
  - rewrite mapDataEntry_step. unfold mapDataEntry_body, bind at 1.
    rewrite (ask_customMapper_none _ _ _ Hhook). run_mapper.
    rewrite Hkind. cbn [Kind.of_fsType]. 
    change (JS.lookup "CMS_INPUT_IMAGEMAP" Kind.labels) with (Some Kind.CMS_INPUT_IMAGEMAP).
    cbn [JS.get]. rewrite Hmissing. reflexivity.
  - unfold mapImageMap. run_mapper. cbn [JS.get]. rewrite Hmissing. reflexivity.
Qed.

Lemma imagemap_without_value_is_null_witness :
  mapDataEntry Sample.ext 1 Sample.imagemap_without_value [Key "data"; Key "st_map"]
               None None Sample.mapper
  = (Returns VNull, Sample.mapper).
Proof.
  apply (imagemap_without_value_is_null Sample.ext 0 Sample.mapper
           Sample.imagemap_without_value); reflexivity.
Defined.

(** C6 as stated fails: mapping an image-map entry without a value raises
    nothing and yields [null]. *)
Lemma imagemap_without_value_not_fatal :
  JS.get Sample.imagemap_without_value "fsType" = Returns (VStr "CMS_INPUT_IMAGEMAP")
  /\ JS.get Sample.imagemap_without_value "value" = Returns VNull
  /\ mapDataEntry Sample.ext 1 Sample.imagemap_without_value
                  [Key "data"; Key "st_map"] None None Sample.mapper
     = (Returns VNull, Sample.mapper)
  /\ ~ (exists e m',
          mapDataEntry Sample.ext 1 Sample.imagemap_without_value
                       [Key "data"; Key "st_map"] None None Sample.mapper
          = (Throws e, m')).
Proof.
  split; [reflexivity|]. split; [reflexivity|]. split; [reflexivity|].
  intros (e & m' & H). discriminate H.
Qed.

(** C7.  [mapBodyContent] on a node whose [fsType] is none of
    [Content2Section], [Section], [SectionReference] and [GCASection] throws
    the error [UNKNOWN_BODY_CONTENT] naming that [fsType], and leaves the
    mapper as it was; the same node handed to [mapDataEntry] as an entry of
    unknown kind is returned as it is. *)
Theorem unknown_body_content_throws (ext : Externals) (fuel : nat) (m : CaaSMapper)
  (content fsType : value) (path : NestedPath)
  (remoteProjectLocale remoteProjectId : option string)
  (Hnode : JS.get content "fsType" = Returns fsType)
  (Hunknown : forall k,
      In k ["Content2Section"; "Section"; "SectionReference"; "GCASection"] ->
      fsType <> VStr k) :
  mapBodyContent ext fuel content path remoteProjectLocale remoteProjectId m
  = (Throws (Error ("Unknown BodyContent could not be mapped. fsType=["
                      ++ JS.toString fsType ++ "]")), m)
  /\ (customMapper m = None ->
      Kind.of_fsType fsType = Kind.Default ->
      mapDataEntry ext (S fuel) content path remoteProjectLocale remoteProjectId m
      = (Returns content, m)).
Proof.
  split.
  - unfold mapBodyContent. run_mapper. rewrite Hnode.
    rewrite !is_str_false by (apply Hunknown; simpl; tauto).
    rewrite (get_opt_of_get _ _ _ Hnode). reflexivity.
  - intros Hhook Hkind.
    exact (mapDataEntry_default ext fuel m m content fsType path _ _
             (ask_customMapper_none content path m Hhook) Hnode Hkind).
Qed.

Lemma unknown_body_content_throws_witness :
  mapBodyContent Sample.ext 3 Sample.unknown_content
                 [Key "page1.en_GB"; Key "children"; Index 0; Key "children"; Index 0]
                 None None Sample.mapper
  = (Throws (Error "Unknown BodyContent could not be mapped. fsType=[Teaser]"),
     Sample.mapper).
Proof.
  apply (unknown_body_content_throws Sample.ext 3 Sample.mapper Sample.unknown_content
           (VStr "Teaser")).
  - reflexivity.
  - intros k Hin. simpl in Hin.
    repeat (destruct Hin as [<-|Hin]; [discriminate|]). destruct Hin.
Defined.

(** ** A response without documents *)

Lemma documents_of_empty (data : value) :
  without_documents data -> documents_of data = Returns (VArr []).
Proof.
  intros (embedded & Hget & H). unfold documents_of. rewrite Hget. simpl.
  destruct H as [->|(docs & Hdocs & H)]; [reflexivity|].
  destruct (JS.truthy embedded); [|reflexivity]. simpl.
  rewrite Hdocs. simpl.
  destruct H as [->| ->]; reflexivity.
Qed.

(** C10.  When the request is sent and answered with a body without
    documents, [fetchByFilter] returns the fixed response with [page = 1] and
    [pagesize = 30], whatever page and page size were asked for.  The mapper
    argument comes back as it went in: none is constructed when none was
    passed, and a mapper that was passed has mapped, registered, cached and
    fetched nothing.  The result does not depend on what further calls of
    [fetchByFilter] would do. *)
Theorem fetchByFilter_without_documents (ext : Externals) (fuel rounds : nat)
  (this : FSXARemoteApi) (params : FetchByFilterParams)
  (mapper : option CaaSMapper) (url : string) (data : value)
  (Hurl : buildCaaSUrl ext this
            (caas_request params (effective_page params) (effective_pagesize params))
          = Returns url)
  (Hok : ok (fetch ext url (fp_fetchOptions params)) = true)
  (Hjson : json (fetch ext url (fp_fetchOptions params)) = Returns data)
  (Hempty : without_documents data) :
  fetchByFilter ext fuel (S rounds) this params mapper
  = (Returns {| fr_page := 1; fr_pagesize := 30; fr_totalPages := VUndefined;
                fr_size := VUndefined; fr_items := [];
                fr_referenceMap := None; fr_resolvedReferences := None |},
     mapper)
  /\ forall rec : FSXARemoteApi -> ApiCall,
       fetchByFilter_body ext fuel rec this params mapper
       = (Returns {| fr_page := 1; fr_pagesize := 30; fr_totalPages := VUndefined;
                     fr_size := VUndefined; fr_items := [];
                     fr_referenceMap := None; fr_resolvedReferences := None |},
          mapper).
Proof.
  assert (H : forall rec : FSXARemoteApi -> ApiCall,
             fetchByFilter_body ext fuel rec this params mapper
             = (Returns empty_response, mapper)).
  { intros rec. unfold fetchByFilter_body. cbv zeta.
    rewrite Hurl. cbn [api_step]. rewrite Hok. cbn [negb].
    rewrite Hjson. cbn [api_step]. rewrite (documents_of_empty _ Hempty).
    reflexivity. }
  split; [apply H | exact H].
Qed.

Lemma fetchByFilter_without_documents_witness :
  fetchByFilter Sample.ext 5 1 Sample.remoteApi Sample.page_request None
  = (Returns {| fr_page := 1; fr_pagesize := 30; fr_totalPages := VUndefined;
                fr_size := VUndefined; fr_items := [];
                fr_referenceMap := None; fr_resolvedReferences := None |},
     None).
Proof.
  apply (fetchByFilter_without_documents Sample.ext 5 0 Sample.remoteApi
           Sample.page_request None
           "https://caas.test/tenant/project.preview.content" (VObj [])).
  - reflexivity.
  - reflexivity.
  - reflexivity.
  - exists VUndefined. split; [reflexivity | left; reflexivity].
Defined.

(** ** Batches *)

Section Chunk.

Context {A : Type}.

Lemma chunk_nil (size : nat) : chunk (@nil A) size = [].
Proof.
  unfold chunk. destruct (size =? 0)%nat eqn:E; [reflexivity|].
  apply Nat.eqb_neq in E. simpl.
  rewrite Nat.div_small by lia. reflexivity.
Qed.

Lemma chunk_count (array : list A) (size : nat) :
  (0 < size)%nat ->
  length (chunk array size) = ((length array + size - 1) / size)%nat.
Proof.
  intros H. unfold chunk.
  destruct (Nat.eqb_spec size 0); [lia|].
  now rewrite length_map, length_seq.
Qed.

Lemma chunk_cons (array : list A) (size : nat) :
  (0 < size)%nat -> array <> [] ->
  chunk array size = firstn size array :: chunk (skipn size array) size.
Proof.
  intros Hsize Hne. unfold chunk.
  destruct (Nat.eqb_spec size 0); [lia|].
  assert (Hlen : (0 < length array)%nat) by (destruct array; [contradiction | simpl; lia]).
  assert (Hcount : ((length array + size - 1) / size
                    = S ((length (skipn size array) + size - 1) / size))%nat).
  { rewrite length_skipn.
    destruct (Nat.le_gt_cases (length array) size) as [Hle|Hgt].
    - replace (length array - size)%nat with 0%nat by lia.
      rewrite (Nat.div_small (0 + size - 1)) by lia.
      symmetry. apply Nat.div_unique with (r := (length array - 1)%nat); lia.
    - replace (length array + size - 1)%nat
        with ((length array - size + size - 1) + 1 * size)%nat by lia.
      rewrite Nat.div_add by lia. lia. }
  rewrite Hcount. cbn [seq map]. rewrite Nat.mul_0_l. cbn [skipn]. f_equal.
  rewrite <- seq_shift, map_map.
  apply map_ext. intros i. rewrite skipn_skipn. f_equal. f_equal. lia.
Qed.

Lemma chunk_spec (array : list A) (size : nat) :
  (0 < size)%nat ->
  concat (chunk array size) = array /\ full_but_last size (chunk array size).
Proof.
  intros Hsize.
  remember (length array) as n eqn:Hn.
  revert array Hn. induction n as [n IH] using lt_wf_ind. intros array Hn.
  destruct array as [|x rest] eqn:Harray.
  - rewrite chunk_nil. split; [reflexivity | exact I].
  - rewrite <- Harray in *. assert (Hne : array <> []) by (subst; discriminate).
    rewrite (chunk_cons array size Hsize Hne).
    assert (Hlen : (0 < length array)%nat) by (subst array; simpl; lia).
    destruct (IH (length (skipn size array))) with (array := skipn size array)
      as [Hcat Hfull]; [rewrite length_skipn; lia | reflexivity |].
    split.
    + cbn [concat]. rewrite Hcat. apply firstn_skipn.
    + destruct (skipn size array) as [|y more] eqn:Hskip.
      * rewrite chunk_nil in *. cbn [full_but_last].
        rewrite length_firstn.
        assert (length (skipn size array) = 0)%nat by now rewrite Hskip.
        rewrite length_skipn in *. lia.
      * destruct (chunk (y :: more) size) as [|b bs] eqn:Hchunk.
        { rewrite chunk_cons in Hchunk by (try assumption; discriminate).
          discriminate. }
        cbn [full_but_last]. split; [|exact Hfull].
        rewrite length_firstn.
        assert (length (skipn size array) = S (length more))%nat
          by now rewrite Hskip.
        rewrite length_skipn in *. lia.
Qed.

Lemma chunk_65 (array : list A) :
  length array = 65%nat -> map (@length A) (chunk array 30) = [30; 30; 5]%nat.
Proof.
  intros H. unfold chunk. rewrite H. cbn [Nat.eqb].
  change ((65 + 30 - 1) / 30)%nat with 3%nat.
  cbn [seq map]. rewrite !length_firstn, !length_skipn, H. reflexivity.
Qed.

End Chunk.

(** ** One resolution round of a project *)

Lemma js_substring_middle (a b c : string) :
  JS.substring (a ++ b ++ c) (Z.of_nat (String.length a))
               (Z.of_nat (String.length a + String.length b)) = b.
Proof.
  unfold JS.substring, JS.clamp.
  rewrite !string_length_append.
  replace (Z.max 0 (Z.min (Z.of_nat (String.length a)) _))
    with (Z.of_nat (String.length a)) by lia.
  replace (Z.max 0 (Z.min (Z.of_nat (String.length a + String.length b)) _))
    with (Z.of_nat (String.length a + String.length b)) by lia.
  rewrite Z.min_l, Z.max_r by lia.
  replace (Z.of_nat (String.length a + String.length b) - Z.of_nat (String.length a))
    with (Z.of_nat (String.length b)) by lia.
  rewrite !Nat2Z.id, substring_skip. apply substring_prefix.
Qed.

(** The id of the content store is recovered from a canonical id of a
    remote project. *)
Lemma store_id_remote (key uuid loc : string) :
  JS.find_char "#" key = None ->
  JS.find_char "." key = None ->
  JS.find_char "." uuid = None ->
  store_id (key ++ "#" ++ uuid ++ "." ++ loc) = uuid.
Proof.
  intros Hkey Hkeydot Huuid. unfold store_id, JS.indexOf.
  change (key ++ "#" ++ uuid ++ "." ++ loc)
    with (key ++ String "#" (uuid ++ String "." loc)).
  rewrite (find_char_append_absent "#" key _ Hkey).
  rewrite (find_char_append_none "." key _ Hkeydot).
  cbn [JS.find_char]. change (Ascii.eqb "#" ".") with false. cbv iota.
  rewrite (find_char_append_absent "." uuid _ Huuid).
  change (key ++ String "#" (uuid ++ String "." loc))
    with (key ++ "#" ++ (uuid ++ String "." loc)).
  rewrite <- string_append_assoc.
  replace (Z.of_nat (String.length key) + 1)
    with (Z.of_nat (String.length (key ++ "#")))
    by (rewrite string_length_append; simpl; lia).
  replace (String.length key + S (String.length uuid))%nat
    with (String.length (key ++ "#") + String.length uuid)%nat
    by (rewrite string_length_append; simpl; lia).
  apply js_substring_middle.
Qed.

(** The same for a canonical id of the local project. *)
Lemma store_id_local (uuid loc : string) :
  JS.find_char "." uuid = None ->
  JS.find_char "#" uuid = None ->
  JS.find_char "#" loc = None ->
  store_id (uuid ++ "." ++ loc) = uuid.
Proof.
  intros Hdot Hhash Hloc. unfold store_id, JS.indexOf.
  change (uuid ++ "." ++ loc) with (uuid ++ String "." loc).
  rewrite (find_char_append_none "#" uuid _ Hhash).
  cbn [JS.find_char]. change (Ascii.eqb "." "#") with false. cbv iota.
  rewrite Hloc, (find_char_append_absent "." uuid _ Hdot).
  change (-1 + 1) with 0. apply js_substring_prefix.
Qed.

Lemma issue_all_run (requests : list FetchByFilterParams) (i : nat) (m : CaaSMapper) :
  mapM_from i (fun request (_ : nat) => modify (add_issued request)) requests m
  = (Returns (map (fun _ => tt) requests), issue_all requests m).
Proof.
  revert i m. induction requests as [|r requests IH]; intros i m.
  - reflexivity.
  - cbn [mapM_from map issue_all fold_left]. unfold bind at 1, modify at 1.
    unfold bind at 1. rewrite IH. reflexivity.
Qed.

Lemma issue_all_fields (requests : list FetchByFilterParams) (m : CaaSMapper) :
  issued (issue_all requests m) = (issued m ++ requests)%list
  /\ resolvedReferences (issue_all requests m) = resolvedReferences m
  /\ _referencedItems (issue_all requests m) = _referencedItems m
  /\ _remoteReferences (issue_all requests m) = _remoteReferences m
  /\ referenceDepth (issue_all requests m) = referenceDepth m
  /\ maxReferenceDepth (issue_all requests m) = maxReferenceDepth m
  /\ logged (issue_all requests m) = logged m.
Proof.
  revert m. induction requests as [|r requests IH]; intros m.
  - cbn [issue_all fold_left]. rewrite app_nil_r. repeat split.
  - cbn [issue_all fold_left].
    destruct (IH (add_issued r m)) as (H1 & H2 & H3 & H4 & H5 & H6 & H7).
    unfold issue_all in *. rewrite H1, H2, H3, H4, H5, H6, H7.
    cbn [add_issued issued]. rewrite <- app_assoc. repeat split.
Qed.

Lemma referencedItems_of_ready (m : CaaSMapper) (remoteProjectId : option string)
  (registry : ReferencedItemsInfo) :
  registry_for m remoteProjectId = Some registry ->
  referencedItems_of remoteProjectId m = (Returns registry, m).
Proof.
  unfold registry_for, referencedItems_of. run_mapper.
  destruct remoteProjectId as [p|]; [destruct (JS.truthy_str p)|];
    intros H; try rewrite H; congruence.
Qed.

Lemma round_locale_own (m : CaaSMapper) (remoteProjectId : option string) :
  round_locale m remoteProjectId
  = Some match own_locale (getRemoteConfigForProject m remoteProjectId) with
         | Some l => l
         | None => locale m
         end.
Proof.
  unfold round_locale, own_locale, JS.or_opt, JS.truthy_opt, JS.truthy_str.
  destruct (getRemoteConfigForProject m remoteProjectId) as [cfg|]; [|reflexivity].
  destruct (rp_locale cfg) as [l|]; [|reflexivity].
  destruct (l =? "")%string; reflexivity.
Qed.

Lemma resolveReferencesPerProject_run
  (api_fetchByFilter : FetchByFilterParams -> M FetchResponse)
  (m : CaaSMapper) (remoteProjectId : option string) (filterContext : value)
  (registry : ReferencedItemsInfo) :
  registry_for m remoteProjectId = Some registry ->
  resolveReferencesPerProject api_fetchByFilter remoteProjectId filterContext m
  = (Returns (await_all (map api_fetchByFilter
                           (round_requests m remoteProjectId filterContext registry))
              ;;; ret tt),
     issue_all (round_requests m remoteProjectId filterContext registry) m).
Proof.
  intros Hregistry.
  unfold resolveReferencesPerProject, bind at 1.
  rewrite (referencedItems_of_ready _ _ _ Hregistry). run_mapper.
  unfold round_requests, round_locale.
  change (Z.to_nat REFERENCED_ITEMS_CHUNK_SIZE) with 30%nat.
  destruct (idsToFetchFromCaaS registry (resolvedReferences m)) as [|x ids] eqn:Hids.
  - rewrite chunk_nil. reflexivity.
  - cbn [length Nat.ltb Nat.leb]. unfold mapM. rewrite issue_all_run. reflexivity.
Qed.

(** C2, as amended.  A round of a project computes the registry keys that
    are not keys of the cache, in the order of the registry, cuts each
    between its first ['#'] and its first ['.'], and splits that list into
    batches of 30, the last batch holding the remainder.  One
    [fetchByFilter] call is issued per batch, with the batch as the value of
    an [identifier IN] filter, and the pending rest of the round awaits
    exactly these calls; registry and cache are not changed by issuing.  65
    unresolved ids give three batches of 30, 30 and 5 ids.  The cut yields
    the id of the store, without the project prefix and the locale suffix,
    when the key of the project has no ['.'] and no ['#'] in it and the id of
    the store no ['.']; and for a local key, when the id of the store has no
    ['.'] and no ['#'] and the locale no ['#']. *)
Theorem round_fetches_unresolved_in_batches
  (api_fetchByFilter : FetchByFilterParams -> M FetchResponse)
  (m : CaaSMapper) (remoteProjectId : option string) (filterContext : value)
  (registry : ReferencedItemsInfo)
  (Hregistry : registry_for m remoteProjectId = Some registry) :
  let unresolved :=
    filter (fun id => negb (existsb (String.eqb id) (JS.keys (resolvedReferences m))))
           (JS.keys registry) in
  let batches := chunk (map store_id unresolved) 30 in
  let requestLocale :=
    match own_locale (getRemoteConfigForProject m remoteProjectId) with
    | Some l => l
    | None => locale m
    end in
  exists pending m',
    let requests :=
      map (fun batch =>
             chunk_request batch (Some requestLocale) remoteProjectId filterContext)
          batches in
    resolveReferencesPerProject api_fetchByFilter remoteProjectId filterContext m
    = (Returns pending, m')
    /\ (forall id,
          In id unresolved
          <-> In id (JS.keys registry) /\ ~ In id (JS.keys (resolvedReferences m)))
    /\ issued m' = (issued m ++ requests)%list
    /\ map (fun request => map q_value (fp_filters request)) requests
       = map (fun batch => [VArr (map VStr batch)]) batches
    /\ pending = (await_all (map api_fetchByFilter requests) ;;; ret tt)
    /\ resolvedReferences m' = resolvedReferences m
    /\ _referencedItems m' = _referencedItems m
    /\ _remoteReferences m' = _remoteReferences m
    /\ concat batches = map store_id unresolved
    /\ full_but_last 30 batches
    /\ length batches = ((length unresolved + 29) / 30)%nat
    /\ (length unresolved = 65%nat -> map (@length string) batches = [30; 30; 5]%nat)
    /\ (forall key uuid loc,
          JS.find_char "#" key = None -> JS.find_char "." key = None ->
          JS.find_char "." uuid = None ->
          store_id (key ++ "#" ++ uuid ++ "." ++ loc) = uuid)
    /\ (forall uuid loc,
          JS.find_char "." uuid = None -> JS.find_char "#" uuid = None ->
          JS.find_char "#" loc = None ->
          store_id (uuid ++ "." ++ loc) = uuid).
Proof.
  intros unresolved batches requestLocale.
  do 2 eexists. cbv zeta.
  split.
  { rewrite (resolveReferencesPerProject_run api_fetchByFilter m remoteProjectId
               filterContext registry Hregistry).
    unfold round_requests. rewrite round_locale_own. reflexivity. }
  destruct (issue_all_fields
              (map (fun batch =>
                      chunk_request batch (Some requestLocale)
                                    remoteProjectId filterContext) batches) m)
    as (Hi & Hc & Hl & Hr & _).
  destruct (chunk_spec (map store_id unresolved) 30) as [Hcat Hfull]; [lia|].
  split.
  { intros id. subst unresolved. rewrite filter_In, negb_true_iff.
    split; intros [Hin Hnot]; split; try exact Hin.
    - intros Hc'. apply not_true_iff_false in Hnot. apply Hnot.
      apply existsb_exists. exists id. split; [exact Hc' | apply String.eqb_refl].
    - apply not_true_iff_false. intros Hex. apply existsb_exists in Hex.
      destruct Hex as (k & Hk & Heq). apply String.eqb_eq in Heq. subst k.
      contradiction. }
  split; [exact Hi|].
  split; [rewrite map_map; reflexivity|].
  split; [reflexivity|].
  split; [exact Hc|]. split; [exact Hl|]. split; [exact Hr|].
  split; [exact Hcat|]. split; [exact Hfull|].
  split.
  { subst batches. rewrite chunk_count, length_map by lia. f_equal. lia. }
  split.
  { intros H65. apply chunk_65. now rewrite length_map. }
  split; [exact store_id_remote | exact store_id_local].
Qed.

Lemma round_fetches_unresolved_in_batches_witness :
  exists pending m',
    resolveReferencesPerProject Sample.no_fetch None VUndefined Sample.round_mapper
    = (Returns pending, m')
    /\ issued m' = [chunk_request ["m1"] (Some "en_GB") None VUndefined].
Proof.
  destruct (round_fetches_unresolved_in_batches Sample.no_fetch Sample.round_mapper
              None VUndefined (_referencedItems Sample.round_mapper) eq_refl)
    as (pending & m' & Hrun & _ & Hissued & _).
  exists pending, m'. split; [exact Hrun | exact Hissued].
Defined.

(** C2 as stated fails for a remote project whose id has a ['.'] in it: the
    id sent to the store is cut between the first ['.'] and the first ['#']
    of the registry key, and is not the id of the element. *)
Lemma store_id_of_dotted_project :
  fst (registerReferencedItem "abc" [Key "page1.en_GB"; Key "data"; Key "st_image"]
                              (Some "my.proj") None SampleSite.dotted_mapper)
  = Returns "[REFERENCED-REMOTE-ITEM-my.proj#abc.en_GB]"
  /\ registered SampleSite.dotted_pending (Some "my.proj") "my.proj#abc.en_GB"
     = Some [[Key "page1.en_GB"; Key "data"; Key "st_image"]]
  /\ JS.keys (resolvedReferences SampleSite.dotted_pending) = []
  /\ (exists pending,
        fst (resolveReferencesPerProject Sample.no_fetch (Some "my.proj") VUndefined
                                         SampleSite.dotted_pending)
        = Returns pending)
  /\ issued (snd (resolveReferencesPerProject Sample.no_fetch (Some "my.proj")
                                              VUndefined SampleSite.dotted_pending))
     = [chunk_request [".proj#"] (Some "en_GB") (Some "my.proj") VUndefined]
  /\ store_id "my.proj#abc.en_GB" = ".proj#"
  /\ store_id "my.proj#abc.en_GB" <> "abc".
Proof.
  split; [reflexivity|]. split; [reflexivity|]. split; [reflexivity|].
  split; [eexists; reflexivity|].
  split; [reflexivity|]. split; [reflexivity|]. discriminate.
Qed.

(** ** More fuel changes nothing

    Where a call has enough fuel to end, it ends in the same way with any
    larger amount. *)

Lemma refines_refl {A : Type} (c : M A) : refines c c.
Proof. intros m _. reflexivity. Qed.

Lemma refines_trans {A : Type} (c1 c2 c3 : M A) :
  refines c1 c2 -> refines c2 c3 -> refines c1 c3.
Proof.
  intros H12 H23 m H. rewrite (H12 m H). apply H23. now rewrite <- (H12 m H).
Qed.

Lemma refines_bind {A B : Type} (c1 c2 : M A) (k1 k2 : A -> M B) :
  refines c1 c2 -> (forall a, refines (k1 a) (k2 a)) ->
  refines (bind c1 k1) (bind c2 k2).
Proof.
  intros Hc Hk m H. unfold bind in *. specialize (Hc m).
  destruct (c1 m) as [[a|e| |] m1]; cbn [fst] in *.
  - rewrite <- Hc by discriminate. now apply Hk.
  - now rewrite <- Hc by discriminate.
  - contradiction.
  - now rewrite <- Hc by discriminate.
Qed.

Lemma refines_mapM_from {A B : Type} (f1 f2 : A -> nat -> M B) (xs : list A) (i : nat) :
  (forall x j, refines (f1 x j) (f2 x j)) ->
  refines (mapM_from i f1 xs) (mapM_from i f2 xs).
Proof.
  intros Hf. revert i. induction xs as [|x xs IH]; intros i; cbn [mapM_from].
  - apply refines_refl.
  - apply refines_bind; [apply Hf|]. intros y.
    apply refines_bind; [apply IH|]. intros ys. apply refines_refl.
Qed.

Lemma refines_mapM {A B : Type} (f1 f2 : A -> nat -> M B) (xs : list A) :
  (forall x j, refines (f1 x j) (f2 x j)) -> refines (mapM f1 xs) (mapM f2 xs).
Proof. apply refines_mapM_from. Qed.

Lemma refines_array_mapM (v : value) (f1 f2 : value -> nat -> M value) :
  (forall x j, refines (f1 x j) (f2 x j)) ->
  refines (array_mapM v f1) (array_mapM v f2).
Proof.
  intros Hf. destruct v; cbn [array_mapM]; try apply refines_refl.
  now apply refines_mapM.
Qed.

Create HintDb refines.

Ltac refines_step :=
  first
    [ solve [auto with refines]
    | match goal with
      | |- refines (let _ := _ in _) _ => cbv zeta
      | |- refines (if ?b then _ else _) (if ?b then _ else _) => destruct b
      | |- refines (match ?x with _ => _ end) (match ?x with _ => _ end) => destruct x
      | |- refines (mapM _ _) (mapM _ _) => apply refines_mapM; intros ? ?
      | |- refines (array_mapM _ _) (array_mapM _ _) =>
          apply refines_array_mapM; intros ? ?
      | |- refines (bind _ _) (bind _ _) => apply refines_bind; [|intro]
      end
    | apply refines_refl ].

Ltac refines_tac := repeat refines_step.

Section TreeFuel.

Variable ext : Externals.
Variables rec1 rec2 : DataEntryMapper.
Variables links1 links2 : RichTextMapper.
Hypothesis refines_rec : forall e p rl rp, refines (rec1 e p rl rp) (rec2 e p rl rp).
Hypothesis refines_links :
  forall l p rl rp, refines (links1 l p rl rp) (links2 l p rl rp).

Lemma refines_mapDataEntries (entries : value) (path : NestedPath)
  (rl rp : option string) :
  refines (mapDataEntries rec1 entries path rl rp)
          (mapDataEntries rec2 entries path rl rp).
Proof. unfold mapDataEntries. refines_tac. Qed.

Local Hint Resolve refines_mapDataEntries : refines.

Lemma refines_mapSection (section : value) (path : NestedPath) (rl rp : option string) :
  refines (mapSection rec1 section path rl rp) (mapSection rec2 section path rl rp).
Proof. unfold mapSection. refines_tac. Qed.

Lemma refines_mapImageMapArea (area : value) (path : NestedPath)
  (rl rp : option string) :
  refines (mapImageMapArea ext rec1 area path rl rp)
          (mapImageMapArea ext rec2 area path rl rp).
Proof. unfold mapImageMapArea. refines_tac. Qed.

Local Hint Resolve refines_mapSection refines_mapImageMapArea : refines.

Lemma refines_mapImageMap (imageMap : value) (path : NestedPath)
  (rl rp : option string) :
  refines (mapImageMap ext rec1 imageMap path rl rp)
          (mapImageMap ext rec2 imageMap path rl rp).
Proof. unfold mapImageMap. refines_tac. Qed.

Lemma refines_mapLinksInRichTextElement (path : NestedPath) (rl rp : option string)
  (element : value) (index : nat) :
  refines (mapLinksInRichTextElement rec1 links1 path rl rp element index)
          (mapLinksInRichTextElement rec2 links2 path rl rp element index).
Proof. unfold mapLinksInRichTextElement. refines_tac. Qed.

Local Hint Resolve refines_mapImageMap refines_mapLinksInRichTextElement : refines.

Lemma refines_mapLinksInRichTextElements_body (l : list value) (path : NestedPath)
  (rl rp : option string) :
  refines (mapLinksInRichTextElements_body rec1 links1 l path rl rp)
          (mapLinksInRichTextElements_body rec2 links2 l path rl rp).
Proof. unfold mapLinksInRichTextElements_body. refines_tac. Qed.

Lemma refines_mapChildren (v : value) (path : NestedPath) (rl rp : option string) :
  refines (mapChildren rec1 v path rl rp) (mapChildren rec2 v path rl rp).
Proof. unfold mapChildren. refines_tac. Qed.

Lemma refines_mapCard (path : NestedPath) (rl rp : option string) (card : value)
  (index : nat) :
  refines (mapCard rec1 path rl rp card index) (mapCard rec2 path rl rp card index).
Proof. unfold mapCard. refines_tac. Qed.

Local Hint Resolve refines_mapChildren refines_mapCard : refines.

Lemma refines_mapDataEntry_body (entry : value) (path : NestedPath)
  (rl rp : option string) :
  refines (mapDataEntry_body ext rec1 links1 entry path rl rp)
          (mapDataEntry_body ext rec2 links2 entry path rl rp).
Proof. unfold mapDataEntry_body. refines_tac. Qed.

End TreeFuel.

Lemma refines_knot_step (ext : Externals) (fuel : nat) :
  (forall e p rl rp,
      refines (mapDataEntry ext fuel e p rl rp) (mapDataEntry ext (S fuel) e p rl rp))
  /\ (forall l p rl rp,
         refines (mapLinksInRichTextElements ext fuel l p rl rp)
                 (mapLinksInRichTextElements ext (S fuel) l p rl rp)).
Proof.
  induction fuel as [|fuel [IHe IHl]].
  - split; intros; intros m H; exfalso; apply H; reflexivity.
  - split; intros.
    + apply (refines_mapDataEntry_body ext _ _ _ _ IHe IHl).
    + apply (refines_mapLinksInRichTextElements_body _ _ _ _ IHe IHl).
Qed.

Lemma mapDataEntry_fuel_le (ext : Externals) (fuel fuel' : nat) :
  (fuel <= fuel')%nat ->
  forall e p rl rp,
    refines (mapDataEntry ext fuel e p rl rp) (mapDataEntry ext fuel' e p rl rp).
Proof.
  induction 1 as [|fuel' _ IH]; intros.
  - apply refines_refl.
  - eapply refines_trans; [apply IH | apply refines_knot_step].
Qed.

(** ** What the methods leave unchanged *)

Section Preservation.

(** A relation between the mapper before and after a call that is
    reflexive, transitive and closed under logging and registration. *)
Variable R : CaaSMapper -> CaaSMapper -> Prop.
Hypothesis R_refl : forall m, R m m.
Hypothesis R_trans : forall m1 m2 m3, R m1 m2 -> R m2 m3 -> R m1 m3.
Hypothesis R_logged : forall e m, R m (add_logged e m).
Hypothesis R_referencedItems : forall r m, R m (set_referencedItems r m).
Hypothesis R_remoteReferences : forall r m, R m (set_remoteReferences r m).

Lemma keeps_ret {A : Type} (a : A) : keeps R (ret a).
Proof. intros m. apply R_refl. Qed.

Lemma keeps_throw {A : Type} (e : exn) : keeps R (@throw A e).
Proof. intros m. apply R_refl. Qed.

Lemma keeps_lift {A : Type} (o : outcome A) : keeps R (lift o).
Proof. intros m. apply R_refl. Qed.

Lemma keeps_getM (v : value) (k : string) : keeps R (getM v k).
Proof. intros m. apply R_refl. Qed.

Lemma keeps_gets {A : Type} (f : CaaSMapper -> A) : keeps R (gets f).
Proof. intros m. apply R_refl. Qed.

Lemma keeps_warn (msg : string) (args : list value) : keeps R (warn msg args).
Proof. intros m. apply R_logged. Qed.

Lemma keeps_bind {A B : Type} (c : M A) (k : A -> M B) :
  keeps R c -> (forall a, keeps R (k a)) -> keeps R (bind c k).
Proof.
  intros Hc Hk m. unfold bind. specialize (Hc m).
  destruct (c m) as [[a|e| |] m']; cbn [snd] in *; try exact Hc.
  eapply R_trans; [exact Hc | apply Hk].
Qed.

Lemma keeps_mapM_from {A B : Type} (f : A -> nat -> M B) (xs : list A) (i : nat) :
  (forall x j, keeps R (f x j)) -> keeps R (mapM_from i f xs).
Proof.
  intros Hf. revert i. induction xs as [|x xs IH]; intros i; cbn [mapM_from].
  - apply keeps_ret.
  - apply keeps_bind; [apply Hf|]. intros y.
    apply keeps_bind; [apply IH|]. intros ys. apply keeps_ret.
Qed.

Lemma keeps_mapM {A B : Type} (f : A -> nat -> M B) (xs : list A) :
  (forall x j, keeps R (f x j)) -> keeps R (mapM f xs).
Proof. apply keeps_mapM_from. Qed.

Lemma keeps_array_mapM (v : value) (f : value -> nat -> M value) :
  (forall x j, keeps R (f x j)) -> keeps R (array_mapM v f).
Proof.
  intros Hf. destruct v; cbn [array_mapM];
    try apply keeps_throw. now apply keeps_mapM.
Qed.

Lemma keeps_modify (f : CaaSMapper -> CaaSMapper) :
  (forall m, R m (f m)) -> keeps R (modify f).
Proof. intros H m. apply H. Qed.

Create HintDb keeps.

Ltac keeps_step :=
  first
    [ solve [auto with keeps]
    | apply keeps_ret | apply keeps_throw | apply keeps_lift | apply keeps_getM
    | apply keeps_gets | apply keeps_warn
    | match goal with
      | |- keeps _ (let _ := _ in _) => cbv zeta
      | |- keeps _ (if ?b then _ else _) => destruct b
      | |- keeps _ (match ?x with _ => _ end) => destruct x
      | |- keeps _ (modify _) => apply keeps_modify; intro; auto
      | |- keeps _ (mapM _ _) => apply keeps_mapM; intros ? ?
      | |- keeps _ (array_mapM _ _) => apply keeps_array_mapM; intros ? ?
      | |- keeps _ (bind _ _) => apply keeps_bind; [|intro]
      end ].

Ltac keeps_tac := repeat keeps_step.

Lemma keeps_remoteData_for (shown : string) (rp : option string) :
  keeps R (remoteData_for shown rp).
Proof. unfold remoteData_for. keeps_tac. Qed.

Local Hint Resolve keeps_remoteData_for : keeps.

Lemma keeps_registerReferencedItem (identifier : string) (path : NestedPath)
  (rp res : option string) :
  keeps R (registerReferencedItem identifier path rp res).
Proof.
  unfold registerReferencedItem. keeps_tac.
Qed.


Local Hint Resolve keeps_registerReferencedItem : keeps.

Lemma keeps_registerReferencedItem_dyn (identifier : value) (path : NestedPath)
  (rp res : option string) :
  keeps R (registerReferencedItem_dyn identifier path rp res).
Proof. unfold registerReferencedItem_dyn. keeps_tac. Qed.

Lemma keeps_buildPreviewId (identifier : value) (rl : option string) :
  keeps R (buildPreviewId identifier rl).
Proof. unfold buildPreviewId. keeps_tac. Qed.

Lemma keeps_buildMediaUrl (url rev : value) : keeps R (buildMediaUrl url rev).
Proof. unfold buildMediaUrl. keeps_tac. Qed.

Local Hint Resolve keeps_registerReferencedItem_dyn keeps_buildPreviewId
  keeps_buildMediaUrl : keeps.

Section Tree.

Variable ext : Externals.
Variable rec : DataEntryMapper.
Variable links : RichTextMapper.
Hypothesis keeps_rec : forall e p rl rp, keeps R (rec e p rl rp).
Hypothesis keeps_links : forall l p rl rp, keeps R (links l p rl rp).

Lemma keeps_mapDataEntries (entries : value) (path : NestedPath)
  (rl rp : option string) :
  keeps R (mapDataEntries rec entries path rl rp).
Proof. unfold mapDataEntries. keeps_tac. Qed.

Lemma keeps_mapPermissionGroup (group : value) : keeps R (_mapPermissionGroup group).
Proof. unfold _mapPermissionGroup. keeps_tac. Qed.

Local Hint Resolve keeps_mapDataEntries keeps_mapPermissionGroup : keeps.

Lemma keeps_mapSection (section : value) (path : NestedPath) (rl rp : option string) :
  keeps R (mapSection rec section path rl rp).
Proof. unfold mapSection. keeps_tac. Qed.

Lemma keeps_mapImageMapArea (area : value) (path : NestedPath)
  (rl rp : option string) :
  keeps R (mapImageMapArea ext rec area path rl rp).
Proof. unfold mapImageMapArea. keeps_tac. Qed.

Local Hint Resolve keeps_mapSection keeps_mapImageMapArea : keeps.

Lemma keeps_mapImageMap (imageMap : value) (path : NestedPath)
  (rl rp : option string) :
  keeps R (mapImageMap ext rec imageMap path rl rp).
Proof. unfold mapImageMap. keeps_tac. Qed.

Lemma keeps_mapLinksInRichTextElement (path : NestedPath) (rl rp : option string)
  (element : value) (index : nat) :
  keeps R (mapLinksInRichTextElement rec links path rl rp element index).
Proof. unfold mapLinksInRichTextElement. keeps_tac. Qed.

Local Hint Resolve keeps_mapImageMap keeps_mapLinksInRichTextElement : keeps.

Lemma keeps_mapLinksInRichTextElements_body (l : list value) (path : NestedPath)
  (rl rp : option string) :
  keeps R (mapLinksInRichTextElements_body rec links l path rl rp).
Proof. unfold mapLinksInRichTextElements_body. keeps_tac. Qed.

Lemma keeps_ask_customMapper (entry : value) (path : NestedPath) :
  keeps R (ask_customMapper entry path).
Proof.
  unfold ask_customMapper. keeps_tac.
  intros m. apply (keeps_registerReferencedItem _ _ _ _ m).
Qed.

Lemma keeps_option_of (v : value) : keeps R (option_of v).
Proof. unfold option_of. keeps_tac. Qed.

Lemma keeps_mapChildren (v : value) (path : NestedPath) (rl rp : option string) :
  keeps R (mapChildren rec v path rl rp).
Proof. unfold mapChildren. keeps_tac. Qed.

Lemma keeps_mapCard (path : NestedPath) (rl rp : option string) (card : value)
  (index : nat) :
  keeps R (mapCard rec path rl rp card index).
Proof. unfold mapCard. keeps_tac. Qed.

Local Hint Resolve keeps_ask_customMapper keeps_option_of keeps_mapChildren
  keeps_mapCard : keeps.

Lemma keeps_mapDataEntry_body (entry : value) (path : NestedPath)
  (rl rp : option string) :
  keeps R (mapDataEntry_body ext rec links entry path rl rp).
Proof. unfold mapDataEntry_body. keeps_tac. Qed.

End Tree.


Lemma keeps_knot (ext : Externals) (fuel : nat) :
  (forall e p rl rp, keeps R (mapDataEntry ext fuel e p rl rp))
  /\ (forall l p rl rp, keeps R (mapLinksInRichTextElements ext fuel l p rl rp)).
Proof.
  induction fuel as [|fuel [IHe IHl]].
  - split; intros; apply keeps_lift.
  - split; intros.
    + apply (keeps_mapDataEntry_body ext _ _ IHe IHl).
    + apply (keeps_mapLinksInRichTextElements_body _ _ IHe IHl).
Qed.

Lemma keeps_mapDataEntry (ext : Externals) (fuel : nat) (e : value) (p : NestedPath)
  (rl rp : option string) :
  keeps R (mapDataEntry ext fuel e p rl rp).
Proof. apply keeps_knot. Qed.

Local Hint Resolve keeps_mapDataEntry keeps_mapDataEntries keeps_mapSection : keeps.

Section ItemMappers.

Variable ext : Externals.
Variable fuel : nat.

Lemma keeps_mapContent2Section (c : value) (rl : option string) :
  keeps R (mapContent2Section c rl).
Proof. unfold mapContent2Section. keeps_tac. Qed.

Local Hint Resolve keeps_mapContent2Section : keeps.

Lemma keeps_mapBodyContent (c : value) (p : NestedPath) (rl rp : option string) :
  keeps R (mapBodyContent ext fuel c p rl rp).
Proof. unfold mapBodyContent. keeps_tac. Qed.

Local Hint Resolve keeps_mapBodyContent : keeps.

Lemma keeps_mapPageBody (b : value) (p : NestedPath) (rl rp : option string) :
  keeps R (mapPageBody ext fuel b p rl rp).
Proof. unfold mapPageBody. keeps_tac. Qed.

Local Hint Resolve keeps_mapPageBody : keeps.

Lemma keeps_mapPageBodies (b : value) (p : NestedPath) (rl rp : option string) :
  keeps R (mapPageBodies ext fuel b p rl rp).
Proof. unfold mapPageBodies. keeps_tac. Qed.

Local Hint Resolve keeps_mapPageBodies : keeps.

Lemma keeps_mapPageRef (v : value) (p : NestedPath) (rl rp : option string) :
  keeps R (mapPageRef ext fuel v p rl rp).
Proof. unfold mapPageRef. keeps_tac. Qed.

Lemma keeps_mapProjectProperties (v : value) (p : NestedPath) (rl rp : option string) :
  keeps R (mapProjectProperties ext fuel v p rl rp).
Proof. unfold mapProjectProperties. keeps_tac. Qed.

Lemma keeps_mapGCAPage (v : value) (p : NestedPath) (rl rp : option string) :
  keeps R (mapGCAPage ext fuel v p rl rp).
Proof. unfold mapGCAPage. keeps_tac. Qed.

Lemma keeps_mapDataset (v : value) (p : NestedPath) (rl rp : option string) :
  keeps R (mapDataset ext fuel v p rl rp).
Proof. unfold mapDataset. keeps_tac. Qed.

Lemma keeps_mapResolutionUrl (rev entry : value) (i : nat) :
  keeps R (mapResolutionUrl rev entry i).
Proof. unfold mapResolutionUrl. keeps_tac. Qed.

Local Hint Resolve keeps_mapResolutionUrl : keeps.

Lemma keeps_mapMediaPictureResolutionUrls (resolutions rev : value) :
  keeps R (mapMediaPictureResolutionUrls resolutions rev).
Proof. unfold mapMediaPictureResolutionUrls. keeps_tac. Qed.

Local Hint Resolve keeps_mapMediaPictureResolutionUrls : keeps.

Lemma keeps_mapMediaPicture (v : value) (p : NestedPath) (rl rp : option string) :
  keeps R (mapMediaPicture ext fuel v p rl rp).
Proof. unfold mapMediaPicture. keeps_tac. Qed.

Lemma keeps_mapMediaFile (v : value) (p : NestedPath) (rl rp : option string) :
  keeps R (mapMediaFile ext fuel v p rl rp).
Proof. unfold mapMediaFile. keeps_tac. Qed.

Local Hint Resolve keeps_mapMediaPicture keeps_mapMediaFile keeps_mapPageRef
  keeps_mapProjectProperties keeps_mapGCAPage keeps_mapDataset : keeps.

Lemma keeps_mapMedia (v : value) (p : NestedPath) (rl rp : option string) :
  keeps R (mapMedia ext fuel v p rl rp).
Proof. unfold mapMedia. keeps_tac. Qed.

Local Hint Resolve keeps_mapMedia : keeps.

Lemma keeps_mapItem (rl rp : option string) (item : value) (index : nat) :
  keeps R (mapItem ext fuel rl rp item index).
Proof. unfold mapItem. keeps_tac. Qed.

(** The response assembler, given that caching and the resolution round are
    within the relation. *)
Hypothesis R_resolvedReferences : forall r m, R m (set_resolvedReferences r m).

Lemma keeps_addToResolvedReferences (item : value) (rp : option string) :
  keeps R (addToResolvedReferences ext item rp).
Proof. unfold addToResolvedReferences. keeps_tac. Qed.

Variable api_fetchByFilter : FetchByFilterParams -> M FetchResponse.
Hypothesis keeps_resolveAllReferences :
  forall ctx, keeps R (resolveAllReferences api_fetchByFilter ctx).

Local Hint Resolve keeps_mapItem keeps_addToResolvedReferences
  keeps_resolveAllReferences : keeps.

Lemma keeps_mapFilterResponse (items : list value)
  (params : option (list (string * value))) (ctx : value) (rl rp : option string) :
  keeps R (mapFilterResponse ext fuel api_fetchByFilter items params ctx rl rp).
Proof. unfold mapFilterResponse. keeps_tac. Qed.

End ItemMappers.


Lemma keeps_bind_yields {A B : Type} (P : A -> Prop) (c : M A) (k : A -> M B) :
  keeps R c -> yields P c -> (forall a, P a -> keeps R (k a)) -> keeps R (bind c k).
Proof.
  intros Hc Hy Hk m. unfold bind. specialize (Hc m). specialize (Hy m).
  destruct (c m) as [[a|e| |] m']; cbn [fst snd] in *; try exact Hc.
  eapply R_trans; [exact Hc | apply Hk, Hy; reflexivity].
Qed.

Lemma yields_mapM_from {A B : Type} (P : B -> Prop) (f : A -> nat -> M B)
  (xs : list A) (i : nat) :
  (forall x j, yields P (f x j)) -> yields (Forall P) (mapM_from i f xs).
Proof.
  intros Hf. revert i. induction xs as [|x xs IH]; intros i m ys; cbn [mapM_from].
  - unfold ret. cbn. intros [= <-]. constructor.
  - unfold bind. specialize (Hf x i m).
    destruct (f x i m) as [[y|e| |] m1]; cbn [fst] in *; try discriminate.
    specialize (IH (S i) m1).
    destruct (mapM_from (S i) f xs m1) as [[zs|e| |] m2]; cbn [fst] in *;
      try discriminate.
    unfold ret. cbn. intros [= <-]. constructor; [apply Hf | apply IH]; reflexivity.
Qed.

Lemma keeps_await_all {A : Type} (pending : list (M A)) :
  Forall (keeps R) pending -> keeps R (await_all pending).
Proof.
  induction 1 as [|p pending Hp _ IH]; cbn [await_all].
  - apply keeps_ret.
  - apply keeps_bind; [exact Hp|]. intros x.
    apply keeps_bind; [exact IH|]. intros xs. apply keeps_ret.
Qed.

Lemma keeps_async {A : Type} (c : M (M A)) : keeps R c -> keeps R (async c).
Proof.
  intros H m. unfold async. specialize (H m).
  destruct (c m) as [[p|e| |] m']; exact H.
Qed.

Lemma yields_async {A : Type} (c : M (M A)) :
  yields (keeps R) c -> yields (keeps R) (async c).
Proof.
  intros H m p. unfold async. specialize (H m).
  destruct (c m) as [[q|e| |] m']; cbn [fst] in *; try discriminate.
  - exact (H p).
  - intros [= <-]. apply keeps_throw.
Qed.

Section Scheduler.

Hypothesis R_issued : forall p m, R m (add_issued p m).
Hypothesis R_referenceDepth : forall d m, R m (set_referenceDepth d m).

Variable api_fetchByFilter : FetchByFilterParams -> M FetchResponse.
Hypothesis keeps_api : forall params, keeps R (api_fetchByFilter params).

Lemma keeps_referencedItems_of (rp : option string) : keeps R (referencedItems_of rp).
Proof. unfold referencedItems_of. keeps_tac. Qed.

Local Hint Resolve keeps_referencedItems_of : keeps.

Lemma keeps_resolveReferencesPerProject (rp : option string) (ctx : value) :
  keeps R (resolveReferencesPerProject api_fetchByFilter rp ctx).
Proof. unfold resolveReferencesPerProject. keeps_tac. Qed.

Lemma keeps_pending (requests : list FetchByFilterParams) :
  keeps R (await_all (map api_fetchByFilter requests) ;;; ret tt).
Proof.
  apply keeps_bind; [|intros; apply keeps_ret].
  apply keeps_await_all. apply Forall_forall. intros p Hin.
  apply in_map_iff in Hin. destruct Hin as (r & <- & _). apply keeps_api.
Qed.

Lemma yields_resolveReferencesPerProject (rp : option string) (ctx : value) :
  yields (keeps R) (resolveReferencesPerProject api_fetchByFilter rp ctx).
Proof.
  intros m pending. unfold resolveReferencesPerProject, bind at 1.
  destruct (referencedItems_of rp m) as [[registry|e| |] m1]; cbn [fst];
    try discriminate.
  run_mapper.
  destruct (0 <? length (idsToFetchFromCaaS registry (resolvedReferences m1)))%nat.
  - unfold mapM. rewrite issue_all_run. cbn [fst].
    intros [= <-]. apply keeps_pending.
  - cbn [fst]. intros [= <-]. apply keeps_ret.
Qed.

Lemma keeps_resolveAllReferences_scheduled (ctx : value) :
  keeps R (resolveAllReferences api_fetchByFilter ctx).
Proof.
  intros m. unfold resolveAllReferences, bind at 1, gets at 1. cbv beta iota.
  destruct (maxReferenceDepth m <=? referenceDepth m); [apply R_logged|].
  revert m. 
  assert (H : forall this : CaaSMapper,
             keeps R (modify (set_referenceDepth (referenceDepth this + 1)) ;;;
                    remoteIds <- gets (fun m => JS.keys (_remoteReferences m)) ;;
                    pending <-
                      mapM (fun project (_ : nat) =>
                              async (resolveReferencesPerProject api_fetchByFilter
                                       project ctx))
                           (None :: map Some remoteIds) ;;
                    await_all pending ;;; ret tt)).
  { intros this. apply keeps_bind; [apply keeps_modify; intro; apply R_referenceDepth|].
    intros _. apply keeps_bind; [apply keeps_gets|]. intros remoteIds.
    apply keeps_bind_yields with (P := Forall (keeps R)).
    - apply keeps_mapM. intros. apply keeps_async, keeps_resolveReferencesPerProject.
    - apply yields_mapM_from. intros. apply yields_async,
        yields_resolveReferencesPerProject.
    - intros pending Hp. apply keeps_bind; [now apply keeps_await_all|].
      intros. apply keeps_ret. }
  intros m. apply (H m m).
Qed.

End Scheduler.

Section ApiLevel.

Variable ext : Externals.
Variable fuel : nat.
Variable rec : FSXARemoteApi -> ApiCall.
Hypothesis keeps_mapping :
  forall items params ctx rl rp,
    keeps R (mapFilterResponse ext fuel (mapper_call rec) items params ctx rl rp).

Lemma after_api_step {A : Type} (o : outcome A) (m : CaaSMapper)
  (k : A -> outcome FetchResponse * option CaaSMapper) :
  (forall a, R m (after (k a) m)) -> R m (after (api_step o (Some m) k) m).
Proof.
  intros H. destruct o; cbn [api_step after snd]; auto.
Qed.

Lemma after_fetchByFilter_map (this : FSXARemoteApi) (params : FetchByFilterParams)
  (page pagesize : JS.number) (data : value) (items : list value) (m : CaaSMapper) :
  R m (after (fetchByFilter_map ext fuel rec this params page pagesize data items
                (Some m)) m).
Proof.
  unfold fetchByFilter_map. cbv zeta.
  apply after_api_step. intros remoteProjectLocale.
  apply after_api_step. intros mapperLocale.
  pose proof (keeps_mapping items
                (Some match fp_additionalParams params with Some a => a | None => [] end)
                (fp_filterContext params) remoteProjectLocale (fp_remoteProject params) m)
    as Hm.
  destruct (mapFilterResponse ext fuel (mapper_call rec) items _ _ _ _ m)
    as [mapping m'].
  cbn [snd] in Hm.
  destruct mapping as [response|e| |]; cbn [api_step after snd]; try exact Hm.
  destruct (match _caasItemFilter this with
            | Some caasItemFilter => caasItemFilter response (fp_filterContext params)
            | None => Returns response
            end); cbn [api_step after snd]; exact Hm.
Qed.

Lemma after_fetchByFilter_body (this : FSXARemoteApi) (params : FetchByFilterParams)
  (m : CaaSMapper) :
  R m (after (fetchByFilter_body ext fuel rec this params (Some m)) m).
Proof.
  unfold fetchByFilter_body. cbv zeta.
  apply after_api_step. intros url.
  destruct (negb (ok (fetch ext url (fp_fetchOptions params)))).
  - destruct (status _ =? 401); cbn [after snd]; apply R_refl.
  - apply after_api_step. intros data. apply after_api_step. intros docs.
    destruct docs as [| | | | |[|item items]|]; cbn [after snd]; try apply R_refl.
    apply after_fetchByFilter_map.
Qed.

Lemma keeps_mapper_call (params : FetchByFilterParams) :
  (forall this p m, R m (after (rec this p (Some m)) m)) ->
  keeps R (mapper_call rec params).
Proof.
  intros H m. unfold mapper_call. specialize (H (api m) params m).
  unfold after in H. destruct (rec (api m) params (Some m)) as [o [m'|]]; exact H.
Qed.

End ApiLevel.

End Preservation.

(** ** Depth exhaustion *)

Lemma stays_exhausted_refl (m : CaaSMapper) : stays_exhausted m m.
Proof. intros _. auto. Qed.

Lemma stays_exhausted_trans (m1 m2 m3 : CaaSMapper) :
  stays_exhausted m1 m2 -> stays_exhausted m2 m3 -> stays_exhausted m1 m3.
Proof.
  intros H12 H23 H. destruct (H12 H) as (Hd & Hm & Hi).
  destruct H23 as (Hd' & Hm' & Hi'); [lia|].
  repeat split; congruence.
Qed.

Lemma resolveAllReferences_exhausted
  (api_fetchByFilter : FetchByFilterParams -> M FetchResponse) (ctx : value)
  (m : CaaSMapper) :
  maxReferenceDepth m <= referenceDepth m ->
  resolveAllReferences api_fetchByFilter ctx m
  = (Returns tt, add_logged (depth_warning m) m).
Proof.
  intros H. unfold resolveAllReferences. run_mapper.
  apply Z.leb_le in H. rewrite H. reflexivity.
Qed.

Lemma stays_exhausted_resolveAllReferences
  (api_fetchByFilter : FetchByFilterParams -> M FetchResponse) (ctx : value) :
  keeps stays_exhausted (resolveAllReferences api_fetchByFilter ctx).
Proof.
  intros m H. rewrite (resolveAllReferences_exhausted _ _ _ H). cbn. auto.
Qed.

Lemma stays_exhausted_mapFilterResponse (ext : Externals) (fuel : nat)
  (api_fetchByFilter : FetchByFilterParams -> M FetchResponse)
  (items : list value) (params : option (list (string * value))) (ctx : value)
  (rl rp : option string) :
  keeps stays_exhausted
        (mapFilterResponse ext fuel api_fetchByFilter items params ctx rl rp).
Proof.
  apply keeps_mapFilterResponse;
    first [ solve [intros; intros _; cbn; auto]
          | apply stays_exhausted_trans
          | intros; apply stays_exhausted_resolveAllReferences ].
Qed.

Lemma stays_exhausted_fetchByFilter (ext : Externals) (fuel rounds : nat)
  (this : FSXARemoteApi) (params : FetchByFilterParams) (m : CaaSMapper) :
  stays_exhausted m (after (fetchByFilter ext fuel rounds this params (Some m)) m).
Proof.
  destruct rounds as [|rounds]; [apply stays_exhausted_refl|].
  cbn [fetchByFilter].
  apply after_fetchByFilter_body;
    first [ apply stays_exhausted_refl
          | apply stays_exhausted_trans
          | intros; apply stays_exhausted_mapFilterResponse ].
Qed.

(** ** The log only grows *)

Lemma log_extends_refl (m : CaaSMapper) : log_extends m m.
Proof. exists []. now rewrite app_nil_r. Qed.

Lemma log_extends_trans (m1 m2 m3 : CaaSMapper) :
  log_extends m1 m2 -> log_extends m2 m3 -> log_extends m1 m3.
Proof.
  intros (a & Ha) (b & Hb). exists (a ++ b)%list.
  now rewrite Hb, Ha, app_assoc.
Qed.

Lemma log_extends_logged (e : LogEntry) (m : CaaSMapper) :
  log_extends m (add_logged e m).
Proof. exists [e]. reflexivity. Qed.

Lemma log_extends_In (m m' : CaaSMapper) (e : LogEntry) :
  log_extends m m' -> In e (logged m) -> In e (logged m').
Proof. intros (more & ->) H. apply in_or_app. now left. Qed.

Lemma log_extends_same (m m' : CaaSMapper) :
  logged m' = logged m -> log_extends m m'.
Proof. intros H. exists []. now rewrite app_nil_r. Qed.

Ltac log_extends_side :=
  first [ apply log_extends_refl
        | apply log_extends_trans
        | apply log_extends_logged
        | solve [intros; apply log_extends_same; reflexivity] ].

Lemma log_extends_mapItem (ext : Externals) (fuel : nat) (rl rp : option string)
  (item : value) (index : nat) :
  keeps log_extends (mapItem ext fuel rl rp item index).
Proof. apply keeps_mapItem; log_extends_side. Qed.

Lemma log_extends_mapFilterResponse (ext : Externals) (fuel : nat)
  (api_fetchByFilter : FetchByFilterParams -> M FetchResponse)
  (items : list value) (params : option (list (string * value))) (ctx : value)
  (rl rp : option string) :
  (forall p, keeps log_extends (api_fetchByFilter p)) ->
  keeps log_extends
        (mapFilterResponse ext fuel api_fetchByFilter items params ctx rl rp).
Proof.
  intros Hapi. apply keeps_mapFilterResponse; try log_extends_side.
  intros ctx'. apply keeps_resolveAllReferences_scheduled;
    first [log_extends_side | exact Hapi].
Qed.

(** The calls of [fetchByFilter] the mapper makes only add to its log,
    whatever the number of rounds. *)
Lemma log_extends_fetchByFilter (ext : Externals) (fuel rounds : nat) :
  forall this params m,
    log_extends m (after (fetchByFilter ext fuel rounds this params (Some m)) m).
Proof.
  induction rounds as [|rounds IH]; intros this params m.
  - apply log_extends_refl.
  - cbn [fetchByFilter].
    apply after_fetchByFilter_body; try log_extends_side.
    intros. apply log_extends_mapFilterResponse.
    intros p. apply keeps_mapper_call. exact IH.
Qed.

(** ** Runs that return *)

Lemma bind_returns {A B : Type} (c : M A) (k : A -> M B) (m m' : CaaSMapper) (b : B) :
  bind c k m = (Returns b, m') ->
  exists a m1, c m = (Returns a, m1) /\ k a m1 = (Returns b, m').
Proof.
  unfold bind. destruct (c m) as [[a|e| |] m1]; try discriminate. eauto.
Qed.

Lemma mapM_from_split {A B : Type} (f : A -> nat -> M B) (pre post : list A) (x : A)
  (i : nat) (m m' : CaaSMapper) (ys : list B) :
  mapM_from i f (pre ++ x :: post) m = (Returns ys, m') ->
  exists ys1 y ys2 m1 m2,
    mapM_from i f pre m = (Returns ys1, m1)
    /\ f x (i + length pre)%nat m1 = (Returns y, m2)
    /\ mapM_from (S (i + length pre)) f post m2 = (Returns ys2, m')
    /\ ys = (ys1 ++ y :: ys2)%list
    /\ length ys1 = length pre.
Proof.
  revert i m ys. induction pre as [|p pre IH]; intros i m ys H.
  - cbn [app mapM_from] in H.
    apply bind_returns in H. destruct H as (y & m2 & Hy & H).
    apply bind_returns in H. destruct H as (ys2 & m3 & Hys & H).
    injection H as <- <-.
    exists [], y, ys2, m, m2. rewrite Nat.add_0_r. repeat split; assumption.
  - cbn [app mapM_from] in H.
    apply bind_returns in H. destruct H as (y0 & m0 & Hy0 & H).
    apply bind_returns in H. destruct H as (rest & m3 & Hrest & H).
    injection H as <- <-.
    destruct (IH _ _ _ Hrest) as (ys1 & y & ys2 & m1 & m2 & H1 & H2 & H3 & -> & Hlen).
    exists (y0 :: ys1), y, ys2, m1, m2.
    cbn [mapM_from length]. unfold bind at 1. rewrite Hy0.
    unfold bind at 1. rewrite H1.
    replace (i + S (length pre))%nat with (S i + length pre)%nat by lia.
    repeat split; try assumption. cbn. now rewrite Hlen.
Qed.

Lemma keeps_run {A : Type} (R : CaaSMapper -> CaaSMapper -> Prop) (c : M A)
  (m m' : CaaSMapper) (o : outcome A) :
  keeps R c -> c m = (o, m') -> R m m'.
Proof. intros H Hrun. specialize (H m). now rewrite Hrun in H. Qed.

(** What the calls of a [Promise.all] over a list returned, in order. *)
Lemma mapM_from_returns {A B : Type} (f : A -> nat -> M B) (xs : list A) (i : nat)
  (m m' : CaaSMapper) (ys : list B) :
  mapM_from i f xs m = (Returns ys, m') ->
  Forall2 (fun x y => exists j m1 m2, f x j m1 = (Returns y, m2)) xs ys.
Proof.
  revert i m ys. induction xs as [|x xs IH]; intros i m ys H; cbn [mapM_from] in H.
  - injection H as <- _. constructor.
  - apply bind_returns in H. destruct H as (y & m1 & Hy & H).
    apply bind_returns in H. destruct H as (rest & m2 & Hrest & H).
    injection H as <- <-. constructor.
    + exists i, m, m1. exact Hy.
    + eapply IH. exact Hrest.
Qed.

Lemma Forall2_In_right {A B : Type} (R : A -> B -> Prop) (xs : list A) (ys : list B)
  (y : B) :
  Forall2 R xs ys -> In y ys -> exists x, In x xs /\ R x y.
Proof.
  intros H. induction H as [|x y' xs ys Hxy _ IH]; intros Hin; [contradiction|].
  destruct Hin as [<-|Hin].
  - exists x. split; [now left | exact Hxy].
  - destruct (IH Hin) as (x' & Hx' & Hr). exists x'. split; [now right | exact Hr].
Qed.

(** ** Top-level items of unknown kind *)

Lemma mapItem_unknown (ext : Externals) (fuel : nat) (rl rp : option string)
  (item fsType : value) (index : nat) (m : CaaSMapper) :
  JS.get item "fsType" = Returns fsType ->
  (forall k, In k ["Dataset"; "PageRef"; "Media"; "GCAPage"; "ProjectProperties"] ->
             fsType <> VStr k) ->
  mapItem ext fuel rl rp item index m
  = (Returns item, add_logged (unmapped_warning index fsType) m).
Proof.
  intros Hget Hunknown. unfold mapItem. run_mapper. rewrite Hget.
  rewrite !is_str_false by (apply Hunknown; simpl; tauto).
  reflexivity.
Qed.

Lemma addToResolvedReferences_run (ext : Externals) (item : value)
  (rp : option string) (m : CaaSMapper) :
  exists m',
    addToResolvedReferences ext item rp m = (Returns tt, m')
    /\ resolvedReferences m'
       = match supplied (getItemId ext item rp) with
         | Some id => JS.assign id item (resolvedReferences m)
         | None => resolvedReferences m
         end
    /\ referenceDepth m' = referenceDepth m
    /\ maxReferenceDepth m' = maxReferenceDepth m
    /\ issued m' = issued m.
Proof.
  unfold addToResolvedReferences, supplied, JS.truthy_str, warn, modify.
  destruct (getItemId ext item rp) as [k|]; [|eexists; repeat split].
  destruct (k =? "")%string; cbn [negb]; eexists; repeat split.
Qed.

(** The caching stage of [mapFilterResponse]. *)
Lemma cache_stage (ext : Externals) (rp : option string) (kept : list value)
  (i : nat) (m : CaaSMapper) :
  exists us m',
    mapM_from i (fun item (_ : nat) =>
                   if JS.truthy item then addToResolvedReferences ext item rp
                   else ret tt) kept m
    = (Returns us, m')
    /\ resolvedReferences m' = cache_batch ext rp kept (resolvedReferences m)
    /\ referenceDepth m' = referenceDepth m
    /\ maxReferenceDepth m' = maxReferenceDepth m
    /\ issued m' = issued m.
Proof.
  revert i m. induction kept as [|item kept IH]; intros i m; cbn [mapM_from].
  - do 2 eexists. unfold ret. repeat split.
  - assert (Hstep : exists m1,
               (if JS.truthy item then addToResolvedReferences ext item rp
                else ret tt) m = (Returns tt, m1)
               /\ resolvedReferences m1
                  = (if JS.truthy item then
                       match supplied (getItemId ext item rp) with
                       | Some id => JS.assign id item (resolvedReferences m)
                       | None => resolvedReferences m
                       end
                     else resolvedReferences m)
               /\ referenceDepth m1 = referenceDepth m
               /\ maxReferenceDepth m1 = maxReferenceDepth m
               /\ issued m1 = issued m).
    { destruct (JS.truthy item).
      - apply addToResolvedReferences_run.
      - exists m. unfold ret. repeat split. }
    destruct Hstep as (m1 & Hrun & Hc & Hd & Hx & Hi).
    destruct (IH (S i) m1) as (us & m' & Hrest & Hc' & Hd' & Hx' & Hi').
    exists (tt :: us), m'. unfold bind. rewrite Hrun, Hrest. unfold ret.
    split; [reflexivity|].
    split; [|split; [congruence | split; congruence]].
    rewrite Hc', Hc. unfold cache_batch. cbn [fold_left]. reflexivity.
Qed.

(** Where an entry of the cache of a batch comes from. *)
Lemma lookup_cache_batch (ext : Externals) (rp : option string) (kept : list value)
  (cache : ResolvedReferencesInfo) (id : string) (v : value) :
  JS.lookup id (cache_batch ext rp kept cache) = Some v ->
  JS.lookup id cache = Some v
  \/ (In v kept /\ getItemId ext v rp = Some id).
Proof.
  unfold cache_batch. revert cache.
  induction kept as [|item kept IH]; intros cache H; cbn [fold_left] in H;
    [left; exact H|].
  apply IH in H. destruct H as [H|[Hin Hid]]; [|right; split; [now right | exact Hid]].
  destruct (JS.truthy item); [|left; exact H].
  unfold supplied in H.
  destruct (getItemId ext item rp) as [k|] eqn:Hk; [|left; exact H].
  destruct (k =? "")%string; [left; exact H|].
  destruct (String.eqb_spec id k) as [->|Hne].
  - rewrite lookup_assign_eq in H. injection H as <-.
    right. split; [now left | exact Hk].
  - rewrite lookup_assign_ne in H by exact Hne. left. exact H.
Qed.

Lemma holds_entry_trans (id : string) (item : value) (m1 m2 m3 : CaaSMapper) :
  holds_entry id item m1 m2 -> holds_entry id item m2 m3 -> holds_entry id item m1 m3.
Proof. unfold holds_entry. auto. Qed.

Lemma cache_batch_app (ext : Externals) (rp : option string) (pre post : list value)
  (cache : ResolvedReferencesInfo) :
  cache_batch ext rp (pre ++ post) cache
  = cache_batch ext rp post (cache_batch ext rp pre cache).
Proof. unfold cache_batch. apply fold_left_app. Qed.

(** An item stays in the cache of a batch when no later item has its id. *)
Lemma cache_batch_holds (ext : Externals) (rp : option string) (post : list value)
  (cache : ResolvedReferencesInfo) (id : string) (item : value) :
  Forall (fun later => getItemId ext later rp <> Some id) post ->
  JS.lookup id cache = Some item ->
  JS.lookup id (cache_batch ext rp post cache) = Some item.
Proof.
  unfold cache_batch. intros Hpost. revert cache.
  induction Hpost as [|later post Hlater _ IH]; intros cache H; cbn [fold_left];
    [exact H|].
  apply IH. destruct (JS.truthy later); [|exact H].
  unfold supplied. destruct (getItemId ext later rp) as [k|]; [|exact H].
  destruct (k =? "")%string; [exact H|].
  rewrite lookup_assign_ne; [exact H|]. intros ->. now apply Hlater.
Qed.

Lemma filter_Boolean_app (xs ys : list value) :
  JS.filter_Boolean (xs ++ ys) = (JS.filter_Boolean xs ++ JS.filter_Boolean ys)%list.
Proof. unfold JS.filter_Boolean. apply filter_app. Qed.

(** C9, as amended.  When [additionalParams.keys] is not set, the dispatch of
    [mapFilterResponse] on a top-level item, an object whose [fsType] is none
    of [Dataset], [PageRef], [Media], [GCAPage] and [ProjectProperties], logs
    the warning that the item at its index could not be mapped and yields the
    item itself, without an error.  In a call that returns, the warning is in
    the log of the mapper (the calls of [fetchByFilter] only add to the log),
    and the item is in the returned [mappedItems] when it has an id, the same
    with and without the remote project, under which nothing is cached after
    it: no later item of the batch, as mapped, has that id, and no call of
    [fetchByFilter] replaces the entry. *)
Theorem unknown_item_passes_through (ext : Externals) (fuel : nat)
  (api_fetchByFilter : FetchByFilterParams -> M FetchResponse)
  (items : list value) (additionalParams : option (list (string * value)))
  (filterContext : value) (remoteProjectLocale remoteProjectId : option string)
  (m m' : CaaSMapper) (index : nat) (fields : list (string * value))
  (response : MapResponse)
  (Hapi : forall params m0,
      exists more, logged (snd (api_fetchByFilter params m0)) = (logged m0 ++ more)%list)
  (Hkeys : JS.truthy (match additionalParams with
                      | Some params => JS.get_opt (VObj params) "keys"
                      | None => VUndefined
                      end) = false)
  (Hitem : nth_error items index = Some (VObj fields))
  (Hunknown : forall k,
      In k ["Dataset"; "PageRef"; "Media"; "GCAPage"; "ProjectProperties"] ->
      JS.get_opt (VObj fields) "fsType" <> VStr k)
  (Hrun : mapFilterResponse ext fuel api_fetchByFilter items additionalParams
            filterContext remoteProjectLocale remoteProjectId m
          = (Returns response, m')) :
  let item := VObj fields in
  let warning :=
    {| log_message := "Item at index [" ++ JS.string_of_nat index ++ "] with type ["
                      ++ JS.toString (JS.get_opt item "fsType")
                      ++ "] could not be mapped!";
       log_args := [] |} in
  (forall m0,
      mapItem ext fuel remoteProjectLocale remoteProjectId item index m0
      = (Returns item, add_logged warning m0))
  /\ In warning (logged m')
  /\ (forall id,
        getItemId ext item remoteProjectId = Some id -> id <> "" ->
        getItemId ext item None = Some id ->
        (forall later j mapped m0 m1,
            In later (skipn (S index) items) ->
            mapItem ext fuel remoteProjectLocale remoteProjectId later j m0
            = (Returns mapped, m1) ->
            getItemId ext mapped remoteProjectId <> Some id) ->
        (forall params, keeps (holds_entry id item) (api_fetchByFilter params)) ->
        In item (mappedItems response)).
Proof.
  intros item warning.
  assert (Hdispatch : forall i m0,
             mapItem ext fuel remoteProjectLocale remoteProjectId item i m0
             = (Returns item,
                add_logged (unmapped_warning i (JS.get_opt item "fsType")) m0)).
  { intros i m0. apply mapItem_unknown; [reflexivity | exact Hunknown]. }
  split; [intros m0; apply Hdispatch|].
  unfold mapFilterResponse in Hrun. cbv zeta in Hrun.
  assert (Hk : JS.truthy match additionalParams with
                         | Some params =>
                             match JS.lookup "keys" params with
                             | Some k => k
                             | None => VUndefined
                             end
                         | None => VUndefined
                         end = false) by exact Hkeys.
  rewrite Hk in Hrun. clear Hk.
  apply bind_returns in Hrun. destruct Hrun as (kept & m1 & Hstage & Hrun).
  apply bind_returns in Hstage. destruct Hstage as (mapped & m1' & Hmap & Hret).
  injection Hret as <- <-.
  apply bind_returns in Hrun. destruct Hrun as (us & m2 & Hcache & Hrun).
  apply bind_returns in Hrun. destruct Hrun as (u & m3 & Hresolve & Hrun).
  unfold bind, gets, modify, ret in Hrun.
  destruct (merge_remoteReferences (_remoteReferences m3)) as [merged aliased].
  injection Hrun as <- <-.
  destruct (nth_error_split _ _ Hitem) as (pre & post & -> & Hlen).
  unfold mapM in Hmap.
  destruct (mapM_from_split _ _ _ _ _ _ _ _ Hmap)
    as (ys1 & y & ys2 & ma & mb & Hpre & Hat & Hpost & -> & Hys1).
  rewrite Hdispatch in Hat. injection Hat as <- <-.
  cbn [Nat.add] in *. rewrite Hlen in *.
  split.
  - cbn [logged set_remoteReferences].
    assert (Hlog : log_extends
                     (add_logged (unmapped_warning index (JS.get_opt item "fsType")) ma)
                     m3).
    { eapply log_extends_trans;
        [eapply keeps_run; [|exact Hpost];
         apply keeps_mapM_from; try log_extends_side;
         intros; apply log_extends_mapItem|].
      eapply log_extends_trans;
        [eapply keeps_run; [|exact Hcache];
         apply keeps_mapM; try log_extends_side; intros x j;
         destruct (JS.truthy x);
         [apply keeps_addToResolvedReferences | apply keeps_ret];
         log_extends_side|].
      eapply keeps_run; [|exact Hresolve].
      destruct (0 <? length _)%nat;
        [apply keeps_resolveAllReferences_scheduled | apply keeps_ret];
        first [log_extends_side | exact Hapi]. }
    apply (log_extends_In _ _ _ Hlog). cbn [logged add_logged].
    apply in_or_app. right. left. reflexivity.
  - intros id Hid Hne Hplain Hlater Hfetch.
    cbn [mappedItems mr_resolvedReferences resolvedReferences set_remoteReferences].
    assert (Hskip : skipn (S index) (pre ++ VObj fields :: post) = post).
    { rewrite <- Hlen. rewrite skipn_app, skipn_all2 by lia.
      replace (S (length pre) - length pre)%nat with 1%nat by lia. reflexivity. }
    rewrite Hskip in Hlater. clear Hskip.
    assert (Hys2 : Forall (fun later => getItemId ext later remoteProjectId <> Some id)
                          (JS.filter_Boolean ys2)).
    { apply Forall_forall. intros mappedLater Hin.
      apply filter_In in Hin. destruct Hin as [Hin _].
      pose proof (mapM_from_returns _ _ _ _ _ _ Hpost) as Hall.
      destruct (Forall2_In_right _ _ _ _ Hall Hin)
        as (later & Hinl & (j & m0 & m0' & Hj)).
      exact (Hlater later j mappedLater m0 m0' Hinl Hj). }
    destruct (cache_stage ext remoteProjectId
                (JS.filter_Boolean (ys1 ++ item :: ys2)) 0 m1')
      as (us' & m2' & Hcache' & Hc2 & _).
    unfold mapM in Hcache. rewrite Hcache' in Hcache. injection Hcache as _ <-.
    assert (Hcached : JS.lookup id (resolvedReferences m2') = Some item).
    { rewrite Hc2, filter_Boolean_app, cache_batch_app.
      change (JS.filter_Boolean (item :: ys2))
        with ([item] ++ JS.filter_Boolean ys2)%list.
      rewrite cache_batch_app. apply cache_batch_holds; [exact Hys2|].
      unfold cache_batch at 1. cbn [fold_left JS.truthy item].
      unfold supplied. rewrite Hid.
      destruct (String.eqb_spec id ""); [contradiction|].
      apply lookup_assign_eq. }
    assert (Hfinal : JS.lookup id (resolvedReferences m3) = Some item).
    { refine (keeps_run (holds_entry id item) _ _ _ _ _ Hresolve Hcached).
      destruct (0 <? length _)%nat.
      - apply keeps_resolveAllReferences_scheduled;
          first [ exact Hfetch
                | apply holds_entry_trans
                | solve [intros; intro Hl; exact Hl] ].
      - intros m0 Hl. exact Hl. }
    unfold findResolvedReferencesByIds. apply in_flat_map.
    exists (Some id). split.
    + rewrite <- Hplain.
      apply (in_map (fun it => getItemId ext it None)). unfold JS.filter_Boolean.
      apply filter_In. split; [|reflexivity].
      apply in_or_app. right. left. reflexivity.
    + rewrite Hfinal. left. reflexivity.
Qed.

Lemma unknown_item_passes_through_witness :
  exists response m',
    mapFilterResponse Sample.ext 1 Sample.no_fetch [Sample.unknown_item] None
                      VUndefined None None Sample.mapper
    = (Returns response, m')
    /\ In (unmapped_warning 0 (VStr "Fragment")) (logged m')
    /\ In Sample.unknown_item (mappedItems response).
Proof.
  assert (Hrun : exists response m',
             mapFilterResponse Sample.ext 1 Sample.no_fetch [Sample.unknown_item] None
                               VUndefined None None Sample.mapper
             = (Returns response, m'))
    by (do 2 eexists; vm_compute; reflexivity).
  destruct Hrun as (response & m' & Hrun).
  destruct (unknown_item_passes_through Sample.ext 1 Sample.no_fetch
              [Sample.unknown_item] None VUndefined None None Sample.mapper m' 0
              [("fsType", VStr "Fragment"); ("identifier", VStr "f1")] response)
    as (_ & Hlog & Hin).
  - intros params m0. exists []. cbn. now rewrite app_nil_r.
  - reflexivity.
  - reflexivity.
  - intros k Hk. simpl in Hk.
    repeat (destruct Hk as [<-|Hk]; [discriminate|]). destruct Hk.
  - exact Hrun.
  - exists response, m'. split; [exact Hrun|]. split; [exact Hlog|].
    apply (Hin "f1"); [reflexivity | discriminate | reflexivity | |].
    + intros later j mapped m0 m1 [].
    + intros params m0 Hl. exact Hl.
Defined.

(** C9 as stated fails in two ways.  When [additionalParams.keys] is set, the
    items are not dispatched, and no warning is logged for an item of unknown
    kind.  And the returned list is looked up in the cache by id: of two
    items of unknown kind with the same id, the cache holds the second, and
    the first is not in the returned list. *)
Lemma unknown_item_not_logged_or_dropped :
  (JS.get Sample.unknown_item "fsType" = Returns (VStr "Fragment")
   /\ (exists response,
         fst (mapFilterResponse Sample.ext 1 Sample.no_fetch [Sample.unknown_item]
                (Some [("keys", VStr "identifier")]) VUndefined None None
                Sample.mapper)
         = Returns response)
   /\ ~ In (unmapped_warning 0 (VStr "Fragment"))
           (logged (snd (mapFilterResponse Sample.ext 1 Sample.no_fetch
                           [Sample.unknown_item]
                           (Some [("keys", VStr "identifier")])
                           VUndefined None None Sample.mapper))))
  /\ (JS.get SampleSite.first_fragment "fsType" = Returns (VStr "Fragment")
      /\ exists response,
           fst (mapFilterResponse Sample.ext 1 Sample.no_fetch
                  [SampleSite.first_fragment; SampleSite.second_fragment]
                  None VUndefined None None Sample.mapper)
           = Returns response
           /\ ~ In SampleSite.first_fragment (mappedItems response)).
Proof.
  split.
  - split; [reflexivity|]. split; [eexists; reflexivity|].
    intros [].
  - split; [reflexivity|]. eexists. split; [reflexivity|].
    intros [H|[H|[]]]; discriminate H.
Qed.

(** ** A request at the depth limit *)

Lemma unresolving_trans (m1 m2 m3 : CaaSMapper) :
  unresolving m1 m2 -> unresolving m2 m3 -> unresolving m1 m3.
Proof. unfold unresolving. intuition congruence. Qed.

Ltac unresolving_side :=
  first [ apply unresolving_trans
        | solve [intros; unfold unresolving; cbn; repeat split] ].

Lemma unresolving_mapItems (ext : Externals) (fuel : nat) (rl rp : option string)
  (items : list value) :
  keeps unresolving (mapM (mapItem ext fuel rl rp) items).
Proof.
  apply keeps_mapM; try unresolving_side.
  intros item index. apply keeps_mapItem; unresolving_side.
Qed.

(** [mapFilterResponse] on a mapper whose depth is exhausted: the items are
    mapped and cached, and nothing else reaches the cache. *)
Lemma mapFilterResponse_unresolved (ext : Externals) (fuel : nat)
  (api_fetchByFilter : FetchByFilterParams -> M FetchResponse)
  (items : list value) (additionalParams : option (list (string * value)))
  (ctx : value) (rl rp : option string) (m m' : CaaSMapper) (response : MapResponse) :
  maxReferenceDepth m <= referenceDepth m ->
  mapFilterResponse ext fuel api_fetchByFilter items additionalParams ctx rl rp m
  = (Returns response, m') ->
  exists kept,
    (if keys_requested additionalParams then kept = items
     else exists mapped m1,
            mapM (mapItem ext fuel rl rp) items m = (Returns mapped, m1)
            /\ kept = JS.filter_Boolean mapped)
    /\ resolvedReferences m' = cache_batch ext rp kept (resolvedReferences m)
    /\ mr_resolvedReferences response = resolvedReferences m'
    /\ mappedItems response
       = findResolvedReferencesByIds (map (fun item => getItemId ext item None) kept)
                                     (resolvedReferences m').
Proof.
  intros Hexhausted Hrun.
  unfold mapFilterResponse in Hrun. cbv zeta in Hrun.
  change (JS.truthy match additionalParams with
                    | Some params =>
                        match JS.lookup "keys" params with
                        | Some k => k
                        | None => VUndefined
                        end
                    | None => VUndefined
                    end)
    with (keys_requested additionalParams) in Hrun.
  apply bind_returns in Hrun. destruct Hrun as (kept & m1 & Hstage & Hrun).
  assert (Hkept : (if keys_requested additionalParams then kept = items
                   else exists mapped m0,
                          mapM (mapItem ext fuel rl rp) items m = (Returns mapped, m0)
                          /\ kept = JS.filter_Boolean mapped)
                  /\ unresolving m m1).
  { destruct (keys_requested additionalParams).
    - unfold ret in Hstage. injection Hstage as <- <-.
      split; [reflexivity | repeat split].
    - apply bind_returns in Hstage. destruct Hstage as (mapped & m0 & Hmap & Hret).
      unfold ret in Hret. injection Hret as <- <-.
      split; [exists mapped, m0; split; [exact Hmap | reflexivity]|].
      exact (keeps_run _ _ _ _ _ (unresolving_mapItems ext fuel rl rp items) Hmap). }
  destruct Hkept as (Hkept & Hc1 & Hd1 & Hx1 & _).
  apply bind_returns in Hrun. destruct Hrun as (us & m2 & Hcache & Hrun).
  destruct (cache_stage ext rp kept 0 m1) as (us' & m2' & Hcache' & Hc2 & Hd2 & Hx2 & _).
  unfold mapM in Hcache. rewrite Hcache' in Hcache. injection Hcache as _ <-.
  apply bind_returns in Hrun. destruct Hrun as (u & m3 & Hresolve & Hrun).
  assert (Hc3 : resolvedReferences m3 = resolvedReferences m2').
  { destruct (0 <? length kept)%nat.
    - rewrite resolveAllReferences_exhausted in Hresolve by lia.
      injection Hresolve as _ <-. reflexivity.
    - unfold ret in Hresolve. injection Hresolve as _ <-. reflexivity. }
  unfold bind, gets, modify, ret in Hrun.
  destruct (merge_remoteReferences (_remoteReferences m3)) as [merged aliased].
  injection Hrun as <- <-.
  exists kept. cbn [mappedItems mr_resolvedReferences resolvedReferences
                    set_remoteReferences].
  split; [exact Hkept|].
  split; [congruence|]. split; reflexivity.
Qed.

Lemma findResolvedReferencesByIds_In (ids : list (option string))
  (cache : ResolvedReferencesInfo) (v : value) :
  In v (findResolvedReferencesByIds ids cache) ->
  exists id, In (Some id) ids /\ JS.lookup id cache = Some v.
Proof.
  unfold findResolvedReferencesByIds. intros H. apply in_flat_map in H.
  destruct H as ([id|] & Hin & Hv); [|contradiction].
  destruct (JS.lookup id cache) as [w|] eqn:E; [|contradiction].
  destruct Hv as [<-|[]]. eauto.
Qed.

(** C1.  On a mapper whose depth counter has reached the maximum,
    [resolveAllReferences] logs the warning and returns: no request is
    issued, the counter, the registries and the cache are as before.  From
    then on the mapper stays in that state: a whole [mapFilterResponse], or a
    [fetchByFilter] that is handed the mapper, leaves the counter at the
    maximum and issues nothing.  What such a [mapFilterResponse] returns is
    unresolved: the cache is the cache of before with the items of the batch
    stored in it, as the content mapper produced them, with the placeholder
    tokens it put in; [mappedItems] is the lookup of these items in that
    cache; and a registered reference that was not in the cache and is no
    item of the batch has no entry in the cache of the response, so that its
    token stays.  A mapper constructed with [maxReferenceDepth = 0], and a
    start depth that is not negative, is in that state from the start. *)
Theorem exhausted_depth_issues_no_round (ext : Externals) (fuel : nat)
  (api_fetchByFilter : FetchByFilterParams -> M FetchResponse)
  (filterContext : value) (m : CaaSMapper)
  (Hexhausted : maxReferenceDepth m <= referenceDepth m) :
  resolveAllReferences api_fetchByFilter filterContext m
  = (Returns tt,
     add_logged {| log_message := "Maximum reference depth of "
                                  ++ JS.string_of_Z (maxReferenceDepth m)
                                  ++ " has been exceeded.";
                   log_args := [] |} m)
  /\ (let m' := snd (resolveAllReferences api_fetchByFilter filterContext m) in
      issued m' = issued m
      /\ _referencedItems m' = _referencedItems m
      /\ _remoteReferences m' = _remoteReferences m
      /\ resolvedReferences m' = resolvedReferences m
      /\ referenceDepth m' = referenceDepth m
      /\ maxReferenceDepth m' = maxReferenceDepth m)
  /\ (forall items additionalParams remoteProjectLocale remoteProjectId,
        let m' := snd (mapFilterResponse ext fuel api_fetchByFilter items
                         additionalParams filterContext
                         remoteProjectLocale remoteProjectId m) in
        maxReferenceDepth m' <= referenceDepth m' /\ issued m' = issued m)
  /\ (forall items additionalParams remoteProjectLocale remoteProjectId response m',
        mapFilterResponse ext fuel api_fetchByFilter items additionalParams
                          filterContext remoteProjectLocale remoteProjectId m
        = (Returns response, m') ->
        exists kept,
          (if keys_requested additionalParams then kept = items
           else exists mapped m1,
                  mapM (mapItem ext fuel remoteProjectLocale remoteProjectId) items m
                  = (Returns mapped, m1)
                  /\ kept = JS.filter_Boolean mapped)
          /\ mr_resolvedReferences response
             = cache_batch ext remoteProjectId kept (resolvedReferences m)
          /\ mappedItems response
             = findResolvedReferencesByIds
                 (map (fun item => getItemId ext item None) kept)
                 (mr_resolvedReferences response)
          /\ Forall (fun item =>
                       In item kept \/ In item (JS.values (resolvedReferences m)))
                    (mappedItems response)
          /\ (forall id,
                JS.lookup id (referenceMap response) <> None ->
                JS.lookup id (resolvedReferences m) = None ->
                (forall item,
                    In item kept -> getItemId ext item remoteProjectId <> Some id) ->
                JS.lookup id (mr_resolvedReferences response) = None))
  /\ (forall rounds this params,
        let m' := after (fetchByFilter ext fuel rounds this params (Some m)) m in
        maxReferenceDepth m' <= referenceDepth m' /\ issued m' = issued m)
  /\ (forall a loc hook depth,
        match depth with Some d => 0 <= d | None => True end ->
        let fresh := new_CaaSMapper a loc hook depth (Some 0) in
        maxReferenceDepth fresh <= referenceDepth fresh).
Proof.
  pose proof (resolveAllReferences_exhausted api_fetchByFilter filterContext m
                Hexhausted) as Hrun.
  split; [exact Hrun|].
  split; [rewrite Hrun; cbn; repeat split|].
  split.
  { intros items additionalParams rl rp m'.
    destruct (stays_exhausted_mapFilterResponse ext fuel api_fetchByFilter items
                additionalParams filterContext rl rp m Hexhausted)
      as (Hd & Hm & Hi).
    subst m'. split; [lia | exact Hi]. }
  split.
  { intros items additionalParams rl rp response m' Hmap.
    destruct (mapFilterResponse_unresolved ext fuel api_fetchByFilter items
                additionalParams filterContext rl rp m m' response Hexhausted Hmap)
      as (kept & Hkept & Hcache & Hresp & Hitems).
    exists kept. rewrite Hresp, Hcache in *.
    split; [exact Hkept|]. split; [reflexivity|]. split; [exact Hitems|].
    split.
    - rewrite Hitems. apply Forall_forall. intros v Hv.
      apply findResolvedReferencesByIds_In in Hv. destruct Hv as (id & _ & Hv).
      apply lookup_cache_batch in Hv. destruct Hv as [Hv|[Hv _]]; [right | now left].
      now apply lookup_In_values with (k := id).
    - intros id _ Hnone Hother.
      destruct (JS.lookup id (cache_batch ext rp kept (resolvedReferences m)))
        as [v|] eqn:Hv; [|reflexivity].
      apply lookup_cache_batch in Hv. destruct Hv as [Hv|[Hin Hid]]; [congruence|].
      now apply Hother in Hin. }
  split.
  { intros rounds this params m'.
    destruct (stays_exhausted_fetchByFilter ext fuel rounds this params m Hexhausted)
      as (Hd & Hm & Hi).
    subst m'. split; [lia | exact Hi]. }
  intros a loc hook [d|] Hd; cbn; lia.
Qed.

Lemma exhausted_depth_issues_no_round_witness :
  resolveAllReferences Sample.no_fetch VUndefined Sample.flat_pending
  = (Returns tt,
     add_logged {| log_message := "Maximum reference depth of 0 has been exceeded.";
                   log_args := [] |} Sample.flat_pending)
  /\ issued (snd (mapFilterResponse Sample.ext 2 Sample.no_fetch [Sample.unknown_item]
                    None VUndefined None None Sample.flat_pending))
     = []
  /\ exists response mapped m',
       mapFilterResponse SampleSite.ext 3 Sample.no_fetch [SampleSite.product] None
                         VUndefined None None Sample.flat_mapper
       = (Returns response, m')
       /\ mappedItems response = [mapped]
       /\ JS.get_opt (JS.get_opt mapped "data") "st_image"
          = VStr "[REFERENCED-ITEM-m1.en_GB]"
       /\ JS.lookup "m1.en_GB" (referenceMap response)
          = Some [[Key "d1"; Key "data"; Key "st_image"]]
       /\ JS.lookup "m1.en_GB" (mr_resolvedReferences response) = None.
Proof.
  destruct (exhausted_depth_issues_no_round Sample.ext 2 Sample.no_fetch VUndefined
              Sample.flat_pending)
    as (Hrun & _ & Hmap & _).
  { cbn. lia. }
  split; [exact Hrun|].
  split; [exact (proj2 (Hmap [Sample.unknown_item] None None None))|].
  pose (run := mapFilterResponse SampleSite.ext 3 Sample.no_fetch
                                 [SampleSite.product] None VUndefined None None
                                 Sample.flat_mapper).
  pose (response := match fst run with
                    | Returns r => r
                    | _ => {| mappedItems := []; referenceMap := [];
                              mr_resolvedReferences := [] |}
                    end).
  assert (Hproduct : run = (Returns response, snd run)) by reflexivity.
  destruct (exhausted_depth_issues_no_round SampleSite.ext 3 Sample.no_fetch
              VUndefined Sample.flat_mapper)
    as (_ & _ & _ & Hunresolved & _).
  { cbn. lia. }
  destruct (Hunresolved [SampleSite.product] None None None response (snd run)
              Hproduct)
    as (kept & Hkept & _ & _ & _ & Hstill).
  cbn [keys_requested JS.truthy] in Hkept.
  destruct Hkept as (mapped & m1 & Hmapped & ->).
  exists response, (nth 0 (mappedItems response) VNull), (snd run).
  split; [exact Hproduct|].
  split; [reflexivity|]. split; [reflexivity|]. split; [reflexivity|].
  apply Hstill; [discriminate | reflexivity|].
  vm_compute in Hmapped. injection Hmapped as <- _.
  intros item [<- | []]. discriminate.
Defined.

(** ** What a request does to its mapper *)

Lemma evolves_trans (m1 m2 m3 : CaaSMapper) :
  evolves m1 m2 -> evolves m2 m3 -> evolves m1 m3.
Proof.
  intros H12 H23. induction H23 as [|m m' _ IH Hstep]; [exact H12|].
  eapply evolves_next; eassumption.
Qed.

Lemma evolves_step (m m' : CaaSMapper) : mapper_step m m' -> evolves m m'.
Proof. intros H. eapply evolves_next; [apply evolves_refl | exact H]. Qed.

Lemma evolves_logged (e : LogEntry) (m : CaaSMapper) : evolves m (add_logged e m).
Proof. apply evolves_step, step_logged. Qed.

Lemma evolves_issued (p : FetchByFilterParams) (m : CaaSMapper) :
  evolves m (add_issued p m).
Proof. apply evolves_step, step_issued. Qed.

Lemma evolves_registerReferencedItem (identifier : string) (path : NestedPath)
  (rp res : option string) :
  keeps evolves (registerReferencedItem identifier path rp res).
Proof.
  intros m.
  destruct (getRemoteConfigForProject m rp) as [c|] eqn:Hcfg.
  - destruct (JS.lookup (rp_id c) (_remoteReferences m)) as [bucket|] eqn:Hb.
    + rewrite (registerReferencedItem_remote _ _ _ _ _ _ _ Hcfg Hb). cbn [snd].
      apply evolves_step, step_register_remote, Hb.
    + destruct (getRemoteConfigForProject_some _ _ _ Hcfg) as (-> & Ht & _).
      unfold registerReferencedItem, remoteData_for. run_mapper.
      rewrite Hcfg, Ht. run_mapper. rewrite Ht, Hb. apply evolves_refl.
  - rewrite (registerReferencedItem_local _ _ _ _ _ Hcfg). cbn [snd].
    destruct (JS.truthy_opt rp).
    + eapply evolves_next; [apply evolves_logged|].
      apply (step_register_local (add_logged _ m)).
    + apply evolves_step, step_register_local.
Qed.

Create HintDb evolves.

#[local] Hint Resolve evolves_refl evolves_trans evolves_logged evolves_issued
  evolves_registerReferencedItem
  keeps_ret keeps_throw keeps_lift keeps_getM keeps_gets keeps_warn
  keeps_remoteData_for keeps_buildPreviewId keeps_buildMediaUrl
  keeps_mapDataEntries keeps_mapPermissionGroup keeps_mapSection
  keeps_mapImageMapArea keeps_mapLinksInRichTextElement
  keeps_mapLinksInRichTextElements_body keeps_option_of keeps_mapChildren
  keeps_mapCard keeps_mapContent2Section keeps_mapResolutionUrl
  keeps_mapMediaPictureResolutionUrls keeps_referencedItems_of : evolves.

Ltac evolves_rule :=
  first
    [ solve [eauto with evolves]
    | match goal with
      | |- keeps _ (let _ := _ in _) => cbv zeta
      | |- keeps _ (if ?b then _ else _) => destruct b
      | |- keeps _ (match ?x with _ => _ end) => destruct x
      | |- keeps _ (mapM _ _) =>
          apply (keeps_mapM evolves evolves_refl evolves_trans); intros ? ?
      | |- keeps _ (array_mapM _ _) =>
          apply (keeps_array_mapM evolves evolves_refl evolves_trans); intros ? ?
      | |- keeps _ (bind _ _) => apply (keeps_bind evolves evolves_trans); [|intro]
      end ].

Ltac evolves_tac := repeat evolves_rule.

Lemma evolves_registerReferencedItem_dyn (identifier : value) (path : NestedPath)
  (rp res : option string) :
  keeps evolves (registerReferencedItem_dyn identifier path rp res).
Proof. unfold registerReferencedItem_dyn. evolves_tac. Qed.

#[local] Hint Resolve evolves_registerReferencedItem_dyn : evolves.

Section EvolvingTree.

Variable ext : Externals.
Variable rec : DataEntryMapper.
Variable links : RichTextMapper.
Hypothesis evolves_rec : forall e p rl rp, keeps evolves (rec e p rl rp).
Hypothesis evolves_links : forall l p rl rp, keeps evolves (links l p rl rp).

Lemma evolves_mapImageMap (imageMap : value) (path : NestedPath)
  (rl rp : option string) :
  keeps evolves (mapImageMap ext rec imageMap path rl rp).
Proof. unfold mapImageMap. evolves_tac. Qed.

Lemma evolves_ask_customMapper (entry : value) (path : NestedPath) :
  keeps evolves (ask_customMapper entry path).
Proof.
  unfold ask_customMapper. evolves_tac.
Qed.

Local Hint Resolve evolves_mapImageMap evolves_ask_customMapper : evolves.

Lemma evolves_mapDataEntry_body (entry : value) (path : NestedPath)
  (rl rp : option string) :
  keeps evolves (mapDataEntry_body ext rec links entry path rl rp).
Proof. unfold mapDataEntry_body. evolves_tac. Qed.

End EvolvingTree.

Lemma evolves_knot (ext : Externals) (fuel : nat) :
  (forall e p rl rp, keeps evolves (mapDataEntry ext fuel e p rl rp))
  /\ (forall l p rl rp, keeps evolves (mapLinksInRichTextElements ext fuel l p rl rp)).
Proof.
  induction fuel as [|fuel [IHe IHl]].
  - split; intros; apply keeps_lift, evolves_refl.
  - split; intros.
    + apply (evolves_mapDataEntry_body ext _ _ IHe IHl).
    + apply (keeps_mapLinksInRichTextElements_body evolves evolves_refl evolves_trans
               _ _ IHe IHl).
Qed.

Lemma evolves_mapDataEntry (ext : Externals) (fuel : nat) (e : value) (p : NestedPath)
  (rl rp : option string) :
  keeps evolves (mapDataEntry ext fuel e p rl rp).
Proof. apply evolves_knot. Qed.

#[local] Hint Resolve evolves_mapDataEntry : evolves.

Section EvolvingItems.

Variable ext : Externals.
Variable fuel : nat.

Lemma evolves_mapBodyContent (c : value) (p : NestedPath) (rl rp : option string) :
  keeps evolves (mapBodyContent ext fuel c p rl rp).
Proof. unfold mapBodyContent. evolves_tac. Qed.

Local Hint Resolve evolves_mapBodyContent : evolves.

Lemma evolves_mapPageBody (b : value) (p : NestedPath) (rl rp : option string) :
  keeps evolves (mapPageBody ext fuel b p rl rp).
Proof. unfold mapPageBody. evolves_tac. Qed.

Local Hint Resolve evolves_mapPageBody : evolves.

Lemma evolves_mapPageBodies (b : value) (p : NestedPath) (rl rp : option string) :
  keeps evolves (mapPageBodies ext fuel b p rl rp).
Proof. unfold mapPageBodies. evolves_tac. Qed.

Local Hint Resolve evolves_mapPageBodies : evolves.

Lemma evolves_mapPageRef (v : value) (p : NestedPath) (rl rp : option string) :
  keeps evolves (mapPageRef ext fuel v p rl rp).
Proof. unfold mapPageRef. evolves_tac. Qed.

Lemma evolves_mapProjectProperties (v : value) (p : NestedPath)
  (rl rp : option string) :
  keeps evolves (mapProjectProperties ext fuel v p rl rp).
Proof. unfold mapProjectProperties. evolves_tac. Qed.

Lemma evolves_mapGCAPage (v : value) (p : NestedPath) (rl rp : option string) :
  keeps evolves (mapGCAPage ext fuel v p rl rp).
Proof. unfold mapGCAPage. evolves_tac. Qed.

Lemma evolves_mapDataset (v : value) (p : NestedPath) (rl rp : option string) :
  keeps evolves (mapDataset ext fuel v p rl rp).
Proof. unfold mapDataset. evolves_tac. Qed.

Lemma evolves_mapMediaPicture (v : value) (p : NestedPath) (rl rp : option string) :
  keeps evolves (mapMediaPicture ext fuel v p rl rp).
Proof. unfold mapMediaPicture. evolves_tac. Qed.

Lemma evolves_mapMediaFile (v : value) (p : NestedPath) (rl rp : option string) :
  keeps evolves (mapMediaFile ext fuel v p rl rp).
Proof. unfold mapMediaFile. evolves_tac. Qed.

Local Hint Resolve evolves_mapMediaPicture evolves_mapMediaFile evolves_mapPageRef
  evolves_mapProjectProperties evolves_mapGCAPage evolves_mapDataset : evolves.

Lemma evolves_mapMedia (v : value) (p : NestedPath) (rl rp : option string) :
  keeps evolves (mapMedia ext fuel v p rl rp).
Proof. unfold mapMedia. evolves_tac. Qed.

Local Hint Resolve evolves_mapMedia : evolves.

Lemma evolves_mapItem (rl rp : option string) (item : value) (index : nat) :
  keeps evolves (mapItem ext fuel rl rp item index).
Proof. unfold mapItem. evolves_tac. Qed.

Lemma evolves_addToResolvedReferences (item : value) (rp : option string) :
  keeps evolves (addToResolvedReferences ext item rp).
Proof.
  unfold addToResolvedReferences. evolves_tac.
  intros m. apply evolves_step, step_cached.
Qed.

Variable api_fetchByFilter : FetchByFilterParams -> M FetchResponse.
Hypothesis evolves_api : forall params, keeps evolves (api_fetchByFilter params).

Lemma evolves_resolveAllReferences (ctx : value) :
  keeps evolves (resolveAllReferences api_fetchByFilter ctx).
Proof.
  intros m. unfold resolveAllReferences, bind at 1, gets at 1. cbv beta iota.
  destruct (maxReferenceDepth m <=? referenceDepth m) eqn:Hdepth;
    [apply evolves_logged|].
  apply Z.leb_gt in Hdepth.
  unfold bind at 1, modify at 1. cbv beta iota.
  eapply evolves_trans; [apply evolves_step, step_descend, Hdepth|].
  generalize (set_referenceDepth (referenceDepth m + 1) m). clear m Hdepth.
  apply (keeps_bind evolves evolves_trans); [apply keeps_gets, evolves_refl|].
  intros remoteIds.
  apply (keeps_bind_yields evolves evolves_trans) with (P := Forall (keeps evolves)).
  - apply (keeps_mapM evolves evolves_refl evolves_trans). intros.
    apply keeps_async.
    apply (keeps_resolveReferencesPerProject evolves evolves_refl evolves_trans
             evolves_issued).
  - apply yields_mapM_from. intros.
    apply (yields_async evolves evolves_refl).
    apply (yields_resolveReferencesPerProject evolves evolves_refl evolves_trans
             _ evolves_api).
  - intros pending Hp.
    apply (keeps_bind evolves evolves_trans);
      [now apply (keeps_await_all evolves evolves_refl evolves_trans)|].
    intros. apply keeps_ret, evolves_refl.
Qed.

Local Hint Resolve evolves_mapItem evolves_addToResolvedReferences
  evolves_resolveAllReferences : evolves.

Lemma evolves_mapFilterResponse (items : list value)
  (params : option (list (string * value))) (ctx : value) (rl rp : option string) :
  keeps evolves (mapFilterResponse ext fuel api_fetchByFilter items params ctx rl rp).
Proof.
  unfold mapFilterResponse. cbv zeta.
  apply (keeps_bind evolves evolves_trans); [evolves_tac|]. intros mapped.
  apply (keeps_bind evolves evolves_trans); [evolves_tac|]. intros _.
  apply (keeps_bind evolves evolves_trans); [evolves_tac|]. intros _.
  apply (keeps_bind evolves evolves_trans); [evolves_tac|]. intros cache.
  intros m. unfold bind at 1, gets at 1. cbv beta iota.
  destruct (merge_remoteReferences (_remoteReferences m)) as [merged aliased] eqn:Hm.
  unfold bind at 1, modify at 1. cbv beta iota.
  unfold bind, gets, ret. cbn [snd].
  replace aliased with (snd (merge_remoteReferences (_remoteReferences m)))
    by now rewrite Hm.
  apply evolves_step, step_merged.
Qed.

End EvolvingItems.

(** A call of [fetchByFilter] that is handed the mapper changes it by these
    updates only, whatever the number of rounds. *)
Lemma evolves_fetchByFilter (ext : Externals) (fuel rounds : nat) :
  forall this params m,
    evolves m (after (fetchByFilter ext fuel rounds this params (Some m)) m).
Proof.
  induction rounds as [|rounds IH]; intros this params m.
  - apply evolves_refl.
  - cbn [fetchByFilter].
    apply (after_fetchByFilter_body evolves evolves_refl).
    intros. apply evolves_mapFilterResponse.
    intros p. apply keeps_mapper_call. exact IH.
Qed.

Lemma api_step_mapper {A : Type} (o : outcome A) (mapper : option CaaSMapper)
  (k : A -> outcome FetchResponse * option CaaSMapper) (P : option CaaSMapper -> Prop) :
  P mapper -> (forall a, P (snd (k a))) -> P (snd (api_step o mapper k)).
Proof. intros Hm Hk. destruct o; cbn [api_step snd]; auto. Qed.

Lemma fetchByFilter_mapper (ext : Externals) (fuel rounds : nat)
  (this : FSXARemoteApi) (params : FetchByFilterParams)
  (mapper : option CaaSMapper) :
  match snd (fetchByFilter ext fuel rounds this params mapper) with
  | Some m' => exists m0, mapper_of_call this mapper m0 /\ evolves m0 m'
  | None => mapper = None
  end.
Proof.
  assert (Hsame : match mapper with
                  | Some m' => exists m0, mapper_of_call this mapper m0 /\ evolves m0 m'
                  | None => mapper = None
                  end).
  { destruct mapper as [m|]; [|reflexivity].
    exists m. split; [reflexivity | apply evolves_refl]. }
  destruct rounds as [|rounds]; [exact Hsame|].
  cbn [fetchByFilter]. unfold fetchByFilter_body. cbv zeta.
  apply api_step_mapper with
    (P := fun r => match r with
                   | Some m' => exists m0, mapper_of_call this mapper m0 /\ evolves m0 m'
                   | None => mapper = None
                   end); [exact Hsame|]. intros url.
  destruct (negb (ok (fetch ext url (fp_fetchOptions params)))).
  { destruct (status _ =? 401); exact Hsame. }
  apply api_step_mapper with
    (P := fun r => match r with
                   | Some m' => exists m0, mapper_of_call this mapper m0 /\ evolves m0 m'
                   | None => mapper = None
                   end); [exact Hsame|]. intros data.
  apply api_step_mapper with
    (P := fun r => match r with
                   | Some m' => exists m0, mapper_of_call this mapper m0 /\ evolves m0 m'
                   | None => mapper = None
                   end); [exact Hsame|]. intros docs.
  destruct docs as [| | | | |[|item items]|]; try exact Hsame.
  unfold fetchByFilter_map. cbv zeta.
  apply api_step_mapper with
    (P := fun r => match r with
                   | Some m' => exists m0, mapper_of_call this mapper m0 /\ evolves m0 m'
                   | None => mapper = None
                   end); [exact Hsame|]. intros remoteProjectLocale.
  apply api_step_mapper with
    (P := fun r => match r with
                   | Some m' => exists m0, mapper_of_call this mapper m0 /\ evolves m0 m'
                   | None => mapper = None
                   end); [exact Hsame|]. intros mapperLocale.
  set (theMapper := match mapper with
                    | Some m => m
                    | None => new_CaaSMapper this mapperLocale (_customMapper this)
                                             None (_maxReferenceDepth this)
                    end).
  assert (Hthe : mapper_of_call this mapper theMapper).
  { subst theMapper. destruct mapper; [reflexivity | eexists; reflexivity]. }
  pose proof (evolves_mapFilterResponse ext fuel
                (mapper_call (fetchByFilter ext fuel rounds))
                (fun p => keeps_mapper_call evolves _ p
                            (evolves_fetchByFilter ext fuel rounds))
                (item :: items)
                (Some match fp_additionalParams params with Some a => a | None => [] end)
                (fp_filterContext params) remoteProjectLocale
                (fp_remoteProject params) theMapper) as Hm.
  destruct (mapFilterResponse _ _ _ _ _ _ _ _ theMapper) as [mapping m'].
  cbn [snd] in Hm.
  assert (Hend : exists m0, mapper_of_call this mapper m0 /\ evolves m0 m') by eauto.
  destruct mapping as [response|e| |]; cbn [api_step snd]; try exact Hend.
  destruct (match _caasItemFilter this with
            | Some caasItemFilter => caasItemFilter response (fp_filterContext params)
            | None => Returns response
            end); cbn [api_step snd]; exact Hend.
Qed.

Lemma keys_assign_present {A : Type} (k : string) (v : A) (l : list (string * A)) :
  JS.lookup k l <> None -> JS.keys (JS.assign k v l) = JS.keys l.
Proof.
  induction l as [|[k' v'] l IH]; simpl; intros H; [congruence|].
  destruct (k =? k')%string eqn:E; simpl.
  - apply String.eqb_eq in E. now subst.
  - f_equal. apply IH. exact H.
Qed.

Lemma keys_merge_remoteReferences (buckets : list (string * ReferencedItemsInfo)) :
  JS.keys (snd (merge_remoteReferences buckets)) = JS.keys buckets.
Proof. destruct buckets as [|[key first] rest]; reflexivity. Qed.

Lemma lookup_assign_all_some {A : Type} (k : string) (src dst : list (string * A)) :
  JS.lookup k dst <> None -> JS.lookup k (JS.assign_all dst src) <> None.
Proof.
  unfold JS.assign_all. revert dst.
  induction src as [|[k' v'] src IH]; intros dst H; simpl; [exact H|].
  apply IH. now apply lookup_assign_some.
Qed.

Lemma lookup_merged_some (k : string) (others : list ReferencedItemsInfo)
  (first : ReferencedItemsInfo) :
  JS.lookup k first <> None ->
  JS.lookup k (fold_left (fun result current => JS.assign_all result current)
                         others first) <> None.
Proof.
  revert first. induction others as [|o others IH]; intros first H; simpl; [exact H|].
  apply IH. now apply lookup_assign_all_some.
Qed.

(** The depth counter only counts up, and not past the maximum. *)
Lemma evolves_depth (m m' : CaaSMapper) :
  evolves m m' ->
  maxReferenceDepth m' = maxReferenceDepth m
  /\ referenceDepth m <= referenceDepth m'
  /\ referenceDepth m' <= Z.max (referenceDepth m) (maxReferenceDepth m).
Proof.
  induction 1 as [|m1 m2 _ (Hmax & Hle & Hbound) Hstep]; [lia|].
  destruct Hstep; cbn [add_logged set_referencedItems set_remoteReferences
                       set_resolvedReferences add_issued set_referenceDepth
                       maxReferenceDepth referenceDepth]; lia.
Qed.

(** The configuration of the mapper and the set of its remote registries do
    not change. *)
Lemma evolves_configuration (m m' : CaaSMapper) :
  evolves m m' ->
  api m' = api m /\ locale m' = locale m /\ customMapper m' = customMapper m
  /\ JS.keys (_remoteReferences m') = JS.keys (_remoteReferences m).
Proof.
  induction 1 as [|m1 m2 _ (Hapi & Hloc & Hhook & Hkeys) Hstep]; [auto|].
  destruct Hstep; cbn [add_logged set_referencedItems set_remoteReferences
                       set_resolvedReferences add_issued set_referenceDepth
                       api locale customMapper _remoteReferences]; auto.
  - repeat split; auto. rewrite keys_assign_present; [exact Hkeys | congruence].
  - repeat split; auto. now rewrite keys_merge_remoteReferences.
Qed.

Lemma lookup_keys {A : Type} (k : string) (l : list (string * A)) :
  JS.lookup k l <> None <-> In k (JS.keys l).
Proof.
  induction l as [|[k' v] l IH]; simpl; [tauto|].
  destruct (String.eqb_spec k k') as [->|Hne]; [split; [auto | discriminate]|].
  rewrite IH. split; [auto | intros [H|H]; [congruence | exact H]].
Qed.

Lemma evolves_ready (m m' : CaaSMapper) :
  evolves m m' -> registries_ready m -> registries_ready m'.
Proof.
  intros Hev Hready entry Hin.
  destruct (evolves_configuration _ _ Hev) as (Hapi & _ & _ & Hkeys).
  rewrite Hapi in Hin. apply Hready in Hin.
  apply lookup_keys. rewrite Hkeys. now apply lookup_keys.
Qed.

Lemma retains_refl (m : CaaSMapper) : retains m m.
Proof.
  repeat split; auto. intros id paths H. exists []. now rewrite app_nil_r.
Qed.

Lemma retains_trans (m1 m2 m3 : CaaSMapper) :
  retains m1 m2 -> retains m2 m3 -> retains m1 m3.
Proof.
  intros (Hc & Hr & Hp) (Hc' & Hr' & Hp'). repeat split; auto.
  intros id paths H. destruct (Hp _ _ H) as (more & H1).
  destruct (Hp' _ _ H1) as (more' & H2). exists (more ++ more')%list.
  now rewrite app_assoc.
Qed.

Lemma retains_same (m m' : CaaSMapper) :
  resolvedReferences m' = resolvedReferences m ->
  _referencedItems m' = _referencedItems m ->
  _remoteReferences m' = _remoteReferences m ->
  retains m m'.
Proof.
  intros Hc Hl Hr. unfold retains, registered. rewrite Hc, Hl, Hr.
  apply retains_refl.
Qed.

Lemma retains_step (m m' : CaaSMapper) : mapper_step m m' -> retains m m'.
Proof.
  intros Hstep. destruct Hstep; try (apply retains_same; reflexivity).
  - (* local registration *)
    split; [auto|]. split.
    + intros [key|] id' H; [exact H|].
      cbn [registered set_referencedItems _referencedItems] in *.
      unfold append_path. now apply lookup_assign_some.
    + intros id' paths H. cbn [set_referencedItems _referencedItems].
      unfold append_path. destruct (String.eqb_spec id' id) as [->|Hne].
      * rewrite lookup_assign_eq, H. eauto.
      * rewrite lookup_assign_ne by assumption. exists []. now rewrite app_nil_r.
  - (* remote registration *)
    split; [auto|]. split.
    + intros [key'|] id' Hreg; [|exact Hreg].
      cbn [registered set_remoteReferences _remoteReferences] in *.
      destruct (String.eqb_spec key' key) as [->|Hne].
      * rewrite lookup_assign_eq. rewrite H in Hreg.
        unfold append_path. now apply lookup_assign_some.
      * rewrite lookup_assign_ne by assumption. exact Hreg.
    + intros id' paths Hl. exists []. now rewrite app_nil_r.
  - (* caching *)
    split.
    + intros k' H. cbn [set_resolvedReferences resolvedReferences].
      now apply lookup_assign_some.
    + split; [auto|]. intros id paths H. exists []. now rewrite app_nil_r.
  - (* merging the remote registries *)
    split; [auto|]. split.
    + intros [key|] id Hreg; [|exact Hreg].
      cbn [registered set_remoteReferences _remoteReferences] in *.
      destruct (_remoteReferences m) as [|[k0 first] rest]; [exact Hreg|].
      cbn [merge_remoteReferences snd JS.lookup] in *.
      destruct (key =? k0)%string; [|exact Hreg].
      now apply lookup_merged_some.
    + intros id paths H. exists []. now rewrite app_nil_r.
Qed.

Lemma evolves_retains (m m' : CaaSMapper) : evolves m m' -> retains m m'.
Proof.
  induction 1 as [|m1 m2 _ IH Hstep]; [apply retains_refl|].
  eapply retains_trans; [exact IH | now apply retains_step].
Qed.

Lemma registerReferencedItem_returns (m : CaaSMapper) (identifier : string)
  (path : NestedPath) (rp res : option string) :
  registries_ready m ->
  exists token m', registerReferencedItem identifier path rp res m = (Returns token, m').
Proof.
  intros Hready.
  destruct (getRemoteConfigForProject m rp) as [c|] eqn:Hcfg.
  - destruct (getRemoteConfigForProject_some _ _ _ Hcfg) as (_ & _ & Hin).
    destruct (JS.lookup (rp_id c) (_remoteReferences m)) as [bucket|] eqn:Hb;
      [|now apply Hready in Hin].
    rewrite (registerReferencedItem_remote _ _ _ _ _ _ _ Hcfg Hb). eauto.
  - rewrite (registerReferencedItem_local _ _ _ _ _ Hcfg). eauto.
Qed.

(** X1.  The depth counter of the mapper in use when a call of [fetchByFilter]
    ends: it is not below its value at the start and not above the larger of
    that value and the maximum depth, which is unchanged.  A call that is
    not handed a mapper constructs one that starts at depth 0, with the
    maximum depth of the configuration or 10. *)
Theorem fetchByFilter_depth_bounded (ext : Externals) (fuel rounds : nat)
  (this : FSXARemoteApi) (params : FetchByFilterParams)
  (mapper : option CaaSMapper) :
  match snd (fetchByFilter ext fuel rounds this params mapper), mapper with
  | Some m', Some m =>
      maxReferenceDepth m' = maxReferenceDepth m
      /\ referenceDepth m <= referenceDepth m'
         <= Z.max (referenceDepth m) (maxReferenceDepth m)
  | Some m', None =>
      maxReferenceDepth m'
      = match _maxReferenceDepth this with
        | Some d => d
        | None => DEFAULT_MAX_REFERENCE_DEPTH
        end
      /\ 0 <= referenceDepth m' <= Z.max 0 (maxReferenceDepth m')
  | None, _ => mapper = None
  end.
Proof.
  pose proof (fetchByFilter_mapper ext fuel rounds this params mapper) as H.
  destruct (snd (fetchByFilter ext fuel rounds this params mapper)) as [m'|];
    [|now subst].
  destruct H as (m0 & Hstart & Hev).
  destruct (evolves_depth _ _ Hev) as (Hmax & Hle & Hbound).
  destruct mapper as [m|]; cbn [mapper_of_call] in Hstart.
  - subst m0. lia.
  - destruct Hstart as (mapperLocale & ->).
    cbn [new_CaaSMapper maxReferenceDepth referenceDepth] in *.
    rewrite Hmax. split; [reflexivity | lia].
Qed.

(** X2.  A call of [fetchByFilter] leaves the configuration of the mapper and
    the set of its remote registries as they are.  A mapper that has a
    registry for every configured remote project, as every constructed
    mapper has, still has them when the call ends, so a registration on it
    returns. *)
Theorem fetchByFilter_keeps_registries (ext : Externals) (fuel rounds : nat)
  (this : FSXARemoteApi) (params : FetchByFilterParams)
  (mapper : option CaaSMapper) :
  match snd (fetchByFilter ext fuel rounds this params mapper) with
  | Some m' =>
      (forall m, mapper = Some m ->
         api m' = api m /\ locale m' = locale m /\ customMapper m' = customMapper m
         /\ JS.keys (_remoteReferences m') = JS.keys (_remoteReferences m))
      /\ ((forall m, mapper = Some m -> registries_ready m) ->
          registries_ready m'
          /\ forall identifier path remoteProjectId imageMapResolution,
               exists token m'',
                 registerReferencedItem identifier path remoteProjectId
                                        imageMapResolution m'
                 = (Returns token, m''))
  | None => mapper = None
  end.
Proof.
  pose proof (fetchByFilter_mapper ext fuel rounds this params mapper) as H.
  destruct (snd (fetchByFilter ext fuel rounds this params mapper)) as [m'|];
    [|exact H].
  destruct H as (m0 & Hstart & Hev). split.
  - intros m ->. cbn [mapper_of_call] in Hstart. subst m0.
    now apply evolves_configuration.
  - intros Hready.
    assert (Hready' : registries_ready m').
    { apply (evolves_ready _ _ Hev).
      destruct mapper as [m|]; cbn [mapper_of_call] in Hstart.
      - subst m0. now apply Hready.
      - destruct Hstart as (mapperLocale & ->). apply new_CaaSMapper_ready. }
    split; [exact Hready'|]. intros. now apply registerReferencedItem_returns.
Qed.

(** X3.  A call of [fetchByFilter] that is handed the mapper forgets
    nothing: every key of the cache and of a registry is still a key when the
    call ends, and the paths registered for a local reference are still
    registered, in front of those the call added. *)
Theorem fetchByFilter_retains (ext : Externals) (fuel rounds : nat)
  (this : FSXARemoteApi) (params : FetchByFilterParams) (m : CaaSMapper) :
  let m' := after (fetchByFilter ext fuel rounds this params (Some m)) m in
  (forall k, JS.lookup k (resolvedReferences m) <> None ->
             JS.lookup k (resolvedReferences m') <> None)
  /\ (forall project id, registered m project id <> None ->
                         registered m' project id <> None)
  /\ (forall id paths, JS.lookup id (_referencedItems m) = Some paths ->
        exists more, JS.lookup id (_referencedItems m') = Some (paths ++ more)%list).
Proof.
  apply evolves_retains, evolves_fetchByFilter.
Qed.

Lemma offline_trans (m1 m2 m3 : CaaSMapper) :
  offline m1 m2 -> offline m2 m3 -> offline m1 m3.
Proof. unfold offline. intuition congruence. Qed.

(** X4.  Mapping content is local: [mapDataEntry] on a data entry and the
    dispatch of [mapFilterResponse] on a top-level item leave the cache and
    the depth counter as they are and call [fetchByFilter] not once, whatever
    the content and the custom mapper; they only register references and
    log. *)
Theorem mapping_is_offline (ext : Externals) (fuel : nat) (node : value)
  (path : NestedPath) (remoteProjectLocale remoteProjectId : option string)
  (index : nat) (m : CaaSMapper) :
  offline m (snd (mapDataEntry ext fuel node path remoteProjectLocale
                               remoteProjectId m))
  /\ offline m (snd (mapItem ext fuel remoteProjectLocale remoteProjectId
                             node index m)).
Proof.
  split.
  - apply (keeps_mapDataEntry offline); try apply offline_trans;
      intros; repeat split.
  - apply (keeps_mapItem offline); try apply offline_trans;
      intros; repeat split.
Qed.

(** ** A round with nothing left to resolve *)

Lemma idsToFetchFromCaaS_resolved (registry : ReferencedItemsInfo)
  (cache : ResolvedReferencesInfo) :
  (forall id, In id (JS.keys registry) -> In id (JS.keys cache)) ->
  idsToFetchFromCaaS registry cache = [].
Proof.
  intros H. unfold idsToFetchFromCaaS.
  replace (filter _ (JS.keys registry)) with (@nil string); [reflexivity|].
  symmetry. induction (JS.keys registry) as [|id ids IH]; [reflexivity|].
  cbn [filter].
  assert (Hin : existsb (String.eqb id) (JS.keys cache) = true).
  { apply existsb_exists. exists id. split; [apply H; now left | apply String.eqb_refl]. }
  rewrite Hin. cbn [negb]. apply IH. intros id' Hid'. apply H. now right.
Qed.

Lemma resolveReferencesPerProject_resolved
  (api_fetchByFilter : FetchByFilterParams -> M FetchResponse)
  (m : CaaSMapper) (project : option string) (ctx : value) :
  fully_resolved m ->
  (project = None \/ exists key, project = Some key /\ In key (JS.keys (_remoteReferences m))) ->
  async (resolveReferencesPerProject api_fetchByFilter project ctx) m
  = (Returns (ret tt), m).
Proof.
  intros Hres Hproject.
  assert (Hregistry : exists registry,
             registry_for m project = Some registry
             /\ In registry (_referencedItems m :: JS.values (_remoteReferences m))).
  { destruct Hproject as [->|(key & -> & Hkey)].
    - exists (_referencedItems m). split; [reflexivity | now left].
    - cbn [registry_for]. destruct (JS.truthy_str key).
      + apply lookup_keys in Hkey.
        destruct (JS.lookup key (_remoteReferences m)) as [bucket|] eqn:Hb;
          [|congruence].
        exists bucket. split; [reflexivity|]. right. eapply lookup_In_values, Hb.
      + exists (_referencedItems m). split; [reflexivity | now left]. }
  destruct Hregistry as (registry & Hfor & Hin).
  unfold async.
  rewrite (resolveReferencesPerProject_run api_fetchByFilter m project ctx registry Hfor).
  unfold round_requests.
  rewrite (idsToFetchFromCaaS_resolved registry _ (Hres registry Hin)).
  rewrite chunk_nil. reflexivity.
Qed.

Lemma rounds_resolved
  (api_fetchByFilter : FetchByFilterParams -> M FetchResponse)
  (m : CaaSMapper) (ctx : value) (projects : list (option string)) (i : nat) :
  fully_resolved m ->
  (forall project, In project projects ->
     project = None
     \/ exists key, project = Some key /\ In key (JS.keys (_remoteReferences m))) ->
  mapM_from i (fun project (_ : nat) =>
                 async (resolveReferencesPerProject api_fetchByFilter project ctx))
            projects m
  = (Returns (map (fun _ => ret tt) projects), m).
Proof.
  intros Hres. revert i. induction projects as [|p projects IH]; intros i Hp.
  - reflexivity.
  - cbn [mapM_from map]. unfold bind at 1.
    rewrite resolveReferencesPerProject_resolved by (auto; apply Hp; now left).
    unfold bind at 1. rewrite IH by (intros; apply Hp; now right). reflexivity.
Qed.

Lemma await_all_done (n : nat) (m : CaaSMapper) :
  await_all (repeat (@ret unit tt) n) m = (Returns (repeat tt n), m).
Proof.
  induction n as [|n IH]; [reflexivity|].
  cbn [repeat await_all]. unfold bind at 1, ret at 1. unfold bind at 1.
  rewrite IH. reflexivity.
Qed.

Lemma map_const_repeat {A B : Type} (b : B) (l : list A) :
  map (fun _ => b) l = repeat b (length l).
Proof. induction l; simpl; congruence. Qed.

(** X5.  When every registered id has its item in the cache and the depth
    counter is below the maximum, [resolveAllReferences] issues no request
    and calls [fetchByFilter] not once: it returns with the depth counter
    raised by one and the mapper otherwise as it was.  The rounds end
    here. *)
Theorem resolveAllReferences_settled
  (api_fetchByFilter : FetchByFilterParams -> M FetchResponse)
  (filterContext : value) (m : CaaSMapper)
  (Hdepth : referenceDepth m < maxReferenceDepth m)
  (Hresolved : fully_resolved m) :
  resolveAllReferences api_fetchByFilter filterContext m
  = (Returns tt, set_referenceDepth (referenceDepth m + 1) m).
Proof.
  unfold resolveAllReferences, bind at 1, gets at 1. cbv beta iota.
  apply Z.leb_gt in Hdepth. rewrite Hdepth.
  unfold bind at 1, modify at 1. cbv beta iota.
  unfold bind at 1, gets at 1. cbv beta iota.
  unfold bind at 1, mapM.
  rewrite rounds_resolved.
  - rewrite map_const_repeat. unfold bind at 1. rewrite await_all_done. reflexivity.
  - intros registry Hin. exact (Hresolved registry Hin).
  - intros project [<-|Hin]; [now left|]. right.
    apply in_map_iff in Hin. destruct Hin as (key & <- & Hkey). eauto.
Qed.

Lemma resolveAllReferences_settled_witness :
  resolveAllReferences Sample.no_fetch VUndefined SampleSite.settled_mapper
  = (Returns tt, set_referenceDepth 1 SampleSite.settled_mapper).
Proof.
  apply (resolveAllReferences_settled Sample.no_fetch VUndefined
           SampleSite.settled_mapper).
  - reflexivity.
  - intros registry [<-|[<-|[]]] id; simpl; tauto.
Defined.

(** ** From registration to request *)

Lemma keys_assign_In {A : Type} (k : string) (v : A) (l : list (string * A)) :
  In k (JS.keys (JS.assign k v l)).
Proof. apply lookup_keys. rewrite lookup_assign_eq. discriminate. Qed.

Lemma In_concat_chunk {A : Type} (x : A) (l : list A) (size : nat) :
  (0 < size)%nat -> In x l -> exists batch, In batch (chunk l size) /\ In x batch.
Proof.
  intros Hsize Hin. destruct (chunk_spec l size Hsize) as [Hcat _].
  rewrite <- Hcat in Hin. apply in_concat in Hin.
  destruct Hin as (batch & Hb & Hx). eauto.
Qed.

Lemma round_requests_In (m : CaaSMapper) (project : option string) (ctx : value)
  (registry : ReferencedItemsInfo) (id : string) :
  In id (JS.keys registry) ->
  ~ In id (JS.keys (resolvedReferences m)) ->
  exists batch,
    In (store_id id) batch
    /\ In (chunk_request batch (round_locale m project) project ctx)
          (round_requests m project ctx registry).
Proof.
  intros Hin Hnot.
  assert (Hids : In (store_id id) (idsToFetchFromCaaS registry (resolvedReferences m))).
  { unfold idsToFetchFromCaaS. apply in_map. apply filter_In. split; [exact Hin|].
    apply negb_true_iff. apply not_true_iff_false. intros Hex.
    apply existsb_exists in Hex. destruct Hex as (k & Hk & Heq).
    apply String.eqb_eq in Heq. subst k. contradiction. }
  destruct (In_concat_chunk _ _ 30 ltac:(lia) Hids) as (batch & Hb & Hx).
  exists batch. split; [exact Hx|].
  unfold round_requests.
  apply (in_map (fun batch => chunk_request batch (round_locale m project) project ctx)).
  exact Hb.
Qed.

(** X6.  A reference that is registered is requested.  The mapper has a
    registry for every configured remote project.  The id of an element, with
    no ['.'] and no ['#'] in it, is registered for a configured remote
    project whose id has no ['.'] and no ['#'] in it, or else for the local
    project, with a locale of the mapper that has no ['#'] in it; and no item
    is cached under the unified id.  Then the next round for that project
    issues a request whose batch of ids holds the id of the element.  The
    request is made in the locale of the remote project where it has one, and
    in the locale of the mapper otherwise. *)
Theorem registered_reference_is_requested
  (api_fetchByFilter : FetchByFilterParams -> M FetchResponse)
  (m : CaaSMapper) (uuid : string) (path : NestedPath)
  (remoteProjectId imageMapResolution : option string) (filterContext : value)
  (Hready : registries_ready m)
  (Hdot : JS.find_char "." uuid = None)
  (Hhash : JS.find_char "#" uuid = None)
  (Hproject : match getRemoteConfigForProject m remoteProjectId with
              | Some c => JS.find_char "." (rp_id c) = None
                          /\ JS.find_char "#" (rp_id c) = None
              | None => JS.find_char "#" (locale m) = None
              end)
  (Hfresh : ~ In (unifyId m uuid (getRemoteConfigForProject m remoteProjectId))
                 (JS.keys (resolvedReferences m))) :
  let cfg := getRemoteConfigForProject m remoteProjectId in
  let project := option_map rp_id cfg in
  let requestLocale := match own_locale cfg with Some l => l | None => locale m end in
  exists token m1 pending m2 batch,
    registerReferencedItem uuid path remoteProjectId imageMapResolution m
    = (Returns token, m1)
    /\ resolveReferencesPerProject api_fetchByFilter project filterContext m1
       = (Returns pending, m2)
    /\ In uuid batch
    /\ In (chunk_request batch (Some requestLocale) project filterContext)
          (issued m2).
Proof.
  intros cfg project requestLocale. subst project requestLocale.
  destruct cfg as [c|] eqn:Hcfg; subst cfg; rewrite Hcfg in *.
  - (* a configured remote project *)
    destruct Hproject as [Hkdot Hkhash].
    destruct (getRemoteConfigForProject_some _ _ _ Hcfg) as (Hrp & Ht & Hin).
    destruct (JS.lookup (rp_id c) (_remoteReferences m)) as [bucket|] eqn:Hb;
      [|now apply Hready in Hin].
    set (canonical := unifyId m uuid (Some c)) in *.
    set (m1 := set_remoteReferences
                 (JS.assign (rp_id c) (append_path canonical path bucket)
                            (_remoteReferences m)) m).
    assert (Hfor : registry_for m1 (Some (rp_id c))
                   = Some (append_path canonical path bucket)).
    { cbn [registry_for]. rewrite Ht. subst m1.
      cbn [set_remoteReferences _remoteReferences]. apply lookup_assign_eq. }
    destruct (round_requests_In m1 (Some (rp_id c)) filterContext
                (append_path canonical path bucket) canonical) as (batch & Hx & Hreq).
    { apply keys_assign_In. }
    { exact Hfresh. }
    exists (placeholder true imageMapResolution canonical), m1.
    eexists. eexists. exists batch.
    split; [apply (registerReferencedItem_remote _ _ _ _ _ _ _ Hcfg Hb)|].
    split; [apply (resolveReferencesPerProject_run api_fetchByFilter m1 _ _ _ Hfor)|].
    split.
    + subst canonical. rewrite unifyId_without_separator in Hx by exact Hdot.
      cbn [project_prefix] in Hx. rewrite string_append_assoc in Hx.
      rewrite store_id_remote in Hx by assumption. exact Hx.
    + cbn [option_map].
      destruct (issue_all_fields
                  (round_requests m1 (Some (rp_id c)) filterContext
                     (append_path canonical path bucket)) m1) as (-> & _).
      apply in_or_app. right.
      rewrite round_locale_own in Hreq.
      replace (getRemoteConfigForProject m1 (Some (rp_id c))) with (Some c) in Hreq.
      * exact Hreq.
      * rewrite <- Hrp, <- Hcfg. reflexivity.
  - (* the local project *)
    set (canonical := unifyId m uuid None) in *.
    set (m0 := if JS.truthy_opt remoteProjectId
               then add_logged (unknown_remote_warning uuid
                                  (match remoteProjectId with
                                   | Some p => p
                                   | None => "undefined"
                                   end)) m
               else m).
    set (m1 := set_referencedItems
                 (append_path canonical path (_referencedItems m)) m0).
    assert (Hm1 : resolvedReferences m1 = resolvedReferences m
                  /\ locale m1 = locale m /\ api m1 = api m).
    { subst m1 m0. destruct (JS.truthy_opt remoteProjectId); repeat split. }
    destruct Hm1 as (Hcache & Hloc & Hapi).
    assert (Hfor : registry_for m1 None = Some (append_path canonical path (_referencedItems m)))
      by reflexivity.
    destruct (round_requests_In m1 None filterContext
                (append_path canonical path (_referencedItems m)) canonical)
      as (batch & Hx & Hreq).
    { apply keys_assign_In. }
    { rewrite Hcache. exact Hfresh. }
    exists (placeholder false imageMapResolution canonical), m1.
    eexists. eexists. exists batch.
    split; [apply (registerReferencedItem_local _ _ _ _ _ Hcfg)|].
    split; [apply (resolveReferencesPerProject_run api_fetchByFilter m1 _ _ _ Hfor)|].
    split.
    + subst canonical. rewrite unifyId_without_separator in Hx by exact Hdot.
      cbn [project_prefix own_locale] in Hx.
      change ("" ++ uuid ++ "." ++ locale m) with (uuid ++ "." ++ locale m) in Hx.
      rewrite store_id_local in Hx by assumption. exact Hx.
    + cbn [option_map own_locale].
      destruct (issue_all_fields
                  (round_requests m1 None filterContext
                     (append_path canonical path (_referencedItems m))) m1) as (-> & _).
      apply in_or_app. right.
      rewrite round_locale_own in Hreq. cbn [getRemoteConfigForProject own_locale] in Hreq.
      rewrite Hloc in Hreq. exact Hreq.
Qed.

Lemma registered_reference_is_requested_witness :
  exists token m1 pending m2 batch,
    registerReferencedItem "m7" [Key "page1.en_GB"; Key "data"; Key "st_teaser"]
                           (Some "media") None Sample.round_mapper
    = (Returns token, m1)
    /\ resolveReferencesPerProject Sample.no_fetch (Some "media") VUndefined m1
       = (Returns pending, m2)
    /\ In "m7" batch
    /\ In (chunk_request batch (Some "en_GB") (Some "media") VUndefined) (issued m2).
Proof.
  apply (registered_reference_is_requested Sample.no_fetch Sample.round_mapper "m7"
           [Key "page1.en_GB"; Key "data"; Key "st_teaser"] (Some "media") None
           VUndefined).
  - intros entry [<-|[]]. simpl. discriminate.
  - reflexivity.
  - reflexivity.
  - split; reflexivity.
  - simpl. intros [H|[]]. discriminate.
Defined.

(** ** Identifiers, cache and media URLs *)

Lemma find_char_append_some (c : ascii) (a b : string) (n : nat) :
  JS.find_char c a = Some n -> JS.find_char c (a ++ b) = Some n.
Proof.
  revert n. induction a as [|x a IH]; simpl; intros n H; [discriminate|].
  destruct (Ascii.eqb x c); [exact H|].
  destruct (JS.find_char c a) as [k|]; [|discriminate].
  now rewrite (IH k eq_refl).
Qed.

Lemma includes_char_append_l (c : ascii) (a b : string) :
  JS.includes_char c a = true -> JS.includes_char c (a ++ b) = true.
Proof.
  unfold JS.includes_char. destruct (JS.find_char c a) as [n|] eqn:E; [|discriminate].
  now rewrite (find_char_append_some _ _ _ _ E).
Qed.

Lemma includes_char_append_r (c : ascii) (a b : string) :
  JS.includes_char c b = true -> JS.includes_char c (a ++ b) = true.
Proof.
  unfold JS.includes_char. intros H.
  destruct (JS.find_char c a) as [n|] eqn:E.
  - now rewrite (find_char_append_some _ _ _ _ E).
  - rewrite (find_char_append_none _ _ _ E).
    destruct (JS.find_char c b); [reflexivity | discriminate].
Qed.

Lemma includes_char_here (c : ascii) (s : string) :
  JS.includes_char c (String c s) = true.
Proof. unfold JS.includes_char. simpl. now rewrite Ascii.eqb_refl. Qed.

Lemma unifyId_prefixed (m : CaaSMapper) (id : string)
  (cfg : option RemoteProjectConfigurationEntry) :
  exists rest, unifyId m id cfg = project_prefix cfg ++ rest
               /\ JS.includes_char "." rest = true.
Proof.
  assert (Hdot : forall a b, JS.includes_char "." (a ++ "." ++ b) = true).
  { intros. apply includes_char_append_r, includes_char_here. }
  unfold unifyId, JS.indexOf.
  destruct (JS.find_char "." id) as [n|] eqn:Hfind.
  - assert (Hid : JS.includes_char "." id = true).
    { unfold JS.includes_char. now rewrite Hfind. }
    destruct (0 <? Z.of_nat n); destruct cfg as [c|]; cbn [project_prefix].
    + destruct (rp_locale c) as [l|]; [destruct (JS.truthy_str l)|].
      all: eexists; (split; [symmetry; apply string_append_assoc|]); auto.
    + exists id. auto.
    + eexists. split; [symmetry; apply string_append_assoc | auto].
    + eexists. split; [reflexivity | auto].
  - cbn [Z.ltb Z.compare]. destruct cfg as [c|]; cbn [project_prefix].
    + eexists. split; [symmetry; apply string_append_assoc | auto].
    + eexists. split; [reflexivity | auto].
Qed.

(** X7.  A unified id always has a ["."] in it, after the project prefix, so
    the round finds the end of the id of the content store.  A unified id of
    the local project is left as it is when it is unified again, unless the
    raw id is empty or starts with ["."]. *)
Theorem unifyId_has_separator (m : CaaSMapper) (id : string)
  (cfg : option RemoteProjectConfigurationEntry) :
  JS.includes_char "." (unifyId m id cfg) = true
  /\ (exists rest, unifyId m id cfg = project_prefix cfg ++ rest
                   /\ JS.includes_char "." rest = true)
  /\ (id <> "" -> JS.find_char "." id <> Some 0%nat ->
      unifyId m (unifyId m id None) None = unifyId m id None).
Proof.
  pose proof (unifyId_prefixed m id cfg) as Hrest.
  split; [|split; [exact Hrest|]].
  - destruct Hrest as (rest & -> & Hinc). now apply includes_char_append_r.
  - intros Hne Hfirst.
    destruct (JS.find_char "." id) as [[|n]|] eqn:Hfind; [congruence| |].
    + assert (Hid : unifyId m id None = id).
      { unfold unifyId, JS.indexOf. rewrite Hfind. reflexivity. }
      now rewrite !Hid.
    + rewrite (unifyId_without_separator m id None Hfind).
      cbn [project_prefix own_locale].
      change ("" ++ id ++ "." ++ locale m) with (id ++ String "." (locale m)).
      unfold unifyId at 1, JS.indexOf.
      rewrite (find_char_append_absent _ _ _ Hfind).
      assert (Hpos : (0 <? Z.of_nat (String.length id)) = true).
      { apply Z.ltb_lt. destruct id; [contradiction | simpl; lia]. }
      rewrite Hpos. reflexivity.
Qed.

Lemma find_char_tail (c x : ascii) (s : string) :
  JS.find_char c (String x s) = None ->
  Ascii.eqb x c = false /\ JS.find_char c s = None.
Proof.
  simpl. destruct (Ascii.eqb x c); [discriminate|].
  destruct (JS.find_char c s); [discriminate | auto].
Qed.

Lemma append_hash_inj (a b x y : string) :
  JS.find_char "#" a = None -> JS.find_char "#" b = None ->
  a ++ String "#" x = b ++ String "#" y -> a = b /\ x = y.
Proof.
  revert b. induction a as [|c a IH]; intros b Ha Hb Heq.
  - destruct b as [|d b]; simpl in Heq.
    + injection Heq as <-. auto.
    + injection Heq as <- _. apply find_char_tail in Hb. now destruct Hb.
  - destruct b as [|d b]; simpl in Heq.
    + injection Heq as -> _. apply find_char_tail in Ha. now destruct Ha.
    + injection Heq as <- Heq.
      apply find_char_tail in Ha. apply find_char_tail in Hb.
      destruct (IH b (proj2 Ha) (proj2 Hb) Heq) as [-> ->]. auto.
Qed.

(** X8.  The project prefix keeps the ids of different projects apart.  Where
    the ids of the remote projects contain no ["#"], a reference of one remote
    project and a reference of another never get the same unified id; and
    where the raw id and the active locale contain no ["#"] either, a local
    reference never gets the unified id of a remote one. *)
Theorem unifyId_separates_projects (m : CaaSMapper) (id1 id2 : string)
  (c1 c2 : RemoteProjectConfigurationEntry)
  (H1 : JS.find_char "#" (rp_id c1) = None)
  (H2 : JS.find_char "#" (rp_id c2) = None) :
  (unifyId m id1 (Some c1) = unifyId m id2 (Some c2) -> rp_id c1 = rp_id c2)
  /\ (JS.find_char "#" id1 = None -> JS.find_char "#" (locale m) = None ->
      unifyId m id1 None <> unifyId m id2 (Some c2)).
Proof.
  split.
  - intros Heq.
    destruct (unifyId_prefixed m id1 (Some c1)) as (r1 & E1 & _).
    destruct (unifyId_prefixed m id2 (Some c2)) as (r2 & E2 & _).
    rewrite E1, E2 in Heq. cbn [project_prefix] in Heq.
    rewrite !string_append_assoc in Heq.
    now destruct (append_hash_inj _ _ _ _ H1 H2 Heq).
  - intros Hid Hloc Heq.
    assert (Hlocal : JS.find_char "#" (unifyId m id1 None) = None).
    { unfold unifyId, JS.indexOf.
      destruct (JS.find_char "." id1) as [n|]; [destruct (0 <? Z.of_nat n)|];
        cbn [Z.ltb Z.compare]; try exact Hid.
      all: rewrite (find_char_append_none _ _ _ Hid).
      all: cbn [JS.or_opt JS.truthy_opt append JS.find_char].
      all: change (Ascii.eqb "." "#") with false; cbv iota.
      all: now rewrite Hloc. }
    destruct (unifyId_prefixed m id2 (Some c2)) as (r2 & E2 & _).
    rewrite Heq, E2 in Hlocal. cbn [project_prefix] in Hlocal.
    rewrite string_append_assoc in Hlocal.
    change ("#" ++ r2) with (String "#" r2) in Hlocal.
    rewrite (find_char_append_absent _ _ _ H2) in Hlocal. discriminate.
Qed.

Lemma unifyId_separates_projects_witness :
  unifyId Sample.mapper "m1" None
  <> unifyId Sample.mapper "m1" (Some Sample.media_project).
Proof.
  destruct (unifyId_separates_projects Sample.mapper "m1" "m1"
              Sample.media_project Sample.media_project eq_refl eq_refl)
    as [_ H].
  apply H; reflexivity.
Defined.

(** X9.  The preview id and the unified id agree.  For an identifier
    without a locale suffix, the key under which a reference to the item is
    registered is the project prefix followed by the preview id the item gets
    when it is mapped with the locale of that project; in the local project
    the two are equal. *)
Theorem previewId_is_unified_id (m : CaaSMapper) (identifier : string)
  (cfg : option RemoteProjectConfigurationEntry)
  (Hbare : JS.find_char "." identifier = None) :
  let remoteProjectLocale :=
    match cfg with Some c => rp_locale c | None => None end in
  exists previewId,
    buildPreviewId (VStr identifier) remoteProjectLocale m
    = (Returns (VStr previewId), m)
    /\ unifyId m identifier cfg = project_prefix cfg ++ previewId
    /\ (cfg = None -> unifyId m identifier cfg = previewId).
Proof.
  intros remoteProjectLocale. subst remoteProjectLocale.
  rewrite (unifyId_without_separator m identifier cfg Hbare).
  unfold buildPreviewId, gets, own_locale, JS.or_opt, JS.truthy_opt, JS.truthy_str.
  cbn [JS.join JS.join_elem JS.toString].
  destruct cfg as [c|]; cbn [project_prefix].
  - destruct (rp_locale c) as [l|]; [destruct (l =? "")%string|];
      cbn [negb]; eexists; (split; [reflexivity|]); split; congruence.
  - eexists. split; [reflexivity|]. split; reflexivity.
Qed.

Lemma previewId_is_unified_id_witness :
  exists previewId,
    buildPreviewId (VStr "m1") (Some "en_GB") Sample.mapper
    = (Returns (VStr previewId), Sample.mapper)
    /\ unifyId Sample.mapper "m1" (Some Sample.media_project) = "media#" ++ previewId.
Proof.
  destruct (previewId_is_unified_id Sample.mapper "m1" (Some Sample.media_project)
              eq_refl) as (previewId & Hbuild & Hunify & _).
  exists previewId. split; [exact Hbuild | exact Hunify].
Defined.

(** X10.  [addToResolvedReferences] and the cache.  An item that has an id is
    stored under it, in place of what was stored there; every other entry is
    untouched and nothing is logged.  An item without an id is not stored:
    the cache is as before and a warning is logged. *)
Theorem addToResolvedReferences_caches (ext : Externals) (item : value)
  (remoteProjectId : option string) (m : CaaSMapper) :
  let m' := snd (addToResolvedReferences ext item remoteProjectId m) in
  fst (addToResolvedReferences ext item remoteProjectId m) = Returns tt
  /\ _referencedItems m' = _referencedItems m
  /\ _remoteReferences m' = _remoteReferences m
  /\ match supplied (getItemId ext item remoteProjectId) with
     | Some id =>
         JS.lookup id (resolvedReferences m') = Some item
         /\ (forall k, k <> id ->
               JS.lookup k (resolvedReferences m') = JS.lookup k (resolvedReferences m))
         /\ logged m' = logged m
     | None =>
         resolvedReferences m' = resolvedReferences m
         /\ logged m' = (logged m ++ [{| log_message := "No id for item";
                                         log_args := [item] |}])%list
     end.
Proof.
  unfold addToResolvedReferences, supplied, JS.truthy_str.
  destruct (getItemId ext item remoteProjectId) as [id|]; [destruct (id =? "")%string|];
    cbn; repeat split.
  - apply lookup_assign_eq.
  - intros k Hk. now apply lookup_assign_ne.
Qed.

Lemma includes_char_sep (u : string) (rest : string) :
  JS.includes_char "?" (u ++ (if JS.includes_char "?" u then "&" else "?") ++ rest)
  = true.
Proof.
  destruct (JS.includes_char "?" u) eqn:E.
  - now apply includes_char_append_l.
  - apply includes_char_append_r, includes_char_here.
Qed.

(** X11.  [buildMediaUrl].  Without a revision, or in release mode, the URL is
    returned as it is, whatever it is.  In preview mode a revision is
    appended to a URL string as the parameter [rev], after ["?"] when the URL
    has no ["?"] yet and after ["&"] otherwise, so the result always has a
    query part; building the URL of a result once more appends the parameter
    a second time. *)
Theorem buildMediaUrl_appends_revision (m : CaaSMapper) (url rev : value)
  (u : string) :
  ((JS.truthy rev = false \/ contentMode (api m) = RELEASE) ->
   buildMediaUrl url rev m = (Returns url, m))
  /\ (JS.truthy rev = true -> contentMode (api m) = PREVIEW ->
      let built :=
        u ++ (if JS.includes_char "?" u then "&" else "?")
          ++ "rev=" ++ JS.toString rev in
      buildMediaUrl (VStr u) rev m = (Returns (VStr built), m)
      /\ JS.includes_char "?" built = true
      /\ buildMediaUrl (VStr built) rev m
         = (Returns (VStr (built ++ "&rev=" ++ JS.toString rev)), m)).
Proof.
  split.
  - intros [Hrev|Hmode]; unfold buildMediaUrl; run_mapper.
    + rewrite Hrev. reflexivity.
    + rewrite Hmode. destruct (JS.truthy rev); reflexivity.
  - intros Hrev Hmode built.
    assert (Hbuilt : JS.includes_char "?" built = true) by apply includes_char_sep.
    unfold buildMediaUrl. run_mapper. rewrite Hrev, Hmode.
    split; [reflexivity|]. split; [exact Hbuilt|].
    rewrite Hbuilt. reflexivity.
Qed.

(** ** Data entries *)

Lemma assign_fresh {A : Type} (k : string) (v : A) (l : list (string * A)) :
  ~ In k (JS.keys l) -> JS.assign k v l = (l ++ [(k, v)])%list.
Proof.
  induction l as [|[k' v'] l IH]; simpl; intros H; [reflexivity|].
  destruct (String.eqb_spec k k') as [->|Hne]; [tauto|].
  f_equal. apply IH. tauto.
Qed.

Lemma assign_all_fresh {A : Type} (src dst : list (string * A)) :
  NoDup (JS.keys (dst ++ src)) -> JS.assign_all dst src = (dst ++ src)%list.
Proof.
  unfold JS.assign_all, JS.keys. revert dst.
  induction src as [|[k v] src IH]; intros dst H; simpl.
  - now rewrite app_nil_r.
  - rewrite map_app in H. simpl in H.
    rewrite assign_fresh.
    + rewrite IH; [now rewrite <- app_assoc|].
      rewrite <- app_assoc. simpl. now rewrite map_app.
    + apply NoDup_remove_2 in H. intros Hin. apply H.
      apply in_or_app. now left.
Qed.

Lemma object_fresh (fs : list (string * value)) :
  NoDup (JS.keys fs) -> JS.object fs = VObj fs.
Proof. intros H. unfold JS.object. now rewrite assign_all_fresh. Qed.

Lemma keys_combine {A : Type} (ks : list string) (vs : list A) :
  length ks = length vs -> JS.keys (combine ks vs) = ks.
Proof.
  revert vs. induction ks as [|k ks IH]; intros [|v vs] H; simpl in *;
    try discriminate; [reflexivity|].
  f_equal. apply IH. lia.
Qed.

Lemma lookup_NoDup {A : Type} (k : string) (v : A) (l : list (string * A)) :
  NoDup (JS.keys l) -> In (k, v) l -> JS.lookup k l = Some v.
Proof.
  induction l as [|[k' v'] l IH]; simpl; intros Hnd Hin; [contradiction|].
  apply NoDup_cons_iff in Hnd. destruct Hnd as [Hnot Hnd].
  destruct Hin as [[= -> ->]|Hin].
  - now rewrite String.eqb_refl.
  - destruct (String.eqb_spec k k') as [->|Hne]; [|auto].
    exfalso. apply Hnot. apply in_map_iff. exists (k', v). auto.
Qed.

Lemma entries_by_key (rec : DataEntryMapper) (path : NestedPath)
  (rl rp : option string) (all fields : list (string * value)) (ys : list value) :
  NoDup (JS.keys all) ->
  (forall kv, In kv fields -> In kv all) ->
  Forall2 (fun key y =>
             exists (j : nat) m1 m2,
               rec (match JS.lookup key all with Some e => e | None => VUndefined end)
                   (path ++ [Key key])%list rl rp m1 = (Returns y, m2))
          (JS.keys fields) ys ->
  Forall2 (fun field mapped =>
             exists m1 m2,
               rec (snd field) (path ++ [Key (fst field)])%list rl rp m1
               = (Returns mapped, m2))
          fields ys.
Proof.
  intros Hnd. revert ys. induction fields as [|[k v] fields IH]; intros ys Hsub Hys.
  - inversion Hys; subst. constructor.
  - cbn [JS.keys map fst] in Hys.
    inversion Hys as [|? y ? ys' Hy Hrest]; subst. constructor.
    + destruct Hy as (j & ma & mb & Hy). cbn [fst snd].
      rewrite (lookup_NoDup k v all Hnd) in Hy by (apply Hsub; now left).
      eauto.
    + apply IH; [|exact Hrest]. intros kv Hin. apply Hsub. now right.
Qed.

(** X12.  [mapDataEntries] keeps the keys.  The entries of an object are
    mapped one by one, each by [mapDataEntry] at the path extended by its
    key, and the result is the object of the results under the same keys in
    the same order.  Missing entries ([undefined], [null]) give the empty
    object and touch nothing. *)
Theorem mapDataEntries_keeps_keys (ext : Externals) (fuel : nat)
  (fields : list (string * value)) (path : NestedPath)
  (remoteProjectLocale remoteProjectId : option string)
  (m m' : CaaSMapper) (result : value)
  (Hkeys : NoDup (JS.keys fields))
  (Hrun : mapDataEntries (mapDataEntry ext fuel) (VObj fields) path
            remoteProjectLocale remoteProjectId m = (Returns result, m')) :
  (exists mappedEntries,
     result = VObj (combine (JS.keys fields) mappedEntries)
     /\ JS.keys (JS.own_fields result) = JS.keys fields
     /\ Forall2 (fun field mapped =>
                   exists m1 m2,
                     mapDataEntry ext fuel (snd field) (path ++ [Key (fst field)])%list
                       remoteProjectLocale remoteProjectId m1
                     = (Returns mapped, m2))
                fields mappedEntries)
  /\ (forall entries m0,
        JS.truthy entries = false ->
        mapDataEntries (mapDataEntry ext fuel) entries path
          remoteProjectLocale remoteProjectId m0 = (Returns (VObj []), m0)).
Proof.
  split.
  - unfold mapDataEntries in Hrun. cbn [JS.or JS.truthy JS.own_fields] in Hrun.
    apply bind_returns in Hrun. destruct Hrun as (ys & m1 & Hys & Hret).
    injection Hret as <- _.
    apply mapM_from_returns in Hys.
    assert (Hlen : length ys = length (JS.keys fields)).
    { symmetry. eapply Forall2_length. exact Hys. }
    assert (Hk : JS.keys (combine (JS.keys fields) ys) = JS.keys fields).
    { now apply keys_combine. }
    exists ys. rewrite object_fresh by now rewrite Hk.
    split; [reflexivity|]. split; [exact Hk|].
    apply (entries_by_key _ _ _ _ fields fields ys Hkeys); [auto|].
    eapply Forall2_impl; [|exact Hys].
    intros key y (j & ma & mb & H). exists j, ma, mb. exact H.
  - intros entries m0 Hfalsy. unfold mapDataEntries, JS.or. rewrite Hfalsy.
    reflexivity.
Qed.

Lemma mapDataEntries_keeps_keys_witness :
  exists mappedEntries,
    VObj [("st_title", VStr "Hello"); ("st_count", VNum 3)]
    = VObj (combine ["st_title"; "st_count"] mappedEntries).
Proof.
  destruct (mapDataEntries_keeps_keys Sample.ext 1 SampleSite.form_data [Key "data"]
              None None Sample.mapper Sample.mapper
              (VObj [("st_title", VStr "Hello"); ("st_count", VNum 3)]))
    as ((mappedEntries & Hresult & _) & _).
  - repeat constructor; simpl; intuition discriminate.
  - reflexivity.
  - exists mappedEntries. exact Hresult.
Defined.

Lemma mapLinks_nil (ext : Externals) (fuel : nat) (path : NestedPath)
  (rl rp : option string) (m : CaaSMapper) :
  mapLinksInRichTextElements ext (S fuel) [] path rl rp m = (Returns [], m).
Proof. reflexivity. Qed.

(** X13.  A data entry without a value is not an error.  With no custom mapper
    configured, an entry whose [value] is missing or falsy is mapped without
    touching the mapper: to [null] for a combobox, a radio button, a date, a
    link, an image map, a dataset and a reference; to the empty list for
    rich text, a list, a checkbox and a catalog; to [false] for a toggle; and
    to the value itself for a number, a text and a text area. *)
Theorem entry_without_value (ext : Externals) (fuel : nat) (m : CaaSMapper)
  (entry : value) (kind : string) (path : NestedPath)
  (remoteProjectLocale remoteProjectId : option string)
  (Hkind : JS.get entry "fsType" = Returns (VStr kind))
  (Hmissing : JS.truthy (JS.get_opt entry "value") = false)
  (Hhook : customMapper m = None) :
  let mapped :=
    fst (mapDataEntry ext (S (S fuel)) entry path remoteProjectLocale
                      remoteProjectId m) in
  snd (mapDataEntry ext (S (S fuel)) entry path remoteProjectLocale
                    remoteProjectId m) = m
  /\ (In kind ["CMS_INPUT_COMBOBOX"; "CMS_INPUT_RADIOBUTTON"; "CMS_INPUT_DATE";
               "CMS_INPUT_LINK"; "CMS_INPUT_IMAGEMAP"; "FS_DATASET"; "FS_REFERENCE"] ->
      mapped = Returns VNull)
  /\ (In kind ["CMS_INPUT_DOM"; "CMS_INPUT_DOMTABLE"; "CMS_INPUT_LIST";
               "CMS_INPUT_CHECKBOX"; "FS_CATALOG"] ->
      mapped = Returns (VArr []))
  /\ (kind = "CMS_INPUT_TOGGLE" -> mapped = Returns (VBool false))
  /\ (In kind ["CMS_INPUT_NUMBER"; "CMS_INPUT_TEXT"; "CMS_INPUT_TEXTAREA"] ->
      mapped = Returns (JS.get_opt entry "value")).
Proof.
  destruct (get_object entry _ Hkind) as (fs & ->); [discriminate|].
  intros mapped. subst mapped.
  assert (Hvalue : JS.get (VObj fs) "value"
                   = Returns match JS.lookup "value" fs with
                             | Some x => x
                             | None => VUndefined
                             end) by reflexivity.
  cbn [JS.get_opt] in Hmissing |- *.
  revert Hmissing Hvalue.
  generalize (match JS.lookup "value" fs with Some x => x | None => VUndefined end).
  intros v Hmissing Hvalue.
  assert (Hv : v = VUndefined \/ v = VNull \/ v = VBool false \/ v = VNum 0
               \/ v = VStr "").
  { destruct v as [| |b|z|s| |]; simpl in Hmissing; try discriminate; auto.
    - destruct b; [discriminate | auto].
    - apply negb_false_iff, Z.eqb_eq in Hmissing. subst. auto.
    - apply negb_false_iff, String.eqb_eq in Hmissing. subst. auto 6. }
  clear Hmissing.
  remember (mapDataEntry ext (S (S fuel)) (VObj fs) path remoteProjectLocale
                         remoteProjectId m) as run eqn:Hrun.
  rewrite mapDataEntry_step in Hrun. unfold mapDataEntry_body, bind at 1 in Hrun.
  rewrite (ask_customMapper_none _ _ _ Hhook) in Hrun.
  cbv beta iota zeta delta [bind gets modify ret lift throw getM] in Hrun.
  rewrite Hkind, ?Hvalue in Hrun.
  split; [|split; [|split; [|split]]].
  - destruct (Kind.of_fsType (VStr kind));
      destruct Hv as [->|[->|[->|[->| ->]]]]; subst run; try reflexivity.
    all: cbn [JS.get]; destruct (JS.is_str _ _); reflexivity.
  - intros Hin. cbn [In] in Hin.
    repeat (destruct Hin as [<-|Hin]; [|]); try contradiction;
      destruct Hv as [->|[->|[->|[->| ->]]]]; subst run; reflexivity.
  - intros Hin. cbn [In] in Hin.
    repeat (destruct Hin as [<-|Hin]; [|]); try contradiction;
      destruct Hv as [->|[->|[->|[->| ->]]]]; subst run; reflexivity.
  - intros ->. destruct Hv as [->|[->|[->|[->| ->]]]]; subst run; reflexivity.
  - intros Hin. cbn [In] in Hin.
    repeat (destruct Hin as [<-|Hin]; [|]); try contradiction; subst run; reflexivity.
Qed.

Lemma entry_without_value_witness :
  fst (mapDataEntry Sample.ext 2 SampleSite.toggle_unset [Key "data"; Key "st_flag"]
                    None None Sample.mapper)
  = Returns (VBool false).
Proof.
  destruct (entry_without_value Sample.ext 0 Sample.mapper SampleSite.toggle_unset
              "CMS_INPUT_TOGGLE" [Key "data"; Key "st_flag"] None None
              eq_refl eq_refl eq_refl) as (_ & _ & _ & H & _).
  exact (H eq_refl).
Defined.

Lemma array_mapM_not_array (v : value) (f : value -> nat -> M value) (m : CaaSMapper) :
  (forall l, v <> VArr l) ->
  exists message, array_mapM v f m = (Throws (TypeError message), m).
Proof.
  intros H. destruct v; cbn [array_mapM]; unfold throw; eauto.
  now destruct (H elems).
Qed.

Ltac take_array_mapM H :=
  match goal with
  | |- context [array_mapM ?v ?f ?m] =>
      let message := fresh "message" in
      destruct (array_mapM_not_array v f m H) as (message & ->)
  end.

(** X14.  Where [mapDataEntry] maps the value of an entry as a list, a value
    that is not a list is fatal for the entry: the call throws a [TypeError]
    and leaves the mapper as it was.  This is so for a permission entry and
    for an index entry of the dataset plug-in, also when the value is
    missing, and for a list, a checkbox and a catalog entry whose value is
    present and not a list.  No custom mapper is configured. *)
Theorem entry_value_must_be_list (ext : Externals) (fuel : nat) (m : CaaSMapper)
  (entry : value) (kind : string) (path : NestedPath)
  (remoteProjectLocale remoteProjectId : option string)
  (Hkind : JS.get entry "fsType" = Returns (VStr kind))
  (Hvalue : forall l, JS.get_opt entry "value" <> VArr l)
  (Hhook : customMapper m = None)
  (Hlisted :
     kind = "CMS_INPUT_PERMISSION"
     \/ (kind = "FS_INDEX"
         /\ JS.get_opt entry "dapType" = VStr "DatasetDataAccessPlugin")
     \/ (In kind ["CMS_INPUT_LIST"; "CMS_INPUT_CHECKBOX"; "FS_CATALOG"]
         /\ JS.truthy (JS.get_opt entry "value") = true)) :
  exists message,
    mapDataEntry ext (S fuel) entry path remoteProjectLocale remoteProjectId m
    = (Throws (TypeError message), m).
Proof.
  destruct (get_object entry _ Hkind) as (fs & ->); [discriminate|].
  cbn [JS.get_opt] in Hvalue, Hlisted.
  assert (Hget : forall k, JS.get (VObj fs) k
                   = Returns match JS.lookup k fs with
                             | Some x => x
                             | None => VUndefined
                             end) by reflexivity.
  rewrite mapDataEntry_step. unfold mapDataEntry_body, bind at 1.
  rewrite (ask_customMapper_none _ _ _ Hhook). cbv beta iota.
  unfold bind at 1, getM at 1, lift at 1. rewrite Hkind. cbv beta iota.
  destruct Hlisted as [->|[[-> Hdap]|[Hin Htruthy]]].
  - cbn [Kind.of_fsType].
    change (JS.lookup "CMS_INPUT_PERMISSION" Kind.labels)
      with (Some Kind.CMS_INPUT_PERMISSION). cbv iota.
    unfold bind at 1, getM at 1, lift at 1. rewrite Hget. cbv beta iota.
    unfold bind at 1, getM at 1, lift at 1. rewrite Hget. cbv beta iota.
    unfold bind at 1.
    take_array_mapM Hvalue.
    eauto.
  - cbn [Kind.of_fsType].
    change (JS.lookup "FS_INDEX" Kind.labels) with (Some Kind.FS_INDEX). cbv iota.
    unfold bind at 1, getM at 1, lift at 1. rewrite Hget, Hdap. cbv beta iota.
    cbn [JS.is_str String.eqb Ascii.eqb Bool.eqb].
    unfold bind at 1, getM at 1, lift at 1. rewrite Hget. cbv beta iota.
    unfold bind at 1.
    take_array_mapM Hvalue.
    eauto.
  - cbn [In] in Hin.
    destruct Hin as [<-|[<-|[<-|[]]]]; cbn [Kind.of_fsType].
    + change (JS.lookup "CMS_INPUT_LIST" Kind.labels) with (Some Kind.CMS_INPUT_LIST).
      cbv iota.
      unfold bind at 1, getM at 1, lift at 1. rewrite Hget. cbv beta iota.
      rewrite Htruthy. cbn [negb]. unfold mapChildren, bind at 1.
      take_array_mapM Hvalue.
      eauto.
    + change (JS.lookup "CMS_INPUT_CHECKBOX" Kind.labels)
        with (Some Kind.CMS_INPUT_CHECKBOX). cbv iota.
      unfold bind at 1, getM at 1, lift at 1. rewrite Hget. cbv beta iota.
      rewrite Htruthy. cbn [negb]. unfold mapChildren, bind at 1.
      take_array_mapM Hvalue.
      eauto.
    + change (JS.lookup "FS_CATALOG" Kind.labels) with (Some Kind.FS_CATALOG).
      cbv iota.
      unfold bind at 1, getM at 1, lift at 1. rewrite Hget. cbv beta iota.
      unfold JS.or. rewrite Htruthy. unfold bind at 1.
      take_array_mapM Hvalue.
      eauto.
Qed.

Lemma entry_value_must_be_list_witness :
  exists message,
    mapDataEntry Sample.ext 1 SampleSite.permission_without_value
                 [Key "data"; Key "st_access"] None None Sample.mapper
    = (Throws (TypeError message), Sample.mapper).
Proof.
  apply (entry_value_must_be_list Sample.ext 0 Sample.mapper
           SampleSite.permission_without_value "CMS_INPUT_PERMISSION").
  - reflexivity.
  - intros l. discriminate.
  - reflexivity.
  - now left.
Defined.

(** ** References in content *)

(** X15.  References in content.  With no custom mapper, a reference entry
    whose target is a medium is replaced by the token of
    [registerReferencedItem], which registers the path of the entry for the
    identifier of the target, in the project the target names and else in
    the one the entry is mapped for.  A reference to a page is not
    registered: it becomes a [Reference] object with the identifier and the
    kind of the target, and the mapper is left as it was, as it is for a
    target of any other kind, where the entry is returned as it is. *)
Theorem reference_entry_is_registered (ext : Externals) (fuel : nat)
  (m : CaaSMapper) (entry : value) (target : list (string * value))
  (kind identifier : string) (path : NestedPath)
  (remoteProjectLocale remoteProjectId : option string)
  (Hhook : customMapper m = None)
  (Hentry : JS.get entry "fsType" = Returns (VStr "FS_REFERENCE"))
  (Hvalue : JS.get entry "value" = Returns (VObj target))
  (Hkind : JS.lookup "fsType" target = Some (VStr kind))
  (Hid : JS.lookup "identifier" target = Some (VStr identifier)) :
  let run := mapDataEntry ext (S fuel) entry path remoteProjectLocale
                          remoteProjectId m in
  (kind = "Media" ->
   forall project,
     remoteProject_arg (JS.get_opt (VObj target) "remoteProject") remoteProjectId
     = Returns project ->
     registries_ready m ->
     exists token m',
       registerReferencedItem identifier path project None m = (Returns token, m')
       /\ run = (Returns (VStr token), m'))
  /\ (kind = "PageRef" \/ kind = "GCAPage" ->
      snd run = m
      /\ exists reference,
           fst run = Returns reference
           /\ JS.get_opt reference "type" = VStr "Reference"
           /\ JS.get_opt reference "referenceId" = VStr identifier
           /\ JS.get_opt reference "referenceType" = VStr kind
           /\ JS.get_opt reference "referenceRemoteProject"
              = JS.or (JS.get_opt (VObj target) "remoteProject")
                      (JS.of_opt remoteProjectId))
  /\ (kind <> "Media" -> kind <> "PageRef" -> kind <> "GCAPage" ->
      run = (Returns entry, m)).
Proof.
  intros run.
  assert (Hrun :
    run
    = (if JS.is_str (VStr kind) "Media" then
         rp <- lift (remoteProject_arg (JS.get_opt (VObj target) "remoteProject")
                                       remoteProjectId) ;;
         registerReferencedItem_dyn (VStr identifier) path rp None
       else if JS.is_str (VStr kind) "PageRef" || JS.is_str (VStr kind) "GCAPage" then
         let reference :=
           [("type", VStr "Reference"); ("referenceId", VStr identifier);
            ("referenceRemoteProject",
             JS.or (JS.get_opt (VObj target) "remoteProject")
                   (JS.of_opt remoteProjectId));
            ("referenceType", VStr kind)] in
         if JS.has_key (VObj target) "section" then
           ret (JS.object (reference
                             ++ [("section", JS.get_opt (VObj target) "section")]))
         else ret (JS.object reference)
       else ret entry) m).
  { subst run. rewrite mapDataEntry_step.
    unfold mapDataEntry_body, bind at 1. rewrite (ask_customMapper_none _ _ _ Hhook).
    cbv beta iota zeta delta [bind gets modify ret lift throw getM].
    rewrite Hentry.
    change (Kind.of_fsType (VStr "FS_REFERENCE")) with Kind.FS_REFERENCE.
    cbv beta iota. rewrite Hvalue. cbv beta iota.
    cbn [JS.truthy negb JS.get JS.get_opt]. rewrite Hkind, Hid. cbv beta iota.
    destruct (JS.is_str (VStr kind) "Media"); [reflexivity|].
    destruct (JS.is_str (VStr kind) "PageRef" || JS.is_str (VStr kind) "GCAPage");
      [|reflexivity].
    destruct (JS.has_key (VObj target) "section"); reflexivity. }
  rewrite Hrun. clear Hrun run. cbn [JS.is_str].
  split; [|split].
  - intros -> project Hproject Hready. cbn [String.eqb Ascii.eqb Bool.eqb].
    cbv beta iota zeta delta [bind lift ret]. rewrite Hproject.
    destruct (registerReferencedItem_returns m identifier path project None Hready)
      as (token & m' & Hreg).
    exists token, m'. split; [exact Hreg|].
    unfold registerReferencedItem_dyn, bind, ret. now rewrite Hreg.
  - intros Hpage.
    assert (Hnot : (kind =? "Media")%string = false) by (destruct Hpage as [-> | ->]; reflexivity).
    assert (Hyes : (kind =? "PageRef")%string || (kind =? "GCAPage")%string = true)
      by (destruct Hpage as [-> | ->]; reflexivity).
    rewrite Hnot, Hyes. cbv zeta.
    destruct (JS.has_key (VObj target) "section"); (split; [reflexivity|]);
      eexists; (split; [reflexivity|]); repeat split.
  - intros H1 H2 H3.
    apply String.eqb_neq in H1, H2, H3. now rewrite H1, H2, H3.
Qed.

Lemma reference_entry_is_registered_witness :
  exists m',
    mapDataEntry Sample.ext 1 SampleSite.media_reference [Key "st_image"] None None
                 Sample.mapper
    = (Returns (VStr "[REFERENCED-REMOTE-ITEM-media#m7.en_GB]"), m')
    /\ registered m' (Some "media") "media#m7.en_GB" = Some [[Key "st_image"]].
Proof.
  destruct (proj1 (reference_entry_is_registered Sample.ext 0 Sample.mapper
                     SampleSite.media_reference
                     [("fsType", VStr "Media"); ("identifier", VStr "m7");
                      ("remoteProject", VStr "media")]
                     "Media" "m7" [Key "st_image"] None None
                     eq_refl eq_refl eq_refl eq_refl eq_refl)
                  eq_refl (Some "media") eq_refl
                  (new_CaaSMapper_ready Sample.remoteApi "en_GB" None None None))
    as (token & m' & Hreg & Hrun).
  exists m'.
  assert (Htoken : token = "[REFERENCED-REMOTE-ITEM-media#m7.en_GB]"
                   /\ registered m' (Some "media") "media#m7.en_GB"
                      = Some [[Key "st_image"]]).
  { vm_compute in Hreg. injection Hreg as <- <-. split; reflexivity. }
  destruct Htoken as [<- Hregistered]. split; [exact Hrun | exact Hregistered].
Defined.

(** ** Permission groups and page content *)

Lemma last_segment_plain (acc name : string) :
  JS.find_char "/" name = None -> JS.last_segment acc name = acc ++ name.
Proof.
  revert acc. induction name as [|c name IH]; intros acc H; simpl.
  - clear. induction acc as [|a acc IH]; simpl; congruence.
  - simpl in H. destruct (Ascii.eqb c "/"); [discriminate|].
    destruct (JS.find_char "/" name); [discriminate|].
    rewrite IH by reflexivity. now rewrite string_append_assoc.
Qed.

Lemma last_segment_after_slash (acc dir name : string) :
  JS.find_char "/" name = None ->
  JS.last_segment acc (dir ++ String "/" name) = name.
Proof.
  intros H. revert acc. induction dir as [|c dir IH]; intros acc; simpl.
  - now rewrite last_segment_plain.
  - destruct (Ascii.eqb c "/"); apply IH.
Qed.

(** X16.  [_mapPermissionGroup].  The id of a permission group is the last
    segment of its path: what follows the last ["/"], or the whole path when
    it has none.  Name and path are kept, and the mapper is not touched. *)
Theorem permission_group_id (group : value) (groupName : value)
  (dir name : string) (m : CaaSMapper)
  (Hname : JS.get group "groupName" = Returns groupName)
  (Hlast : JS.find_char "/" name = None) :
  (JS.get group "groupPath" = Returns (VStr (dir ++ "/" ++ name)) ->
   _mapPermissionGroup group m
   = (Returns (VObj [("groupId", VStr name); ("groupName", groupName);
                     ("groupPath", VStr (dir ++ "/" ++ name))]), m))
  /\ (JS.get group "groupPath" = Returns (VStr name) ->
      _mapPermissionGroup group m
      = (Returns (VObj [("groupId", VStr name); ("groupName", groupName);
                        ("groupPath", VStr name)]), m)).
Proof.
  split; intros Hpath; unfold _mapPermissionGroup; run_mapper;
    rewrite Hpath, Hname.
  - change (dir ++ "/" ++ name) with (dir ++ String "/" name).
    now rewrite last_segment_after_slash.
  - now rewrite last_segment_plain.
Qed.

Lemma permission_group_id_witness :
  _mapPermissionGroup
    (VObj [("groupName", VStr "Editors"); ("groupPath", VStr "/GroupsFile/Editors")])
    Sample.mapper
  = (Returns (VObj [("groupId", VStr "Editors"); ("groupName", VStr "Editors");
                    ("groupPath", VStr "/GroupsFile/Editors")]), Sample.mapper).
Proof.
  destruct (permission_group_id
              (VObj [("groupName", VStr "Editors");
                     ("groupPath", VStr "/GroupsFile/Editors")])
              (VStr "Editors") "/GroupsFile" "Editors" Sample.mapper
              eq_refl eq_refl) as [H _].
  exact (H eq_refl).
Defined.

Lemma is_str_true (v : value) (s : string) : JS.is_str v s = true -> v = VStr s.
Proof.
  destruct v; simpl; try discriminate. intros H. apply String.eqb_eq in H. now subst.
Qed.

Lemma array_mapM_returns (v : value) (f : value -> nat -> M value)
  (m m' : CaaSMapper) (ys : list value) :
  array_mapM v f m = (Returns ys, m') ->
  exists l, v = VArr l
            /\ Forall2 (fun x y => exists j m1 m2, f x j m1 = (Returns y, m2)) l ys.
Proof.
  destruct v; cbn [array_mapM]; unfold throw; try discriminate.
  intros H. eexists. split; [reflexivity|]. eapply mapM_from_returns. exact H.
Qed.

Lemma Forall2_Forall_l {A B : Type} (P : A -> Prop) (R : A -> B -> Prop)
  (l : list A) (l' : list B) :
  (forall x y, R x y -> P x) -> Forall2 R l l' -> Forall P l.
Proof. intros H. induction 1; constructor; eauto. Qed.

Lemma mapBodyContent_returns (ext : Externals) (fuel : nat) (content : value)
  (path : NestedPath) (rl rp : option string) (m m' : CaaSMapper) (r : value) :
  mapBodyContent ext fuel content path rl rp m = (Returns r, m') ->
  known_body_content content.
Proof.
  unfold mapBodyContent. intros H.
  apply bind_returns in H. destruct H as (fsType & m1 & Hget & H).
  unfold getM, lift in Hget. injection Hget as Hget _.
  destruct (JS.is_str fsType "Content2Section") eqn:E1.
  { apply is_str_true in E1. subst. exists "Content2Section". simpl. auto. }
  destruct (JS.is_str fsType "Section") eqn:E2.
  { apply is_str_true in E2. subst. exists "Section". simpl. auto. }
  destruct (JS.is_str fsType "SectionReference") eqn:E3.
  { apply is_str_true in E3. subst. exists "SectionReference". simpl. auto. }
  destruct (JS.is_str fsType "GCASection") eqn:E4.
  { apply is_str_true in E4. subst. exists "GCASection". simpl. auto 6. }
  discriminate H.
Qed.

Lemma mapPageBody_returns (ext : Externals) (fuel : nat) (body : value)
  (path : NestedPath) (rl rp : option string) (m m' : CaaSMapper) (r : value) :
  mapPageBody ext fuel body path rl rp m = (Returns r, m') ->
  mappable_body body.
Proof.
  unfold mapPageBody. intros H.
  apply bind_returns in H. destruct H as (name & m1 & _ & H).
  apply bind_returns in H. destruct H as (id & m2 & _ & H).
  apply bind_returns in H. destruct H as (previewId & m3 & _ & H).
  apply bind_returns in H. destruct H as (bodyChildren & m4 & Hget & H).
  apply bind_returns in H. destruct H as (children & m5 & Hmap & _).
  unfold getM, lift in Hget. injection Hget as Hget _.
  apply array_mapM_returns in Hmap. destruct Hmap as (l & -> & Hall).
  exists l. split; [exact Hget|].
  eapply Forall2_Forall_l; [|exact Hall].
  intros c y (j & ma & mb & Hc). eapply mapBodyContent_returns. exact Hc.
Qed.

Lemma mapPageBodies_returns (ext : Externals) (fuel : nat) (children : value)
  (path : NestedPath) (rl rp : option string) (m m' : CaaSMapper) (r : value) :
  mapPageBodies ext fuel children path rl rp m = (Returns r, m') ->
  exists bodies, children = VArr bodies /\ Forall mappable_body bodies.
Proof.
  unfold mapPageBodies. intros H.
  apply bind_returns in H. destruct H as (bodies & m1 & Hmap & _).
  apply array_mapM_returns in Hmap. destruct Hmap as (l & -> & Hall).
  exists l. split; [reflexivity|].
  eapply Forall2_Forall_l; [|exact Hall].
  intros b y (j & ma & mb & Hb). eapply mapPageBody_returns. exact Hb.
Qed.

(** X17.  Page content of unknown kind is fatal for the whole page.  When
    [mapPageRef] or [mapGCAPage] returns a page, the children of the page
    are a list of bodies, the children of every body are a list, and every
    one of them has one of the kinds [Content2Section], [Section],
    [SectionReference] and [GCASection]: a single child of another kind
    leaves the page unmapped. *)
Theorem page_needs_known_content (ext : Externals) (fuel : nat) (item : value)
  (path : NestedPath) (remoteProjectLocale remoteProjectId : option string)
  (m m' : CaaSMapper) (page : value) :
  (mapPageRef ext fuel item path remoteProjectLocale remoteProjectId m
   = (Returns page, m') ->
   exists bodies,
     JS.get_opt (JS.get_opt item "page") "children" = VArr bodies
     /\ Forall mappable_body bodies)
  /\ (mapGCAPage ext fuel item path remoteProjectLocale remoteProjectId m
      = (Returns page, m') ->
      exists bodies,
        JS.get_opt item "children" = VArr bodies /\ Forall mappable_body bodies).
Proof.
  split; intros H.
  - unfold mapPageRef in H.
    apply bind_returns in H. destruct H as (p & m1 & Hpage & H).
    apply bind_returns in H. destruct H as (id & m2 & _ & H).
    apply bind_returns in H. destruct H as (refId & m3 & _ & H).
    apply bind_returns in H. destruct H as (previewId & m4 & _ & H).
    apply bind_returns in H. destruct H as (name & m5 & _ & H).
    apply bind_returns in H. destruct H as (template & m6 & _ & H).
    apply bind_returns in H. destruct H as (layout & m7 & _ & H).
    apply bind_returns in H. destruct H as (pageChildren & m8 & Hchildren & H).
    apply bind_returns in H. destruct H as (children & m9 & Hbodies & _).
    unfold getM, lift in Hpage, Hchildren.
    injection Hpage as Hpage _. injection Hchildren as Hchildren _.
    apply get_opt_of_get in Hpage, Hchildren. subst p pageChildren.
    eapply mapPageBodies_returns. exact Hbodies.
  - unfold mapGCAPage in H.
    apply bind_returns in H. destruct H as (id & m1 & _ & H).
    apply bind_returns in H. destruct H as (previewId & m2 & _ & H).
    apply bind_returns in H. destruct H as (name & m3 & _ & H).
    apply bind_returns in H. destruct H as (template & m4 & _ & H).
    apply bind_returns in H. destruct H as (layout & m5 & _ & H).
    apply bind_returns in H. destruct H as (pageChildren & m6 & Hchildren & H).
    apply bind_returns in H. destruct H as (children & m7 & Hbodies & _).
    unfold getM, lift in Hchildren. injection Hchildren as Hchildren _.
    apply get_opt_of_get in Hchildren. subst pageChildren.
    eapply mapPageBodies_returns. exact Hbodies.
Qed.

(** ** The reference map *)

Lemma lookup_assign_all (k : string) (A : Type) (src dst : list (string * A)) :
  JS.lookup k (JS.assign_all dst src) <> None
  <-> JS.lookup k dst <> None \/ JS.lookup k src <> None.
Proof.
  unfold JS.assign_all. revert dst.
  induction src as [|[k' v'] src IH]; intros dst; simpl.
  - tauto.
  - rewrite IH. destruct (String.eqb_spec k k') as [->|Hne].
    + rewrite lookup_assign_eq. split; intros _; [right|left]; discriminate.
    + rewrite lookup_assign_ne by assumption. tauto.
Qed.

Lemma lookup_assign_all_local (k : string) (A : Type) (src dst : list (string * A)) :
  JS.lookup k src = None ->
  JS.lookup k (JS.assign_all dst src) = JS.lookup k dst.
Proof.
  unfold JS.assign_all. revert dst.
  induction src as [|[k' v'] src IH]; intros dst H; simpl in *; [reflexivity|].
  destruct (String.eqb_spec k k') as [->|Hne]; [discriminate|].
  rewrite IH by exact H. now apply lookup_assign_ne.
Qed.

Lemma lookup_assign_all_nil (k : string) (A : Type) (src : list (string * A)) :
  JS.lookup k (JS.assign_all [] src) = None <-> JS.lookup k src = None.
Proof.
  pose proof (lookup_assign_all k A src []) as H. simpl in H.
  destruct (JS.lookup k (JS.assign_all [] src)), (JS.lookup k src);
    split; intros E; try reflexivity; try discriminate; exfalso.
  - destruct H as [H _]. destruct H as [H|H]; [discriminate| |]; congruence.
  - destruct H as [_ H]. apply H; [right; discriminate | exact E].
Qed.

(** The keys of the merged registry are the keys of the remote registries. *)
Lemma lookup_merged (k : string) (others : list ReferencedItemsInfo)
  (first : ReferencedItemsInfo) :
  JS.lookup k (fold_left (fun result current => JS.assign_all result current)
                         others first) <> None
  <-> JS.lookup k first <> None \/ exists b, In b others /\ JS.lookup k b <> None.
Proof.
  revert first. induction others as [|o others IH]; intros first; simpl.
  - split; [auto | intros [H|(b & [] & _)]; exact H].
  - rewrite IH, lookup_assign_all. split.
    + intros [[H|H]|(b & Hb & H)]; eauto.
    + intros [H|(b & [<-|Hb] & H)]; eauto.
Qed.

(** X18.  The reference map of a response.  When [mapFilterResponse] returns,
    the remote registries have been merged into the registry of the first
    remote project, which from then on holds every key of every remote
    registry.  The reference map returned is the local registry overlaid
    with that merged registry, so its keys are exactly the ids registered in
    the local or in a remote registry, and the cache returned is the cache of
    the mapper. *)
Theorem referenceMap_covers_registries (ext : Externals) (fuel : nat)
  (api_fetchByFilter : FetchByFilterParams -> M FetchResponse)
  (unmappedItems : list value) (additionalParams : option (list (string * value)))
  (filterContext : value) (remoteProjectLocale remoteProjectId : option string)
  (m m' : CaaSMapper) (response : MapResponse)
  (Hrun : mapFilterResponse ext fuel api_fetchByFilter unmappedItems additionalParams
            filterContext remoteProjectLocale remoteProjectId m
          = (Returns response, m')) :
  mr_resolvedReferences response = resolvedReferences m'
  /\ referenceMap response
     = JS.assign_all (JS.assign_all [] (_referencedItems m')) (first_registry m')
  /\ (forall id bucket,
        In bucket (JS.values (_remoteReferences m')) ->
        JS.lookup id bucket <> None ->
        JS.lookup id (first_registry m') <> None)
  /\ (forall id,
        JS.lookup id (referenceMap response) <> None
        <-> JS.lookup id (_referencedItems m') <> None
            \/ exists bucket,
                 In bucket (JS.values (_remoteReferences m'))
                 /\ JS.lookup id bucket <> None).
Proof.
  unfold mapFilterResponse in Hrun. cbv zeta in Hrun.
  apply bind_returns in Hrun. destruct Hrun as (items & m1 & _ & Hrun).
  apply bind_returns in Hrun. destruct Hrun as (cached & m2 & _ & Hrun).
  apply bind_returns in Hrun. destruct Hrun as (resolved & m3 & _ & Hrun).
  apply bind_returns in Hrun. destruct Hrun as (cache & m4 & Hcache & Hrun).
  unfold gets in Hcache. injection Hcache as <- <-.
  unfold bind at 1, gets at 1 in Hrun. cbv beta iota in Hrun.
  assert (Hmerge : forall id bucket,
             In bucket (JS.values (snd (merge_remoteReferences (_remoteReferences m3)))) ->
             JS.lookup id bucket <> None ->
             JS.lookup id (fst (merge_remoteReferences (_remoteReferences m3))) <> None).
  { intros id bucket Hin Hid.
    destruct (_remoteReferences m3) as [|[key first] rest]; [destruct Hin|].
    cbn [merge_remoteReferences fst snd JS.values map] in *.
    destruct Hin as [<-|Hin]; [exact Hid|].
    apply lookup_merged. right. eauto. }
  assert (Hfirst : fst (merge_remoteReferences (_remoteReferences m3))
                   = match snd (merge_remoteReferences (_remoteReferences m3)) with
                     | [] => []
                     | (_, first) :: _ => first
                     end).
  { destruct (_remoteReferences m3) as [|[key first] rest]; reflexivity. }
  destruct (merge_remoteReferences (_remoteReferences m3)) as [merged aliased].
  cbn [fst snd] in Hmerge, Hfirst.
  unfold bind, modify, gets, ret in Hrun. injection Hrun as <- <-.
  cbn [mr_resolvedReferences referenceMap set_remoteReferences resolvedReferences
       _referencedItems _remoteReferences first_registry].
  unfold first_registry. cbn [set_remoteReferences _remoteReferences].
  rewrite <- Hfirst.
  split; [reflexivity|]. split; [reflexivity|]. split; [exact Hmerge|].
  intros id. rewrite lookup_assign_all. split.
  - intros [H|H].
    + left. intros E. apply H. now apply lookup_assign_all_nil.
    + right. subst merged. destruct aliased as [|[key first] rest]; [now destruct H|].
      exists first. split; [now left | exact H].
  - intros [H|(bucket & Hin & H)].
    + left. intros E. apply H. now apply lookup_assign_all_nil.
    + right. eapply Hmerge; eassumption.
Qed.

Lemma referenceMap_covers_registries_witness :
  exists response m',
    mapFilterResponse Sample.ext 0 Sample.no_fetch [] None VUndefined None None
                      Sample.round_mapper
    = (Returns response, m')
    /\ JS.lookup "m1.en_GB" (referenceMap response) <> None.
Proof.
  pose (run := mapFilterResponse Sample.ext 0 Sample.no_fetch [] None VUndefined
                 None None Sample.round_mapper).
  pose (response := match fst run with
                    | Returns r => r
                    | _ => {| mappedItems := []; referenceMap := [];
                              mr_resolvedReferences := [] |}
                    end).
  assert (Hrun : mapFilterResponse Sample.ext 0 Sample.no_fetch [] None VUndefined
                   None None Sample.round_mapper
                 = (Returns response, snd run)) by reflexivity.
  exists response, (snd run). split; [exact Hrun|].
  apply (referenceMap_covers_registries Sample.ext 0 Sample.no_fetch [] None
           VUndefined None None Sample.round_mapper _ _ Hrun).
  left. discriminate.
Defined.

(** ** The configuration of the API object *)

Lemma required_returns (message : string) (value : option string) (s : string) :
  required message value = Returns s <-> value = Some s /\ s <> "".
Proof.
  unfold required, JS.truthy_str. destruct value as [v|].
  - destruct (String.eqb_spec v ""); cbn [negb]; split.
    + discriminate.
    + intros [[= ->] H]. contradiction.
    + intros [= ->]. auto.
    + intros [[= ->] _]. reflexivity.
  - split; [discriminate | intros [H _]; discriminate].
Qed.

Lemma required_given (message : string) (value : option string) :
  (exists s, required message value = Returns s) <-> given value.
Proof.
  unfold given. split; intros (s & H); exists s; now apply required_returns in H
    || now apply required_returns.
Qed.

Lemma required_outcome (message : string) (value : option string) :
  (exists s, required message value = Returns s /\ value = Some s /\ s <> "")
  \/ (required message value = Throws (Error message) /\ ~ given value).
Proof.
  unfold required, given, JS.truthy_str. destruct value as [v|].
  - destruct (String.eqb_spec v ""); cbn [negb].
    + right. split; [reflexivity|]. intros (s & [= <-] & H). contradiction.
    + left. eauto.
  - right. split; [reflexivity|]. intros (s & H & _). discriminate.
Qed.

Lemma check_remotes_returns (x : ApiExternals)
  (entries : list RemoteProjectConfigurationEntry) :
  check_remotes x entries = Returns tt <-> Forall complete_remote entries.
Proof.
  induction entries as [|e entries IH]; cbn [check_remotes].
  - split; [constructor | reflexivity].
  - unfold complete_remote at 1, given, JS.truthy_str, JS.truthy_opt, JS.truthy_str.
    destruct (String.eqb_spec (rp_id e) ""); cbn [negb].
    + split; [discriminate|]. intros H. inversion H as [|? ? [Hid _] _]; subst.
      contradiction.
    + destruct (rp_locale e) as [l|] eqn:Hl.
      * destruct (String.eqb_spec l ""); cbn [negb].
        -- split; [discriminate|]. intros H.
           inversion H as [|? ? [_ (s & Hs & Hne)] _]; subst.
           unfold complete_remote in *. rewrite Hl in Hs. injection Hs as <-.
           contradiction.
        -- rewrite IH. split.
           ++ intros H. constructor; [|exact H]. split; [assumption|].
              rewrite Hl. eauto.
           ++ intros H. now inversion H.
      * split; [discriminate|]. intros H.
        inversion H as [|? ? [_ (s & Hs & _)] _]; subst.
        rewrite Hl in Hs. discriminate.
Qed.

Lemma check_remotes_outcome (x : ApiExternals)
  (entries : list RemoteProjectConfigurationEntry) :
  check_remotes x entries = Returns tt
  \/ check_remotes x entries = Throws (Error (MISSING_REMOTE_ID x))
  \/ check_remotes x entries = Throws (Error (MISSING_REMOTE_LOCALE x)).
Proof.
  induction entries as [|e entries IH]; cbn [check_remotes]; [auto|].
  destruct (negb (JS.truthy_str (rp_id e))); [auto|].
  destruct (negb (JS.truthy_opt (rp_locale e))); auto.
Qed.

Lemma check_contentMode_returns (x : ApiExternals) (value : option string)
  (mode : FSXAContentMode) :
  check_contentMode x value = Returns mode
  <-> value = Some (contentMode_string mode).
Proof.
  unfold check_contentMode. destruct value as [s|].
  - destruct (String.eqb_spec s "preview") as [->|Hp].
    + destruct mode; split; try discriminate; reflexivity.
    + destruct (String.eqb_spec s "release") as [->|Hr].
      * destruct mode; split; try discriminate; reflexivity.
      * split; [discriminate|]. destruct mode; intros [= ->]; contradiction.
  - split; discriminate.
Qed.

Lemma new_FSXARemoteApi_returns (x : ApiExternals) (config : FSXARemoteApiConfig)
  (this : ApiObject) :
  new_FSXARemoteApi x config = Returns this ->
  complete_config config
  /\ cfg_apikey config = Some (_apikey this)
  /\ cfg_caasURL config = Some (_caasURL this)
  /\ cfg_navigationServiceURL config = Some (_navigationServiceURL this)
  /\ cfg_tenantID config = Some (_tenantID this)
  /\ cfg_projectID config = Some (_projectID this)
  /\ remotes (mapping this) = match cfg_remotes config with Some r => r | None => [] end
  /\ cfg_contentMode config = Some (contentMode_string (contentMode (mapping this)))
  /\ _enableEventStream this = false.
Proof.
  unfold new_FSXARemoteApi, complete_config. cbv zeta.
  destruct (required_outcome (MISSING_API_KEY x) (cfg_apikey config))
    as [(s1 & -> & H1 & N1)|[-> _]]; [|discriminate].
  destruct (required_outcome (MISSING_CAAS_URL x) (cfg_caasURL config))
    as [(s2 & -> & H2 & N2)|[-> _]]; [|discriminate].
  destruct (required_outcome (MISSING_NAVIGATION_SERVICE_URL x)
                             (cfg_navigationServiceURL config))
    as [(s3 & -> & H3 & N3)|[-> _]]; [|discriminate].
  destruct (required_outcome (MISSING_TENANT_ID x) (cfg_tenantID config))
    as [(s4 & -> & H4 & N4)|[-> _]]; [|discriminate].
  destruct (required_outcome (MISSING_PROJECT_ID x) (cfg_projectID config))
    as [(s5 & -> & H5 & N5)|[-> _]]; [|discriminate].
  cbn [and_then].
  match goal with
  | |- context [check_remotes x ?l] =>
      destruct (check_remotes_outcome x l) as [Hr|[Hr|Hr]]
  end; rewrite Hr; cbn [and_then]; try discriminate.
  apply check_remotes_returns in Hr.
  destruct (check_contentMode x (cfg_contentMode config)) as [mode| | |] eqn:Hm;
    cbn [and_then]; try discriminate.
  apply check_contentMode_returns in Hm.
  intros [= <-]. cbn. unfold given.
  repeat split; eauto.
  destruct mode; [left | right]; exact Hm.
Qed.

(** X19.  The constructor accepts exactly the complete configurations: the
    five connection settings present and not empty, every remote project with
    an id and a locale, and a content mode that is ['preview'] or
    ['release'].  The object it returns holds these settings, has the event
    stream switched off, and is well configured.  Every other configuration
    makes it throw an [Error]; without an API key, the one for the missing
    key, whatever else is missing. *)
Theorem constructor_accepts_complete_config (x : ApiExternals)
  (config : FSXARemoteApiConfig) :
  ((exists this, new_FSXARemoteApi x config = Returns this) <-> complete_config config)
  /\ (forall this,
        new_FSXARemoteApi x config = Returns this ->
        well_configured this
        /\ cfg_apikey config = Some (_apikey this)
        /\ cfg_caasURL config = Some (_caasURL this)
        /\ cfg_navigationServiceURL config = Some (_navigationServiceURL this)
        /\ cfg_tenantID config = Some (_tenantID this)
        /\ cfg_projectID config = Some (_projectID this)
        /\ cfg_contentMode config
           = Some (contentMode_string (contentMode (mapping this)))
        /\ _enableEventStream this = false)
  /\ ((exists this, new_FSXARemoteApi x config = Returns this)
      \/ exists message, new_FSXARemoteApi x config = Throws (Error message))
  /\ (~ given (cfg_apikey config) ->
      new_FSXARemoteApi x config = Throws (Error (MISSING_API_KEY x))).
Proof.
  split; [|split; [|split]].
  - split.
    + intros (this & H). now apply new_FSXARemoteApi_returns in H.
    + intros ((a & Ea & Na) & (c & Ec & Nc) & (n & En & Nn) & (t & Et & Nt)
              & (p & Ep & Np) & Hr & Hm).
      unfold new_FSXARemoteApi. cbv zeta. unfold required.
      rewrite Ea, Ec, En, Et, Ep.
      rewrite !truthy_str_nonempty by assumption. cbn [and_then].
      match goal with
      | |- context [check_remotes x ?l] =>
          replace (check_remotes x l) with (Returns tt)
            by (symmetry; apply check_remotes_returns; exact Hr)
      end. cbn [and_then].
      destruct Hm as [-> | ->]; cbn; eauto.
  - intros this H.
    destruct (new_FSXARemoteApi_returns x config this H)
      as (Hc & Ha & Hu & Hn & Ht & Hp & Hr & Hm & He).
    destruct Hc as ((a & Ea & Na) & (c & Ec & Nc) & (n & En & Nn) & (t & Et & Nt)
                    & (p & Ep & Np) & Hrem & _).
    unfold well_configured. rewrite Hr.
    repeat split; try assumption; congruence.
  - unfold new_FSXARemoteApi. cbv zeta.
    destruct (required_outcome (MISSING_API_KEY x) (cfg_apikey config))
      as [(s1 & -> & _)|[-> _]]; [|right; eexists; reflexivity].
    destruct (required_outcome (MISSING_CAAS_URL x) (cfg_caasURL config))
      as [(s2 & -> & _)|[-> _]]; [|right; eexists; reflexivity].
    destruct (required_outcome (MISSING_NAVIGATION_SERVICE_URL x)
                               (cfg_navigationServiceURL config))
      as [(s3 & -> & _)|[-> _]]; [|right; eexists; reflexivity].
    destruct (required_outcome (MISSING_TENANT_ID x) (cfg_tenantID config))
      as [(s4 & -> & _)|[-> _]]; [|right; eexists; reflexivity].
    destruct (required_outcome (MISSING_PROJECT_ID x) (cfg_projectID config))
      as [(s5 & -> & _)|[-> _]]; [|right; eexists; reflexivity].
    cbn [and_then].
    match goal with
    | |- context [check_remotes x ?l] =>
        destruct (check_remotes_outcome x l) as [Hr|[Hr|Hr]]
    end; rewrite Hr; cbn [and_then]; try (right; eexists; reflexivity).
    unfold check_contentMode. destruct (cfg_contentMode config) as [s|];
      [|right; eexists; reflexivity].
    destruct (s =? "preview")%string; [left; eexists; reflexivity|].
    destruct (s =? "release")%string; [left; eexists; reflexivity|].
    right. eexists. reflexivity.
  - intros Hno. unfold new_FSXARemoteApi. cbv zeta.
    destruct (required_outcome (MISSING_API_KEY x) (cfg_apikey config))
      as [(s1 & _ & H1 & N1)|[-> _]]; [|reflexivity].
    exfalso. apply Hno. exists s1. auto.
Qed.

Lemma assign_setting_keeps (x : ApiExternals) (s : Setting) (this this' : ApiObject) :
  well_configured this -> assign_setting x s this = Returns this' ->
  well_configured this'.
Proof.
  intros (Ha & Hc & Hn & Ht & Hp & Hr) H. unfold well_configured.
  destruct s as [v|v|v|v|v|v|v]; cbn [assign_setting] in H.
  1-5: match type of H with
       | and_then (required ?msg ?v) _ = _ =>
           destruct (required_outcome msg v) as [(s & E & _ & Hs)|[E _]];
           rewrite E in H; cbn [and_then] in H; [|discriminate];
           injection H as <-; cbn; auto 10
       end.
  - destruct (check_remotes_outcome x (JS.values v)) as [E|[E|E]];
      rewrite E in H; cbn [and_then] in H; try discriminate.
    injection H as <-. cbn. apply check_remotes_returns in E. auto 10.
  - destruct (check_contentMode x v); cbn [and_then] in H; try discriminate.
    injection H as <-. cbn. auto 10.
Qed.

(** X20.  The setters keep the API object well configured.  An object the
    constructor returned has all five connection settings and complete
    remote projects, and still has them after any sequence of setter calls,
    also when some of them throw: a setter that throws has changed
    nothing. *)
Theorem setters_keep_well_configured (x : ApiExternals)
  (config : FSXARemoteApiConfig) (settings : list Setting) (this : ApiObject)
  (Hnew : new_FSXARemoteApi x config = Returns this) :
  well_configured (assign_settings x settings this)
  /\ forall entry,
       In entry (JS.values (remotes (mapping (assign_settings x settings this)))) ->
       own_locale (Some entry) = rp_locale entry /\ rp_locale entry <> None.
Proof.
  assert (Hstart : well_configured this).
  { destruct (new_FSXARemoteApi_returns x config this Hnew)
      as (Hc & Ha & Hu & Hn & Ht & Hp & Hr & _).
    destruct Hc as ((a & Ea & Na) & (c & Ec & Nc) & (n & En & Nn) & (t & Et & Nt)
                    & (p & Ep & Np) & Hrem & _).
    unfold well_configured. rewrite Hr. repeat split; try assumption; congruence. }
  clear Hnew.
  assert (Hend : well_configured (assign_settings x settings this)).
  { revert this Hstart. induction settings as [|s settings IH]; intros this Hstart;
      cbn [assign_settings]; [exact Hstart|].
    apply IH. destruct (assign_setting x s this) eqn:E; try exact Hstart.
    eapply assign_setting_keeps; eassumption. }
  split; [exact Hend|].
  intros entry Hin. destruct Hend as (_ & _ & _ & _ & _ & Hr).
  rewrite Forall_forall in Hr. destruct (Hr entry Hin) as (_ & l & Hl & Hne).
  unfold own_locale. rewrite Hl.
  destruct (String.eqb_spec l ""); [contradiction|]. split; [reflexivity | discriminate].
Qed.

Lemma setters_keep_well_configured_witness :
  well_configured
    (assign_settings SampleApi.x
       [Set_apikey (Some ""); Set_projectID (Some "other");
        Set_contentMode (Some "draft"); Set_remotes []]
       SampleApi.this).
Proof.
  exact (proj1 (setters_keep_well_configured SampleApi.x SampleApi.config
                  [Set_apikey (Some ""); Set_projectID (Some "other");
                   Set_contentMode (Some "draft"); Set_remotes []]
                  SampleApi.this eq_refl)).
Defined.

(** ** Requests of the API object *)

Lemma api_step_returns {A : Type} (o : outcome A) (mapper : option CaaSMapper)
  (k : A -> outcome FetchResponse * option CaaSMapper) (r : FetchResponse) :
  fst (api_step o mapper k) = Returns r ->
  exists a, o = Returns a /\ fst (k a) = Returns r.
Proof.
  destruct o; cbn; try discriminate. eauto.
Qed.

Lemma effective_page_cases (params : FetchByFilterParams) :
  match effective_page params with
  | JS.Int page => 1 <= page
  | JS.NaN => fp_page params = Some JS.NaN
  end.
Proof.
  unfold effective_page. cbv zeta.
  destruct (fp_page params) as [[page|]|]; cbn; try reflexivity; try lia.
  destruct (Z.ltb_spec page 1); lia.
Qed.

Lemma effective_pagesize_cases (params : FetchByFilterParams) :
  match effective_pagesize params with
  | JS.Int pagesize => 1 <= pagesize
  | JS.NaN => fp_pagesize params = Some JS.NaN
  end.
Proof.
  unfold effective_pagesize. cbv zeta.
  destruct (fp_pagesize params) as [[pagesize|]|]; cbn; try reflexivity; try lia.
  destruct (Z.ltb_spec pagesize 1); lia.
Qed.

(** X21.  The shape of what [fetchByFilter] returns.  Without documents it
    is the fixed empty response, with page 1 and page size 30 whatever was
    asked for.  Otherwise the response carries the page and the page size of
    the request, with the fallbacks 1 and 30 for values below one, and the
    reference map and the resolved references exactly when [normalized] was
    set.  The page and the page size of a response are at least one, with one
    exception: [NaN] is not below one, so a page or a page size of [NaN] gets
    no fallback and is handed on in the response.  The two maps come
    together or not at all. *)
Theorem fetchByFilter_response_shape (ext : Externals) (fuel rounds : nat)
  (this : FSXARemoteApi) (params : FetchByFilterParams) (mapper : option CaaSMapper)
  (response : FetchResponse)
  (Hreturns : fst (fetchByFilter ext fuel rounds this params mapper) = Returns response) :
  (response = empty_response
   \/ (fr_page response = effective_page params
       /\ fr_pagesize response = effective_pagesize params
       /\ (fr_referenceMap response <> None <-> fp_normalized params = Some true)))
  /\ match fr_page response with
     | JS.Int page => 1 <= page
     | JS.NaN => fp_page params = Some JS.NaN
     end
  /\ match fr_pagesize response with
     | JS.Int pagesize => 1 <= pagesize
     | JS.NaN => fp_pagesize params = Some JS.NaN
     end
  /\ (fp_page params = Some JS.NaN -> effective_page params = JS.NaN)
  /\ (fp_pagesize params = Some JS.NaN -> effective_pagesize params = JS.NaN)
  /\ (fr_referenceMap response = None <-> fr_resolvedReferences response = None).
Proof.
  assert (Hnan : (fp_page params = Some JS.NaN -> effective_page params = JS.NaN)
                 /\ (fp_pagesize params = Some JS.NaN ->
                     effective_pagesize params = JS.NaN)).
  { unfold effective_page, effective_pagesize.
    split; intros ->; reflexivity. }
  destruct Hnan as [Hnan1 Hnan2].
  destruct rounds as [|rounds]; [discriminate|].
  cbn [fetchByFilter] in Hreturns. unfold fetchByFilter_body in Hreturns.
  cbv zeta in Hreturns.
  apply api_step_returns in Hreturns. destruct Hreturns as (url & _ & H).
  destruct (negb (ok (fetch ext url (fp_fetchOptions params)))).
  { destruct (status _ =? 401); discriminate. }
  apply api_step_returns in H. destruct H as (data & _ & H).
  apply api_step_returns in H. destruct H as (docs & _ & H).
  destruct docs as [| | | | | items |]; try discriminate.
  destruct items as [|item items].
  { injection H as <-. cbn. repeat split; auto; lia. }
  unfold fetchByFilter_map in H. cbv zeta in H.
  apply api_step_returns in H. destruct H as (remoteLocale & _ & H).
  apply api_step_returns in H. destruct H as (mapperLocale & _ & H).
  destruct (mapFilterResponse _ _ _ _ _ _ _ _ _) as [mapping m'].
  apply api_step_returns in H. destruct H as (mapped & _ & H).
  apply api_step_returns in H. destruct H as (filtered & _ & H).
  injection H as <-. cbn [fr_page fr_pagesize fr_referenceMap fr_resolvedReferences].
  pose proof (effective_page_cases params) as Hpage.
  pose proof (effective_pagesize_cases params) as Hsize.
  split.
  { right. split; [reflexivity|]. split; [reflexivity|].
    destruct (fp_normalized params) as [[|]|]; split; intros; try reflexivity;
      try discriminate; congruence. }
  split; [exact Hpage|]. split; [exact Hsize|].
  split; [exact Hnan1|]. split; [exact Hnan2|].
  destruct (fp_normalized params) as [[|]|]; split; intros; try reflexivity;
    discriminate.
Qed.

Lemma fetchByFilter_response_shape_witness :
  (exists response,
     fst (fetchByFilter SampleApi.ext 3 3 Sample.remoteApi Sample.page_request None)
     = Returns response
     /\ fr_page response = 7 /\ fr_pagesize response = 5
     /\ fr_referenceMap response = None)
  /\ (exists response,
        fst (fetchByFilter SampleApi.ext 3 3 Sample.remoteApi
                           SampleApi.undefined_page None)
        = Returns response
        /\ fr_page response = JS.NaN /\ fr_pagesize response = 30).
Proof.
  split.
  - pose (run := fetchByFilter SampleApi.ext 3 3 Sample.remoteApi
                               Sample.page_request None).
    pose (response := match fst run with Returns r => r | _ => empty_response end).
    assert (Hrun : fst run = Returns response) by reflexivity.
    exists response. split; [exact Hrun|].
    destruct (fetchByFilter_response_shape _ _ _ _ _ _ _ Hrun)
      as ([Hempty | (Hp & Hs & Hn)] & _).
    + discriminate Hempty.
    + split; [exact Hp | split; [exact Hs | reflexivity]].
  - pose (run := fetchByFilter SampleApi.ext 3 3 Sample.remoteApi
                               SampleApi.undefined_page None).
    pose (response := match fst run with Returns r => r | _ => empty_response end).
    assert (Hrun : fst run = Returns response) by reflexivity.
    exists response. split; [exact Hrun|].
    destruct (fetchByFilter_response_shape _ _ _ _ _ _ _ Hrun)
      as ([Hempty | (Hp & Hs & Hn)] & _).
    + discriminate Hempty.
    + split; [exact Hp | exact Hs].
Defined.

(** X22.  A server that refuses every request.  No request method returns:
    each throws an [Error] chosen by the status code.  [fetchSecureToken]
    throws the not-found error for 404, the not-authorized error for 401 and
    the unknown error for every other code.  [fetchNavigation] throws the
    not-found error for 404 and the unknown error for every other code, and
    the unknown error whatever the code when the initial path has a ['?'] or
    a ['#'], as it then sends no request.  [fetchByFilter] throws the
    not-authorized error for 401 and the unknown error for every other code,
    404 included, and hands the mapper back as it received it;
    [fetchElement] never returns. *)
Theorem refused_requests (x : ApiExternals) (ext : Externals) (this : ApiObject)
  (code : Z)
  (Hrefused : forall url options,
      ok (fetch ext url options) = false /\ status (fetch ext url options) = code) :
  fetchSecureToken x ext this
  = Throws (Error (if code =? 404 then NOT_FOUND x
                   else if code =? 401 then NOT_AUTHORIZED ext
                        else UNKNOWN_ERROR ext))
  /\ (forall params,
        fetchNavigation x ext this params
        = Throws (Error (if forbidden_path params then UNKNOWN_ERROR ext
                         else if code =? 404 then NOT_FOUND x
                              else UNKNOWN_ERROR ext)))
  /\ (forall fuel rounds params mapper url,
        buildCaaSUrl ext (mapping this)
          (caas_request params (effective_page params) (effective_pagesize params))
        = Returns url ->
        fetchByFilter ext fuel (S rounds) (mapping this) params mapper
        = (Throws (Error (if code =? 401 then NOT_AUTHORIZED ext
                          else UNKNOWN_ERROR ext)), mapper))
  /\ (forall fuel rounds params result,
        fetchElement x ext fuel rounds (mapping this) params <> Returns result).
Proof.
  assert (Hfilter : forall fuel rounds params mapper response,
             fst (fetchByFilter ext fuel rounds (mapping this) params mapper)
             <> Returns response).
  { intros fuel rounds params mapper response H.
    destruct rounds as [|rounds]; [discriminate|].
    cbn [fetchByFilter] in H. unfold fetchByFilter_body in H. cbv zeta in H.
    apply api_step_returns in H. destruct H as (url & _ & H).
    destruct (Hrefused url (fp_fetchOptions params)) as [Hok _].
    rewrite Hok in H. cbn [negb] in H.
    destruct (status _ =? 401); discriminate. }
  repeat split.
  - unfold fetchSecureToken. cbv zeta.
    match goal with
    | |- context [fetch ext ?u ?o] => destruct (Hrefused u o) as [-> ->]
    end.
    cbn [negb]. destruct (code =? 404); [reflexivity|].
    destruct (code =? 401); reflexivity.
  - intros params. unfold fetchNavigation, forbidden_path.
    destruct (np_initialPath params) as [path|].
    + cbn [existsb]. rewrite orb_false_r.
      destruct (JS.truthy_str path) eqn:Hpath.
      * destruct (JS.includes_char "?" path || JS.includes_char "#" path);
          [reflexivity|].
        cbv zeta. cbn [and_then].
        match goal with
        | |- context [fetch ext ?u ?o] => destruct (Hrefused u o) as [-> ->]
        end.
        cbn [negb]. destruct (code =? 404); reflexivity.
      * assert (Hempty : path = "").
        { unfold JS.truthy_str in Hpath. destruct (String.eqb_spec path "");
            [assumption | discriminate]. }
        subst path. cbv zeta. cbn [and_then JS.includes_char JS.find_char orb].
        match goal with
        | |- context [fetch ext ?u ?o] => destruct (Hrefused u o) as [-> ->]
        end.
        cbn [negb]. destruct (code =? 404); reflexivity.
    + cbv zeta. cbn [and_then].
      match goal with
      | |- context [fetch ext ?u ?o] => destruct (Hrefused u o) as [-> ->]
      end.
      cbn [negb]. destruct (code =? 404); reflexivity.
  - intros fuel rounds params mapper url Hurl.
    cbn [fetchByFilter]. unfold fetchByFilter_body. cbv zeta.
    rewrite Hurl. cbn [api_step].
    destruct (Hrefused url (fp_fetchOptions params)) as [-> ->].
    cbn [negb]. destruct (code =? 401); reflexivity.
  - intros fuel rounds params result H. unfold fetchElement in H.
    destruct (match ep_remoteProject params with Some _ => _ | None => _ end)
      as [locale| | |]; cbn [and_then] in H; try discriminate.
    destruct (fst (fetchByFilter ext fuel rounds (mapping this)
                                 (element_request params locale) None))
      as [response| | |] eqn:Hrun; cbn [and_then] in H; try discriminate.
    exact (Hfilter _ _ _ _ _ Hrun).
Qed.

Lemma refused_requests_witness :
  fetchSecureToken SampleApi.x SampleApi.refusing SampleApi.this
  = Throws (Error (NOT_FOUND SampleApi.x))
  /\ fetchNavigation SampleApi.x SampleApi.refusing SampleApi.this
                     SampleApi.navigation_params
     = Throws (Error (NOT_FOUND SampleApi.x))
  /\ fetchByFilter SampleApi.refusing 3 1 Sample.remoteApi Sample.page_request None
     = (Throws (Error (UNKNOWN_ERROR Sample.ext)), None).
Proof.
  destruct (refused_requests SampleApi.x SampleApi.refusing SampleApi.this 404
              (fun _ _ => conj eq_refl eq_refl))
    as (Htoken & Hnavigation & Hfilter & _).
  split; [exact Htoken|].
  split; [exact (Hnavigation SampleApi.navigation_params)|].
  exact (Hfilter 3%nat 0%nat Sample.page_request None
                 "https://caas.test/tenant/project.preview.content" eq_refl).
Defined.

(** X23.  Which part of the navigation is asked for.  An initial path other
    than the empty one and ['/'] decides the URL alone: the locale is not part
    of it.  The path ['/'] and the empty path count as no path, and an empty
    locale as no locale; with neither, the URL is the plain one of the
    project, without a query.  [fetchNavigation] refuses a path with a ['?']
    or a ['#'] with the unknown error, whatever the server would answer. *)
Theorem navigation_url_selection (x : ApiExternals) (this : ApiObject)
  (locale : option string) (all : option bool) :
  (forall path,
      path <> "" -> path <> "/" ->
      buildNavigationServiceUrl x this locale (Some path) all
      = buildNavigationServiceUrl x this None (Some path) all
      /\ JS.includes_char "?" (buildNavigationServiceUrl x this locale (Some path) all)
         = true)
  /\ buildNavigationServiceUrl x this locale (Some "/") all
     = buildNavigationServiceUrl x this locale None all
  /\ buildNavigationServiceUrl x this locale (Some "") all
     = buildNavigationServiceUrl x this locale None all
  /\ buildNavigationServiceUrl x this (Some "") None all
     = buildNavigationServiceUrl x this None None all
  /\ buildNavigationServiceUrl x this None None all
     = _navigationServiceURL this ++ "/"
       ++ contentMode_string (contentMode (mapping this)) ++ "." ++ _projectID this
  /\ (forall ext params path,
        np_initialPath params = Some path ->
        JS.includes_char "?" path = true \/ JS.includes_char "#" path = true ->
        fetchNavigation x ext this params = Throws (Error (UNKNOWN_ERROR ext))).
Proof.
  repeat split; try reflexivity.
  - unfold buildNavigationServiceUrl. cbv zeta.
    rewrite truthy_str_nonempty by assumption.
    destruct (String.eqb_spec path "/"); [contradiction|]. reflexivity.
  - unfold buildNavigationServiceUrl. cbv zeta.
    rewrite truthy_str_nonempty by assumption.
    destruct (String.eqb_spec path "/"); [contradiction|]. cbn [andb negb].
    do 3 apply includes_char_append_r.
    exact (includes_char_here _ _).
  - intros ext params path Hpath Hchar. unfold fetchNavigation. rewrite Hpath.
    assert (Hne : JS.truthy_str path = true).
    { apply truthy_str_nonempty. intros ->. destruct Hchar; discriminate. }
    rewrite Hne. cbn [existsb].
    destruct Hchar as [-> | ->]; rewrite ?orb_true_r; reflexivity.
Qed.

Lemma and_then_returns {A B : Type} (o : outcome A) (k : A -> outcome B) (b : B) :
  and_then o k = Returns b -> exists a, o = Returns a /\ k a = Returns b.
Proof.
  destruct o; cbn; try discriminate. eauto.
Qed.

Lemma route_ids_returns (routes : list value) (ids : list value) :
  fold_right (fun item acc =>
                and_then (JS.get item "id") (fun id =>
                and_then acc (fun ids => Returns (id :: ids))))
             (Returns []) routes = Returns ids ->
  ids = ids_of routes.
Proof.
  revert ids. induction routes as [|route routes IH]; intros ids H; cbn in H.
  - now injection H as <-.
  - apply and_then_returns in H. destruct H as (id & Hid & H).
    apply and_then_returns in H. destruct H as (rest & Hrest & H).
    injection H as <-. cbn. rewrite (IH rest Hrest). f_equal.
    apply get_opt_of_get in Hid. now rewrite Hid.
Qed.

(** X24.  What the navigation filter can change.  Without a filter the
    navigation is handed on as the server sent it.  With a filter, the
    routes of [idMap] are shown to it, and the ids of the routes it kept are
    what the three helpers receive; the result holds their answers under
    [idMap], [seoRouteMap] and [structure], and every other entry of the
    navigation with the value it had. *)
Theorem filtered_navigation_keeps_other_entries (x : ApiExternals) (this : ApiObject)
  (response : HttpResponse) (filterContext : value) (result : value)
  (Hreturns : getFilteredNavigation x this response filterContext = Returns result) :
  match _navigationItemFilter this with
  | None => json response = Returns result
  | Some navigationItemFilter =>
      exists navigation kept,
        json response = Returns navigation
        /\ navigationItemFilter
             (JS.values (JS.own_fields (JS.get_opt navigation "idMap"))) filterContext
           = Returns kept
        /\ removeFromIdMap x (JS.get_opt navigation "idMap") (ids_of kept)
           = Returns (JS.get_opt result "idMap")
        /\ removeFromSeoRouteMap x (JS.get_opt navigation "seoRouteMap") (ids_of kept)
           = Returns (JS.get_opt result "seoRouteMap")
        /\ removeFromStructure x (JS.get_opt navigation "structure") (ids_of kept)
           = Returns (JS.get_opt result "structure")
        /\ forall key,
             key <> "idMap" -> key <> "seoRouteMap" -> key <> "structure" ->
             JS.get_opt result key
             = JS.get_opt (JS.object (JS.own_fields navigation)) key
  end.
Proof.
  unfold getFilteredNavigation in Hreturns.
  destruct (_navigationItemFilter this) as [navigationItemFilter|]; [|exact Hreturns].
  apply and_then_returns in Hreturns. destruct Hreturns as (navigation & Hjson & H).
  apply and_then_returns in H. destruct H as (idMap & HidMap & H).
  apply and_then_returns in H. destruct H as (routes & Hroutes & H).
  apply and_then_returns in H. destruct H as (kept & Hkept & H).
  apply and_then_returns in H. destruct H as (ids & Hids & H).
  apply and_then_returns in H. destruct H as (seoRouteMap & HseoMap & H).
  apply and_then_returns in H. destruct H as (seo & Hseo & H).
  apply and_then_returns in H. destruct H as (structure0 & Hstructure0 & H).
  apply and_then_returns in H. destruct H as (structure & Hstructure & H).
  apply and_then_returns in H. destruct H as (filteredIdMap & HfilteredIdMap & H).
  injection H as <-.
  apply route_ids_returns in Hids. subst ids.
  apply get_opt_of_get in HidMap, HseoMap, Hstructure0. subst idMap seoRouteMap structure0.
  assert (Hr : routes = JS.values (JS.own_fields (JS.get_opt navigation "idMap"))).
  { destruct (JS.get_opt navigation "idMap"); try discriminate;
      now injection Hroutes as <-. }
  subst routes.
  exists navigation, kept.
  split; [exact Hjson|]. split; [exact Hkept|].
  rewrite HfilteredIdMap, Hseo, Hstructure.
  set (base := JS.assign_all [] (JS.own_fields navigation)).
  unfold JS.object. fold base.
  cbn [JS.get_opt].
  repeat split.
  - rewrite !lookup_assign_ne by discriminate. now rewrite lookup_assign_eq.
  - rewrite lookup_assign_ne by discriminate. now rewrite lookup_assign_eq.
  - now rewrite lookup_assign_eq.
  - intros key H1 H2 H3. now rewrite !lookup_assign_ne by assumption.
Qed.

Lemma filtered_navigation_keeps_other_entries_witness :
  exists result,
    getFilteredNavigation SampleApi.x SampleApi.filtering
                          SampleApi.navigation_response VUndefined
    = Returns result
    /\ JS.get_opt result "meta" = JS.get_opt SampleApi.navigation "meta".
Proof.
  pose (run := getFilteredNavigation SampleApi.x SampleApi.filtering
                                     SampleApi.navigation_response VUndefined).
  pose (result := match run with Returns r => r | _ => VNull end).
  assert (Hrun : run = Returns result) by reflexivity.
  exists result. split; [exact Hrun|].
  pose proof (filtered_navigation_keeps_other_entries _ _ _ _ _ Hrun) as H.
  cbv beta iota delta [SampleApi.filtering _navigationItemFilter] in H.
  destruct H as (navigation & kept & Hjson & _ & _ & _ & _ & Hother).
  injection Hjson as <-.
  rewrite (Hother "meta") by discriminate. reflexivity.
Defined.

Lemma verifyRemoteProjectExists_unknown (ext : Externals) (this : FSXARemoteApi)
  (p : string) :
  (forall entry, In entry (JS.values (remotes this)) -> rp_id entry <> p) ->
  verifyRemoteProjectExists ext this p = Throws (Error (UNKNOWN_REMOTE ext)).
Proof.
  intros H. unfold verifyRemoteProjectExists.
  destruct (find _ _) as [entry|] eqn:E; [|reflexivity].
  apply find_some in E. destruct E as [Hin Heq].
  apply String.eqb_eq in Heq. now apply H in Hin.
Qed.

Lemma verifyRemoteProjectExists_returns (ext : Externals) (this : FSXARemoteApi)
  (p : string) :
  verifyRemoteProjectExists ext this p = Returns tt ->
  exists entry, In entry (JS.values (remotes this)) /\ rp_id entry = p.
Proof.
  unfold verifyRemoteProjectExists.
  destruct (find _ _) as [entry|] eqn:E; [|discriminate]. intros _.
  apply find_some in E. destruct E as [Hin Heq].
  apply String.eqb_eq in Heq. eauto.
Qed.

Lemma buildCaaSUrl_unknown_remote (x : ApiExternals) (ext : Externals)
  (this : ApiObject) (p : buildCaaSUrlParams) (remote : string) :
  b_remoteProject p = Some remote -> remote <> "" ->
  (forall entry, In entry (JS.values (remotes (mapping this))) -> rp_id entry <> remote) ->
  Api.buildCaaSUrl x ext this p = Throws (Error (UNKNOWN_REMOTE ext)).
Proof.
  intros Hp Hne Hunknown. unfold Api.buildCaaSUrl. rewrite Hp.
  rewrite truthy_str_nonempty by assumption.
  now rewrite verifyRemoteProjectExists_unknown.
Qed.

(** X25.  A remote project that is not configured is rejected before anything
    is sent.  A request that names a remote project whose id no entry of
    [remotes] has gets no URL: [buildCaaSUrl] throws the unknown-remote
    error, and so does [fetchByFilter], whatever the server would have
    answered, leaving the mapper as it was passed.  The names under which
    the projects are configured play no part: only their ids are
    compared. *)
Theorem unknown_remote_is_rejected (x : ApiExternals) (ext : Externals)
  (this : ApiObject) (fuel rounds : nat) (params : FetchByFilterParams)
  (mapper : option CaaSMapper) (remote : string)
  (Hremote : fp_remoteProject params = Some remote)
  (Hgiven : remote <> "")
  (Hunknown : forall entry,
      In entry (JS.values (remotes (mapping this))) -> rp_id entry <> remote) :
  (forall p, b_remoteProject p = Some remote ->
             Api.buildCaaSUrl x ext this p = Throws (Error (UNKNOWN_REMOTE ext)))
  /\ fetchByFilter (with_buildCaaSUrl x this ext) fuel (S rounds) (mapping this)
                   params mapper
     = (Throws (Error (UNKNOWN_REMOTE ext)), mapper).
Proof.
  split.
  - intros p Hp. now apply buildCaaSUrl_unknown_remote with (remote := remote).
  - cbn [fetchByFilter]. unfold fetchByFilter_body. cbv zeta.
    cbn [buildCaaSUrl with_buildCaaSUrl].
    rewrite buildCaaSUrl_unknown_remote with (remote := remote);
      [reflexivity | exact Hremote | exact Hgiven | exact Hunknown].
Qed.

Lemma unknown_remote_is_rejected_witness :
  fetchByFilter (with_buildCaaSUrl SampleApi.x SampleApi.renamed SampleApi.ext)
                3 1 (mapping SampleApi.renamed)
                (chunk_request ["m1"] (Some "en_GB") (Some "assets") VUndefined) None
  = (Throws (Error (UNKNOWN_REMOTE SampleApi.ext)), None).
Proof.
  refine (proj2 (unknown_remote_is_rejected SampleApi.x SampleApi.ext SampleApi.renamed
                   3 0 (chunk_request ["m1"] (Some "en_GB") (Some "assets") VUndefined)
                   None "assets" eq_refl _ _)).
  - discriminate.
  - intros entry [<- | []]. discriminate.
Defined.

(** X26.  [fetchElement] and remote projects.  The locale of a remote project
    is read from [remotes] under the name given as [remoteProject]: from the
    entry stored under that key, or else from a member inherited from
    [Object.prototype], which has no locale.  The URL is built for the
    project with that id.  So a name that is neither a key of [remotes] nor
    inherited ends in a [TypeError] before any request; a name that is a key
    or inherited, but the id of no configured project, ends in the
    unknown-remote error; and the call can only return when the name is the
    id of a configured project and a key or an inherited name.  The request
    then carries the locale of the entry under that key, or no locale for an
    inherited name, and not the locale that was passed. *)
Theorem fetchElement_remote_project (x : ApiExternals) (ext : Externals)
  (this : ApiObject) (fuel rounds : nat) (params : FetchElementParams)
  (remote : string)
  (Hremote : ep_remoteProject params = Some remote)
  (Hgiven : remote <> "") :
  (JS.lookup remote (remotes (mapping this)) = None ->
   inherited remote = false ->
   exists message,
     fetchElement x (with_buildCaaSUrl x this ext) fuel rounds (mapping this) params
     = Throws (TypeError message))
  /\ (JS.lookup remote (remotes (mapping this)) <> None \/ inherited remote = true ->
      (forall other,
          In other (JS.values (remotes (mapping this))) -> rp_id other <> remote) ->
      fetchElement x (with_buildCaaSUrl x this ext) fuel (S rounds) (mapping this)
                   params
      = Throws (Error (UNKNOWN_REMOTE ext)))
  /\ (forall result,
        fetchElement x (with_buildCaaSUrl x this ext) fuel rounds (mapping this) params
        = Returns result ->
        exists locale other response,
          match JS.lookup remote (remotes (mapping this)) with
          | Some entry => locale = rp_locale entry
          | None => inherited remote = true /\ locale = None
          end
          /\ In other (JS.values (remotes (mapping this)))
          /\ rp_id other = remote
          /\ fst (fetchByFilter (with_buildCaaSUrl x this ext) fuel rounds
                                (mapping this) (element_request params locale) None)
             = Returns response
          /\ fr_items response <> []).
Proof.
  assert (Hunknown_remote : forall r locale,
             (forall other,
                 In other (JS.values (remotes (mapping this))) ->
                 rp_id other <> remote) ->
             fst (fetchByFilter (with_buildCaaSUrl x this ext) fuel (S r)
                                (mapping this) (element_request params locale) None)
             = Throws (Error (UNKNOWN_REMOTE ext))).
  { intros r locale Hunknown.
    cbn [fetchByFilter]. unfold fetchByFilter_body. cbv zeta.
    cbn [buildCaaSUrl with_buildCaaSUrl].
    rewrite buildCaaSUrl_unknown_remote with (remote := remote);
      [reflexivity | exact Hremote | exact Hgiven | exact Hunknown]. }
  unfold fetchElement, locale_of_remote. rewrite Hremote.
  rewrite truthy_str_nonempty by assumption.
  split; [|split].
  - intros -> ->. cbn [and_then]. eauto.
  - intros Hnamed Hunknown.
    destruct (JS.lookup remote (remotes (mapping this))) as [entry|].
    + cbn [and_then]. now rewrite Hunknown_remote.
    + destruct Hnamed as [Hkey | ->]; [now contradiction Hkey|].
      cbn [and_then]. now rewrite Hunknown_remote.
  - intros result H.
    assert (Hlocale : exists locale,
               match JS.lookup remote (remotes (mapping this)) with
               | Some entry => locale = rp_locale entry
               | None => inherited remote = true /\ locale = None
               end
               /\ and_then
                    (fst (fetchByFilter (with_buildCaaSUrl x this ext) fuel rounds
                            (mapping this) (element_request params locale) None))
                    (fun response =>
                       match fr_items response with
                       | [] => Throws (Error (NOT_FOUND x))
                       | _ :: _ =>
                           Returns
                             (if match ep_normalized params with
                                 | Some b => b
                                 | None => false
                                 end
                              then NormalizedElement
                                     (fr_items response)
                                     match fr_referenceMap response with
                                     | Some r => r
                                     | None => []
                                     end
                                     match fr_resolvedReferences response with
                                     | Some r => r
                                     | None => []
                                     end
                              else Element
                                     (nth 0
                                        (denormalizeResolvedReferences
                                           (with_buildCaaSUrl x this ext)
                                           (fr_items response)
                                           match fr_referenceMap response with
                                           | Some r => r
                                           | None => []
                                           end
                                           match fr_resolvedReferences response with
                                           | Some r => r
                                           | None => []
                                           end)
                                        VUndefined))
                       end)
                  = Returns result).
    { destruct (JS.lookup remote (remotes (mapping this))) as [entry|].
      - exists (rp_locale entry). split; [reflexivity | exact H].
      - destruct (inherited remote); [|discriminate].
        exists None. split; [split; reflexivity | exact H]. }
    clear H. destruct Hlocale as (locale & Hnamed & H).
    apply and_then_returns in H. destruct H as (response & Hrun & H).
    assert (Hitems : fr_items response <> []).
    { intros E. rewrite E in H. discriminate. }
    destruct (find (fun config => (rp_id config =? remote)%string)
                   (JS.values (remotes (mapping this)))) as [other|] eqn:Hfind.
    + apply find_some in Hfind. destruct Hfind as [Hin Heq].
      apply String.eqb_eq in Heq. exists locale, other, response. auto.
    + exfalso. destruct rounds as [|rounds]; [discriminate|].
      rewrite Hunknown_remote in Hrun; [discriminate|].
      intros other Hin Heq.
      apply (find_none _ _ Hfind) in Hin. apply String.eqb_neq in Hin. contradiction.
Qed.

Lemma fetchElement_remote_project_witness :
  fetchElement SampleApi.x
               (with_buildCaaSUrl SampleApi.x SampleApi.renamed SampleApi.ext)
               3 2 (mapping SampleApi.renamed) SampleApi.remote_element_params
  = Throws (Error (UNKNOWN_REMOTE SampleApi.ext))
  /\ fetchElement SampleApi.x
                  (with_buildCaaSUrl SampleApi.x SampleApi.renamed SampleApi.ext)
                  3 2 (mapping SampleApi.renamed) SampleApi.inherited_element_params
     = Throws (Error (UNKNOWN_REMOTE SampleApi.ext)).
Proof.
  split.
  - refine (proj1 (proj2 (fetchElement_remote_project SampleApi.x SampleApi.ext
                            SampleApi.renamed 3 1 SampleApi.remote_element_params
                            "assets" eq_refl _))
                  (or_introl _) _).
    + discriminate.
    + discriminate.
    + intros other [<- | []]. discriminate.
  - refine (proj1 (proj2 (fetchElement_remote_project SampleApi.x SampleApi.ext
                            SampleApi.renamed 3 1 SampleApi.inherited_element_params
                            "constructor" eq_refl _))
                  (or_intror eq_refl) _).
    + discriminate.
    + intros other [<- | []]. discriminate.
Defined.

(** X27.  [fetchElement] needs an item.  When the server answers the
    request for the element with a body without documents, the call throws
    the not-found error; and whenever it returns a normalized element, the
    list of mapped items in it is not empty. *)
Theorem fetchElement_not_found (x : ApiExternals) (ext : Externals)
  (fuel rounds : nat) (this : FSXARemoteApi) (params : FetchElementParams)
  (url : string) (data : value)
  (Hlocal : ep_remoteProject params = None)
  (Hurl : buildCaaSUrl ext this
            (caas_request (element_request params (ep_locale params)) 1 30)
          = Returns url)
  (Hok : ok (fetch ext url (ep_fetchOptions params)) = true)
  (Hjson : json (fetch ext url (ep_fetchOptions params)) = Returns data)
  (Hempty : without_documents data) :
  fetchElement x ext fuel (S rounds) this params = Throws (Error (NOT_FOUND x))
  /\ forall fuel' rounds' params' mappedItems referenceMap resolvedReferences,
       fetchElement x ext fuel' rounds' this params'
       = Returns (NormalizedElement mappedItems referenceMap resolvedReferences) ->
       mappedItems <> [].
Proof.
  split.
  - unfold fetchElement. rewrite Hlocal. cbn [and_then].
    cbn [fetchByFilter]. unfold fetchByFilter_body. cbv zeta.
    change (effective_page (element_request params (ep_locale params))) with (JS.Int 1).
    change (effective_pagesize (element_request params (ep_locale params)))
      with (JS.Int 30).
    rewrite Hurl. cbn [api_step].
    change (fp_fetchOptions (element_request params (ep_locale params)))
      with (ep_fetchOptions params).
    rewrite Hok. cbn [negb]. rewrite Hjson. cbn [api_step].
    rewrite (documents_of_empty _ Hempty). reflexivity.
  - intros fuel' rounds' params' mappedItems referenceMap resolvedReferences H.
    unfold fetchElement in H.
    apply and_then_returns in H. destruct H as (locale & _ & H).
    apply and_then_returns in H. destruct H as (response & _ & H).
    destruct (fr_items response) as [|first rest] eqn:Hitems; [discriminate|].
    destruct (match ep_normalized params' with Some b => b | None => false end);
      [|discriminate].
    injection H as <- _ _. discriminate.
Qed.

Lemma fetchElement_not_found_witness :
  fetchElement SampleApi.x Sample.ext 3 1 Sample.remoteApi SampleApi.element_params
  = Throws (Error (NOT_FOUND SampleApi.x)).
Proof.
  refine (proj1 (fetchElement_not_found SampleApi.x Sample.ext 3 0 Sample.remoteApi
                   SampleApi.element_params
                   "https://caas.test/tenant/project.preview.content" (VObj [])
                   eq_refl eq_refl eq_refl eq_refl _)).
  exists VUndefined. split; [reflexivity | left; reflexivity].
Defined.

